(** * SlotHunter backend: license validation and device binding

    A shallow embedding of the security core of the backend
    (request signing, rate limiting, bearer tokens, device binding and the
    HTTP routes built on them) together with the properties the design
    document states about it.

    Conventions of the embedding.
    - JavaScript numbers that hold counters and epoch milliseconds are [Z].
    - Every [async] function is a computation in the monad [Async]: it reads
      and writes a [World] (clock, configuration, the in-process rate-limit
      cache and the database tables) and either returns a value or throws.
    - Every Prisma call consumes one entry of the fault schedule of the
      world; [true] makes the call reject (the promise throws).
    - [logger.*] only writes to the console and to an error table that no
      modelled code reads; it is left out.
    - [Date.now()] is constant during one request.
    - A request payload is [null] or an object whose fields, when present,
      are strings, as the TypeScript interfaces of the routes declare them
      (the activation routes check this with a schema; the validation and
      device-swap routes only cast the payload).
    - A JavaScript string is the sequence of its UTF-16 code units, for
      strings whose code units are below 256: a character of a Rocq string
      is one code unit, and the length of the string is the number of its
      code units.
    - A request runs to its end before the next one starts: runs that
      overlap at an [await] are not modelled. *)

From Stdlib Require Import ZArith Lia Ascii String.
From Stdlib.Strings Require Import Byte.
From stdpp Require Import gmap strings list fin_maps pretty.

Local Open Scope string_scope.
Local Open Scope Z_scope.

(** ** Data model *)

Inductive LicenseStatus := INACTIVE | ACTIVE | EXPIRED.

Inductive PlanType := MONTHLY | ANNUAL | LIFETIME.

#[global] Instance LicenseStatus_eq_dec : EqDecision LicenseStatus.
Proof. solve_decision. Defined.

#[global] Instance PlanType_eq_dec : EqDecision PlanType.
Proof. solve_decision. Defined.

(** A row of the [License] table (the row id is the key of the table map),
    with the owning user's e-mail and name joined in. *)
Record License := {
  key : string;
  userId : string;
  user_email : string;
  user_name : string;
  planType : PlanType;
  status : LicenseStatus;
  isBanned : bool;
  bannedReason : option string;
  bannedAt : option Z;
  browserFingerprint : option string;
  hardwareFingerprint : option string;
  deviceName : option string;
  activationCount : Z;
  maxActivations : Z;
  expiresAt : option Z;
  createdAt : Z;
  lastValidatedAt : option Z;
  lastValidatedIp : option string
}.

Record ValidationLog := {
  vl_licenseId : string;
  vl_browserFingerprint : string;
  vl_hardwareFingerprint : option string;
  vl_ipAddress : string;
  vl_userAgent : string;
  vl_result : string;
  vl_failureReason : option string;
  vl_extensionVersion : string
}.

Record DeviceSwapLog := {
  sl_licenseId : string;
  sl_oldBrowserFingerprint : string;
  sl_newBrowserFingerprint : string;
  sl_ipAddress : string;
  sl_reason : option string;
  sl_approved : bool
}.

Record WebConfig := {
  wc_version : string;
  wc_isActive : bool;
  wc_createdAt : Z;
  wc_publishedAt : Z;
  wc_checksum : string
}.

Record ConfigDeliveryLog := {
  cd_licenseId : string;
  cd_configVersion : string;
  cd_extensionVersion : string
}.

Record RateLimitEntry := { count : Z; resetAt : Z }.

Record RateLimitConfig := { limit : Z; windowMs : Z }.

Record RateLimitResult := {
  success : bool;
  r_limit : Z;
  remaining : Z;
  reset : Z
}.

(** ** The world a request runs in *)

Record World := {
  clock : Z;
  faults : list bool;
  API_SECRET : option string;
  JWT_SECRET : string;
  rateLimitCache : gmap string RateLimitEntry;
  tbl_rateLimit : gmap string RateLimitEntry;
  tbl_license : gmap string License;
  tbl_validationLog : list ValidationLog;
  tbl_deviceSwapLog : list DeviceSwapLog;
  tbl_webConfig : list WebConfig;
  tbl_configDeliveryLog : list ConfigDeliveryLog
}.

Definition set_clock (t : Z) (w : World) : World :=
  {| clock := t; faults := faults w; API_SECRET := API_SECRET w;
     JWT_SECRET := JWT_SECRET w; rateLimitCache := rateLimitCache w;
     tbl_rateLimit := tbl_rateLimit w; tbl_license := tbl_license w;
     tbl_validationLog := tbl_validationLog w;
     tbl_deviceSwapLog := tbl_deviceSwapLog w;
     tbl_webConfig := tbl_webConfig w;
     tbl_configDeliveryLog := tbl_configDeliveryLog w |}.

Definition set_faults (fs : list bool) (w : World) : World :=
  {| clock := clock w; faults := fs; API_SECRET := API_SECRET w;
     JWT_SECRET := JWT_SECRET w; rateLimitCache := rateLimitCache w;
     tbl_rateLimit := tbl_rateLimit w; tbl_license := tbl_license w;
     tbl_validationLog := tbl_validationLog w;
     tbl_deviceSwapLog := tbl_deviceSwapLog w;
     tbl_webConfig := tbl_webConfig w;
     tbl_configDeliveryLog := tbl_configDeliveryLog w |}.

Definition set_rateLimitCache (c : gmap string RateLimitEntry) (w : World) : World :=
  {| clock := clock w; faults := faults w; API_SECRET := API_SECRET w;
     JWT_SECRET := JWT_SECRET w; rateLimitCache := c;
     tbl_rateLimit := tbl_rateLimit w; tbl_license := tbl_license w;
     tbl_validationLog := tbl_validationLog w;
     tbl_deviceSwapLog := tbl_deviceSwapLog w;
     tbl_webConfig := tbl_webConfig w;
     tbl_configDeliveryLog := tbl_configDeliveryLog w |}.

Definition set_tbl_rateLimit (t : gmap string RateLimitEntry) (w : World) : World :=
  {| clock := clock w; faults := faults w; API_SECRET := API_SECRET w;
     JWT_SECRET := JWT_SECRET w; rateLimitCache := rateLimitCache w;
     tbl_rateLimit := t; tbl_license := tbl_license w;
     tbl_validationLog := tbl_validationLog w;
     tbl_deviceSwapLog := tbl_deviceSwapLog w;
     tbl_webConfig := tbl_webConfig w;
     tbl_configDeliveryLog := tbl_configDeliveryLog w |}.

Definition set_tbl_license (t : gmap string License) (w : World) : World :=
  {| clock := clock w; faults := faults w; API_SECRET := API_SECRET w;
     JWT_SECRET := JWT_SECRET w; rateLimitCache := rateLimitCache w;
     tbl_rateLimit := tbl_rateLimit w; tbl_license := t;
     tbl_validationLog := tbl_validationLog w;
     tbl_deviceSwapLog := tbl_deviceSwapLog w;
     tbl_webConfig := tbl_webConfig w;
     tbl_configDeliveryLog := tbl_configDeliveryLog w |}.

Definition set_tbl_validationLog (t : list ValidationLog) (w : World) : World :=
  {| clock := clock w; faults := faults w; API_SECRET := API_SECRET w;
     JWT_SECRET := JWT_SECRET w; rateLimitCache := rateLimitCache w;
     tbl_rateLimit := tbl_rateLimit w; tbl_license := tbl_license w;
     tbl_validationLog := t;
     tbl_deviceSwapLog := tbl_deviceSwapLog w;
     tbl_webConfig := tbl_webConfig w;
     tbl_configDeliveryLog := tbl_configDeliveryLog w |}.

Definition set_tbl_deviceSwapLog (t : list DeviceSwapLog) (w : World) : World :=
  {| clock := clock w; faults := faults w; API_SECRET := API_SECRET w;
     JWT_SECRET := JWT_SECRET w; rateLimitCache := rateLimitCache w;
     tbl_rateLimit := tbl_rateLimit w; tbl_license := tbl_license w;
     tbl_validationLog := tbl_validationLog w;
     tbl_deviceSwapLog := t;
     tbl_webConfig := tbl_webConfig w;
     tbl_configDeliveryLog := tbl_configDeliveryLog w |}.

Definition set_tbl_configDeliveryLog (t : list ConfigDeliveryLog) (w : World) : World :=
  {| clock := clock w; faults := faults w; API_SECRET := API_SECRET w;
     JWT_SECRET := JWT_SECRET w; rateLimitCache := rateLimitCache w;
     tbl_rateLimit := tbl_rateLimit w; tbl_license := tbl_license w;
     tbl_validationLog := tbl_validationLog w;
     tbl_deviceSwapLog := tbl_deviceSwapLog w;
     tbl_webConfig := tbl_webConfig w;
     tbl_configDeliveryLog := t |}.

(** ** Asynchronous computations: state and exceptions *)

Inductive outcome (A : Type) : Type :=
| Ok (a : A) (w : World)
| Throw (w : World).

Arguments Ok {A} a w.
Arguments Throw {A} w.

Definition Async (A : Type) : Type := World → outcome A.

#[global] Instance Async_ret : MRet Async := λ A a w, Ok a w.

#[global] Instance Async_bind : MBind Async := λ A B f m w,
  match m w with
  | Ok a w' => f a w'
  | Throw w' => Throw w'
  end.

(** [try { body } catch { handler }] *)
Definition try_catch {A} (body handler : Async A) : Async A := λ w,
  match body w with
  | Ok a w' => Ok a w'
  | Throw w' => handler w'
  end.

Definition throw {A} : Async A := λ w, Throw w.

(** The world an outcome leaves behind. *)
Definition world_of {A} (o : outcome A) : World :=
  match o with Ok _ w => w | Throw w => w end.

Definition Date_now : Async Z := λ w, Ok (clock w) w.

Definition getenv {A} (f : World → A) : Async A := λ w, Ok (f w) w.

(** One round trip to the database: it rejects when the fault schedule says
    so, or when the query itself fails ([op] returns [None]). *)
Definition prisma {A} (op : World → option (A * World)) : Async A := λ w,
  let run w0 := match op w0 with
                | Some (a, w') => Ok a w'
                | None => Throw w0
                end in
  match faults w with
  | true :: fs => Throw (set_faults fs w)
  | false :: fs => run (set_faults fs w)
  | [] => run w
  end.

(** ** Rate limiter (lib/security/rate-limit) *)

Definition RATE_LIMITS_IP : RateLimitConfig := {| limit := 100; windowMs := 60 * 1000 |}.
Definition RATE_LIMITS_LICENSE : RateLimitConfig := {| limit := 30; windowMs := 60 * 1000 |}.
Definition RATE_LIMITS_LOGIN : RateLimitConfig := {| limit := 5; windowMs := 15 * 60 * 1000 |}.
Definition RATE_LIMITS_ENDPOINT : RateLimitConfig := {| limit := 10000; windowMs := 60 * 1000 |}.
Definition RATE_LIMITS_DEVICE_SWAP : RateLimitConfig := {| limit := 1; windowMs := 24 * 60 * 60 * 1000 |}.

Definition cache_get (k : string) : Async (option RateLimitEntry) :=
  λ w, Ok (rateLimitCache w !! k) w.

Definition cache_set (k : string) (e : RateLimitEntry) : Async unit :=
  λ w, Ok tt (set_rateLimitCache (<[k := e]> (rateLimitCache w)) w).

(** The periodic sweep installed with [setInterval]. *)
Definition cleanup : Async unit := λ w,
  Ok tt (set_rateLimitCache
           (filter (λ kv, negb (resetAt kv.2 <? clock w) = true) (rateLimitCache w)) w).

Definition getFromSupabase (k : string) : Async (option RateLimitEntry) :=
  try_catch
    (result ← prisma (λ w, Some (tbl_rateLimit w !! k, w));
     now ← Date_now;
     match result with
     | None => mret None
     | Some r =>
         if resetAt r <? now then mret None
         else mret (Some {| count := count r; resetAt := resetAt r |})
     end)
    (mret None).

Definition saveToSupabase (k : string) (entry : RateLimitEntry) : Async unit :=
  try_catch
    (prisma (λ w, Some (tt, set_tbl_rateLimit (<[k := entry]> (tbl_rateLimit w)) w)))
    (mret tt).

(** [entry.count++] mutates the object the cache holds; the cache is written
    again right after, so the model increments a value and stores it. The
    last write to the durable store is not awaited in the source; the model
    runs it in place, its failure being swallowed either way. *)
Definition checkRateLimit (identifier : string) (config : RateLimitConfig)
    (prefix : string) : Async RateLimitResult :=
  let k := prefix +:+ ":" +:+ identifier in
  now ← Date_now;
  cached ← cache_get k;
  let newWindow :=
    let e := {| count := 0; resetAt := now + windowMs config |} in
    cache_set k e;; saveToSupabase k e;; mret e in
  let fromStore :=
    dbEntry ← getFromSupabase k;
    match dbEntry with
    | Some d => if resetAt d >? now then cache_set k d;; mret d else newWindow
    | None => newWindow
    end in
  entry ← match cached with
          | Some e => if resetAt e <? now then fromStore else mret e
          | None => fromStore
          end;
  let entry := {| count := count entry + 1; resetAt := resetAt entry |} in
  let success := count entry <=? limit config in
  let remaining := Z.max 0 (limit config - count entry) in
  let reset := resetAt entry in
  cache_set k entry;;
  saveToSupabase k entry;;
  mret {| success := success; r_limit := limit config;
          remaining := remaining; reset := reset |}.

Definition checkIpRateLimit (ip : string) : Async RateLimitResult :=
  checkRateLimit ip RATE_LIMITS_IP "ip".

Definition checkLicenseRateLimit (licenseKey : string) : Async RateLimitResult :=
  checkRateLimit licenseKey RATE_LIMITS_LICENSE "license".

Definition checkLoginRateLimit (email : string) : Async RateLimitResult :=
  checkRateLimit email RATE_LIMITS_LOGIN "login".

Definition checkDeviceSwapRateLimit (licenseKey : string) : Async RateLimitResult :=
  checkRateLimit licenseKey RATE_LIMITS_DEVICE_SWAP "swap".

(** ** Primitives of the platform

    The keyed hash of [crypto], the serialisation of [JSON.stringify] and the
    signature and compact serialisation of the [jose] library are not part of
    the repository; the development is parametric in them. *)

Inductive Json := JsNull | JsObject (fields : gmap string string).

Inductive JsPrim := JNum (n : Z) | JStr (s : string) | JOther.

Inductive ClaimValue := CStr (s : string) | CNum (n : Z).

#[global] Instance ClaimValue_eq_dec : EqDecision ClaimValue.
Proof. solve_decision. Defined.

Record JWT := {
  jwt_alg : string;
  jwt_claims : gmap string ClaimValue;
  jwt_signature : string
}.

(** Stand-ins for those primitives, to run the model on concrete inputs.
    No theorem depends on how they are chosen. *)

Definition demo_hmac (secret message : string) : string := "c0ffee".

Definition demo_stringify (p : Json) (t : Z) : string :=
  match p with
  | JsNull => "null"
  | JsObject _ => "object"
  end.

Definition demo_HS256 (secret alg : string) (claims : gmap string ClaimValue)
    : string := "signature".

Definition demo_compact (t : JWT) : string := "header.claims.signature".

(** The refresh token issued at second 1 to license [lic-1] of [user-1],
    which is what the stand-in parser reads from every string. *)
Definition demo_refresh_token : JWT :=
  {| jwt_alg := "HS256";
     jwt_claims :=
       <["exp" := CNum (1 + 7 * 86400)]>
         (<["aud" := CStr "slothunter-extension"]>
            (<["iss" := CStr "slothunter"]>
               (<["iat" := CNum 1]>
                  (<["type" := CStr "refresh"]>
                     (<["userId" := CStr "user-1"]>
                        (<["licenseId" := CStr "lic-1"]> ∅))))));
     jwt_signature := "signature" |}.

Definition demo_parse (token : string) : option JWT := Some demo_refresh_token.

(** The access token issued at second 1 to the same license, and a parser
    that reads it from every string. *)
Definition demo_access_token : JWT :=
  {| jwt_alg := "HS256";
     jwt_claims :=
       <["exp" := CNum (1 + 3600)]>
         (<["aud" := CStr "slothunter-extension"]>
            (<["iss" := CStr "slothunter"]>
               (<["iat" := CNum 1]>
                  (<["userId" := CStr "user-1"]>
                     (<["licenseId" := CStr "lic-1"]> ∅)))));
     jwt_signature := "signature" |}.

Definition demo_parse_access (token : string) : option JWT := Some demo_access_token.

Section Backend.

(** [createHmac('sha256', secret).update(message).digest('hex')] *)
Context (hmac_sha256_hex : string → string → string).
(** [JSON.stringify({ payload, timestamp })] *)
Context (JSON_stringify : Json → Z → string).
(** The HMAC signature of a protected header (its algorithm, [HS256] for
    every token this backend issues) and a claim set under a secret. *)
Context (HS256 : string → string → gmap string ClaimValue → string).
(** Compact serialisation of a signed token and its parser. *)
Context (compact : JWT → string) (parse_compact : string → option JWT).

(** ** Request authenticator (lib/security/hmac) *)

Record SignedRequest := {
  payload : Json;
  timestamp : Z;
  signature : string
}.

Definition signRequest (now : Z) (payload : Json) (apiSecret : string) : SignedRequest :=
  let timestamp := now in
  let message := JSON_stringify payload timestamp in
  let signature := hmac_sha256_hex apiSecret message in
  {| payload := payload; timestamp := timestamp; signature := signature |}.

Definition hex_value (c : ascii) : option N :=
  let n := N_of_ascii c in
  if (48 <=? n)%N && (n <=? 57)%N then Some (n - 48)%N
  else if (97 <=? n)%N && (n <=? 102)%N then Some (n - 87)%N
  else if (65 <=? n)%N && (n <=? 70)%N then Some (n - 55)%N
  else None.

(** [Buffer.from(s, 'hex')]: decoding stops at the first pair that is not
    two hexadecimal digits. *)
Fixpoint hex_decode (s : list ascii) : list N :=
  match s with
  | c1 :: c2 :: rest =>
      match hex_value c1, hex_value c2 with
      | Some h, Some l => (16 * h + l)%N :: hex_decode rest
      | _, _ => []
      end
  | _ => []
  end.

Definition Buffer_from_hex (s : string) : list N :=
  hex_decode (list_ascii_of_string s).

(** [crypto.timingSafeEqual]: throws ([None]) on buffers of different
    lengths. *)
Definition timingSafeEqual (a b : list N) : option bool :=
  if bool_decide (length a = length b) then Some (bool_decide (a = b)) else None.

Definition verifyRequest (now : Z) (request : SignedRequest) (apiSecret : string)
    (maxAge : Z) : bool :=
  let age := now - timestamp request in
  if (age >? maxAge) || (age <? 0) then false
  else
    let message := JSON_stringify (payload request) (timestamp request) in
    let expectedSignature := hmac_sha256_hex apiSecret message in
    match timingSafeEqual (Buffer_from_hex (signature request))
                          (Buffer_from_hex expectedSignature) with
    | Some b => b
    | None => false
    end.

(** The parsed JSON body of a request, as far as [parseSignedRequest] looks
    at it: not an object (or [null]), or an object with or without each of
    the three keys. *)
Inductive Body :=
| BodyNotObject
| BodyObject (b_payload : option Json) (b_timestamp b_signature : option JsPrim).

Definition parseSignedRequest (body : Body) : option SignedRequest :=
  match body with
  | BodyNotObject => None
  | BodyObject (Some p) (Some t) (Some s) =>
      match t, s with
      | JNum timestamp, JStr signature =>
          Some {| payload := p; timestamp := timestamp; signature := signature |}
      | _, _ => None
      end
  | BodyObject _ _ _ => None
  end.

(** ** License keys (lib/payment/license-generator) *)

Definition hex_char (n : N) : ascii :=
  if (n <? 10)%N then ascii_of_N (48 + n) else ascii_of_N (87 + n).

(** [bytes.toString('hex')] *)
Definition byte_to_hex (b : byte) : list ascii :=
  let n := Byte.to_N b in [hex_char (n / 16); hex_char (n mod 16)].

Definition toString_hex (bytes : list byte) : string :=
  string_of_list_ascii (flat_map byte_to_hex bytes).

Definition upper_char (c : ascii) : ascii :=
  let n := N_of_ascii c in
  if (97 <=? n)%N && (n <=? 122)%N then ascii_of_N (n - 32) else c.

Fixpoint toUpperCase (s : string) : string :=
  match s with
  | EmptyString => EmptyString
  | String c rest => String (upper_char c) (toUpperCase rest)
  end.

(** [s.slice(a, b)] for [0 <= a <= b] *)
Definition slice (s : string) (a b : nat) : string := substring a (b - a)%nat s.

Definition generateLicenseKey (randomBytes12 : list byte) : string :=
  let bytes := randomBytes12 in
  let hex := toUpperCase (toString_hex bytes) in
  let parts := ["SH"; slice hex 0 4; slice hex 4 8; slice hex 8 12; slice hex 12 16] in
  String.concat "-" parts.

(** The regular expressions of the module are sequences of literal
    characters and of the class [[A-Z0-9]], anchored at both ends. *)
Inductive atom := Lit (c : ascii) | UpperOrDigit.

Definition atom_matches (a : atom) (c : ascii) : bool :=
  match a with
  | Lit c' => bool_decide (c = c')
  | UpperOrDigit =>
      let n := N_of_ascii c in
      ((65 <=? n)%N && (n <=? 90)%N) || ((48 <=? n)%N && (n <=? 57)%N)
  end.

Fixpoint regex_test (pattern : list atom) (s : string) : bool :=
  match pattern, s with
  | [], EmptyString => true
  | a :: pattern', String c s' => atom_matches a c && regex_test pattern' s'
  | _, _ => false
  end.

Definition literal (s : string) : list atom := Lit <$> list_ascii_of_string s.

(** [/^SH-[A-Z0-9]{4}-[A-Z0-9]{4}-[A-Z0-9]{4}-[A-Z0-9]{4}$/] *)
Definition license_key_pattern : list atom :=
  literal "SH-" ++ replicate 4 UpperOrDigit ++ literal "-"
    ++ replicate 4 UpperOrDigit ++ literal "-"
    ++ replicate 4 UpperOrDigit ++ literal "-"
    ++ replicate 4 UpperOrDigit.

Definition isValidLicenseKeyFormat (key : string) : bool :=
  regex_test license_key_pattern key.

(** ** Token issuer (lib/security/jwt) *)

Definition JWT_ISSUER : string := "slothunter".
Definition JWT_AUDIENCE : string := "slothunter-extension".

Record JWTPayload := {
  licenseId : option string;
  userId_ : option string;
  email : option string;
  iat : option Z;
  exp : option Z
}.

Definition set_claim (k : string) (v : option ClaimValue)
    (c : gmap string ClaimValue) : gmap string ClaimValue :=
  match v with
  | Some v => <[k := v]> c
  | None => c
  end.

(** The claim set of the object passed to [new jose.SignJWT(...)]. *)
Definition payload_claims (p : JWTPayload) : gmap string ClaimValue :=
  set_claim "email" (CStr <$> email p)
    (set_claim "userId" (CStr <$> userId_ p)
       (set_claim "licenseId" (CStr <$> licenseId p) ∅)).

(** [new jose.SignJWT(claims).setProtectedHeader({ alg: 'HS256' })
      .setIssuedAt().setIssuer(..).setAudience(..)
      .setExpirationTime(lifetime).sign(secret)] *)
Definition SignJWT (claims : gmap string ClaimValue) (lifetime : Z) : Async string :=
  now ← Date_now;
  secret ← getenv JWT_SECRET;
  let epoch := now / 1000 in
  let claims :=
    <["exp" := CNum (epoch + lifetime)]>
      (<["aud" := CStr JWT_AUDIENCE]>
         (<["iss" := CStr JWT_ISSUER]>
            (<["iat" := CNum epoch]> claims))) in
  mret (compact {| jwt_alg := "HS256"; jwt_claims := claims;
                   jwt_signature := HS256 secret "HS256" claims |}).

Definition signAccessToken (p : JWTPayload) : Async string :=
  SignJWT (payload_claims p) 3600.

Definition signRefreshToken (p : JWTPayload) : Async string :=
  SignJWT (<["type" := CStr "refresh"]> (payload_claims p)) (7 * 86400).

Record TokenPair := {
  accessToken : string;
  refreshToken : string;
  expiresIn : Z
}.

Definition generateTokenPair (p : JWTPayload) : Async TokenPair :=
  a ← signAccessToken p;
  r ← signRefreshToken p;
  mret {| accessToken := a; refreshToken := r; expiresIn := 3600 |}.

Definition claim_string (c : gmap string ClaimValue) (k : string) : option string :=
  match c !! k with
  | Some (CStr s) => Some s
  | _ => None
  end.

Definition claim_number (c : gmap string ClaimValue) (k : string) : option Z :=
  match c !! k with
  | Some (CNum n) => Some n
  | _ => None
  end.

(** [jose.jwtVerify(token, secret, { issuer, audience })]: the token parses,
    its algorithm is one a shared secret can verify (no [algorithms] option
    narrows it: [HS256], [HS384] and [HS512] all pass), its signature is the
    one of its header and claims under the secret, and the registered claims
    [iss], [aud], [exp], [nbf] and [iat] are in order. No other claim is
    looked at. *)
Definition jwtVerify (token : string) (issuer audience : string)
    : Async (gmap string ClaimValue) :=
  now ← Date_now;
  secret ← getenv JWT_SECRET;
  let epoch := now / 1000 in
  match parse_compact token with
  | None => throw
  | Some jwt =>
      let c := jwt_claims jwt in
      if negb (bool_decide (jwt_alg jwt = "HS256")
               || bool_decide (jwt_alg jwt = "HS384")
               || bool_decide (jwt_alg jwt = "HS512")) then throw
      else if negb (bool_decide (jwt_signature jwt = HS256 secret (jwt_alg jwt) c)) then throw
      else if negb (bool_decide (c !! "iss" = Some (CStr issuer))) then throw
      else if negb (bool_decide (c !! "aud" = Some (CStr audience))) then throw
      else if match c !! "iat" with Some (CStr _) => true | _ => false end then throw
      else if match c !! "nbf" with
              | Some (CStr _) => true
              | Some (CNum nbf) => nbf >? epoch
              | None => false
              end then throw
      else if match c !! "exp" with
              | Some (CStr _) => true
              | Some (CNum exp) => exp <=? epoch
              | None => false
              end then throw
      else mret c
  end.

Definition verifyJWT (token : string) : Async (option JWTPayload) :=
  try_catch
    (payload ← jwtVerify token JWT_ISSUER JWT_AUDIENCE;
     mret (Some {| licenseId := claim_string payload "licenseId";
                   userId_ := claim_string payload "userId";
                   email := claim_string payload "email";
                   iat := claim_number payload "iat";
                   exp := claim_number payload "exp" |}))
    (mret None).

Definition startsWith (s prefix : string) : bool :=
  bool_decide (substring 0 (String.length prefix) s = prefix).

Definition extractBearerToken (authHeader : option string) : option string :=
  match authHeader with
  | Some h =>
      if startsWith h "Bearer " then
        Some (substring 7 (String.length h - 7)%nat h)
      else None
  | None => None
  end.

(** ** Device binding (lib/security/device-binding) *)

Record DeviceFingerprint := {
  df_browserFingerprint : string;
  df_hardwareFingerprint : option string
}.

Inductive DeviceErrorCode := DEVICE_MISMATCH | MAX_ACTIVATIONS_REACHED.

Record DeviceBindingResult := {
  isValid : bool;
  isFirstActivation : bool;
  canSwap : bool;
  swapsRemaining : Z;
  boundDevice : option string;
  errorCode : option DeviceErrorCode
}.

(** JavaScript truthiness of a [string | null | undefined]. *)
Definition truthy (o : option string) : bool :=
  match o with
  | Some s => negb (bool_decide (s = ""))
  | None => false
  end.

(** [o || fallback] *)
Definition or_else (o : option string) (fallback : string) : string :=
  match o with
  | Some s => if bool_decide (s = "") then fallback else s
  | None => fallback
  end.

(** [o || undefined] *)
Definition or_undefined (o : option string) : option string :=
  if truthy o then o else None.

(** A field Prisma leaves alone when the value passed is [undefined]. *)
Definition unless_undefined {A} (new : option A) (old : option A) : option A :=
  match new with
  | Some v => Some v
  | None => old
  end.

Definition set_status (s : LicenseStatus) (l : License) : License :=
  {| key := key l; userId := userId l; user_email := user_email l;
     user_name := user_name l; planType := planType l; status := s;
     isBanned := isBanned l; bannedReason := bannedReason l;
     bannedAt := bannedAt l; browserFingerprint := browserFingerprint l;
     hardwareFingerprint := hardwareFingerprint l; deviceName := deviceName l;
     activationCount := activationCount l; maxActivations := maxActivations l;
     expiresAt := expiresAt l; createdAt := createdAt l;
     lastValidatedAt := lastValidatedAt l; lastValidatedIp := lastValidatedIp l |}.

Definition set_fingerprints (b h : option string) (l : License) : License :=
  {| key := key l; userId := userId l; user_email := user_email l;
     user_name := user_name l; planType := planType l; status := status l;
     isBanned := isBanned l; bannedReason := bannedReason l;
     bannedAt := bannedAt l; browserFingerprint := b;
     hardwareFingerprint := h; deviceName := deviceName l;
     activationCount := activationCount l; maxActivations := maxActivations l;
     expiresAt := expiresAt l; createdAt := createdAt l;
     lastValidatedAt := lastValidatedAt l; lastValidatedIp := lastValidatedIp l |}.

Definition set_deviceName (d : option string) (l : License) : License :=
  {| key := key l; userId := userId l; user_email := user_email l;
     user_name := user_name l; planType := planType l; status := status l;
     isBanned := isBanned l; bannedReason := bannedReason l;
     bannedAt := bannedAt l; browserFingerprint := browserFingerprint l;
     hardwareFingerprint := hardwareFingerprint l; deviceName := d;
     activationCount := activationCount l; maxActivations := maxActivations l;
     expiresAt := expiresAt l; createdAt := createdAt l;
     lastValidatedAt := lastValidatedAt l; lastValidatedIp := lastValidatedIp l |}.

Definition set_activationCount (n : Z) (l : License) : License :=
  {| key := key l; userId := userId l; user_email := user_email l;
     user_name := user_name l; planType := planType l; status := status l;
     isBanned := isBanned l; bannedReason := bannedReason l;
     bannedAt := bannedAt l; browserFingerprint := browserFingerprint l;
     hardwareFingerprint := hardwareFingerprint l; deviceName := deviceName l;
     activationCount := n; maxActivations := maxActivations l;
     expiresAt := expiresAt l; createdAt := createdAt l;
     lastValidatedAt := lastValidatedAt l; lastValidatedIp := lastValidatedIp l |}.

Definition set_lastValidated (at_ : option Z) (ip : option string) (l : License) : License :=
  {| key := key l; userId := userId l; user_email := user_email l;
     user_name := user_name l; planType := planType l; status := status l;
     isBanned := isBanned l; bannedReason := bannedReason l;
     bannedAt := bannedAt l; browserFingerprint := browserFingerprint l;
     hardwareFingerprint := hardwareFingerprint l; deviceName := deviceName l;
     activationCount := activationCount l; maxActivations := maxActivations l;
     expiresAt := expiresAt l; createdAt := createdAt l;
     lastValidatedAt := at_; lastValidatedIp := ip |}.

(** [prisma.license.findUnique({ where: { id } })] *)
Definition license_findUnique_id (id : string) : Async (option License) :=
  prisma (λ w, Some (tbl_license w !! id, w)).

Definition find_by_key (t : gmap string License) (k : string) : option (string * License) :=
  find (λ row, bool_decide (key row.2 = k)) (map_to_list t).

(** [prisma.license.findUnique({ where: { key } })]: the row and its id. *)
Definition license_findUnique_key (k : string) : Async (option (string * License)) :=
  prisma (λ w, Some (find_by_key (tbl_license w) k, w)).

(** [prisma.license.update({ where: { id }, data })]; it rejects when no row
    has the id. *)
Definition license_update (id : string) (data : License → License) : Async unit :=
  prisma (λ w, match tbl_license w !! id with
               | Some l => Some (tt, set_tbl_license (<[id := data l]> (tbl_license w)) w)
               | None => None
               end).

Definition validationLog_create (entry : ValidationLog) : Async unit :=
  prisma (λ w, Some (tt, set_tbl_validationLog (tbl_validationLog w ++ [entry]) w)).

(** [prisma.deviceSwapLog.create]; the id of the new row is its position. *)
Definition deviceSwapLog_create (entry : DeviceSwapLog) : Async nat :=
  prisma (λ w, Some (length (tbl_deviceSwapLog w),
                     set_tbl_deviceSwapLog (tbl_deviceSwapLog w ++ [entry]) w)).

Definition checkDeviceBinding (licenseId : string) (fingerprint : DeviceFingerprint)
    : Async DeviceBindingResult :=
  license ← license_findUnique_id licenseId;
  match license with
  | None =>
      mret {| isValid := false; isFirstActivation := false; canSwap := false;
              swapsRemaining := 0; boundDevice := None; errorCode := None |}
  | Some license =>
      if negb (truthy (browserFingerprint license)) then
        mret {| isValid := true; isFirstActivation := true; canSwap := false;
                swapsRemaining := maxActivations license - activationCount license;
                boundDevice := None; errorCode := None |}
      else if bool_decide (browserFingerprint license
                           = Some (df_browserFingerprint fingerprint)) then
        mret {| isValid := true; isFirstActivation := false; canSwap := false;
                swapsRemaining := maxActivations license - activationCount license;
                boundDevice := or_undefined (deviceName license);
                errorCode := None |}
      else
        let canSwap := activationCount license <? maxActivations license in
        mret {| isValid := false; isFirstActivation := false; canSwap := canSwap;
                swapsRemaining :=
                  Z.max 0 (maxActivations license - activationCount license);
                boundDevice := or_undefined (deviceName license);
                errorCode := Some (if canSwap then DEVICE_MISMATCH
                                   else MAX_ACTIVATIONS_REACHED) |}
  end.

Definition bindDevice (licenseId : string) (fingerprint : DeviceFingerprint)
    (deviceName : option string) (ip : option string) : Async bool :=
  try_catch
    (now ← Date_now;
     license_update licenseId (λ l,
       set_lastValidated (Some now) (unless_undefined ip (lastValidatedIp l))
         (set_activationCount (activationCount l + 1)
            (set_status ACTIVE
               (set_deviceName (Some (or_else deviceName "Unknown Device"))
                  (set_fingerprints
                     (Some (df_browserFingerprint fingerprint))
                     (unless_undefined (df_hardwareFingerprint fingerprint)
                                       (hardwareFingerprint l))
                     l)))));;
     mret true)
    (mret false).

Record SwapResult := {
  swap_success : bool;
  swapLogId : option nat;
  swap_error : option string
}.

Definition requestDeviceSwap (licenseId : string) (newFingerprint : DeviceFingerprint)
    (ip : string) (reason : option string) : Async SwapResult :=
  license ← license_findUnique_id licenseId;
  match license with
  | None =>
      mret {| swap_success := false; swapLogId := None;
              swap_error := Some "License not found" |}
  | Some license =>
      if negb (truthy (browserFingerprint license)) then
        mret {| swap_success := false; swapLogId := None;
                swap_error := Some "No device bound to this license" |}
      else if activationCount license >=? maxActivations license then
        mret {| swap_success := false; swapLogId := None;
                swap_error := Some "Maximum device swaps reached" |}
      else
        swapLog ← deviceSwapLog_create
          {| sl_licenseId := licenseId;
             sl_oldBrowserFingerprint := default "" (browserFingerprint license);
             sl_newBrowserFingerprint := df_browserFingerprint newFingerprint;
             sl_ipAddress := ip;
             sl_reason := reason;
             sl_approved := true |};
        now ← Date_now;
        license_update licenseId (λ l,
          set_lastValidated (Some now) (Some ip)
            (set_activationCount (activationCount l + 1)
               (set_fingerprints
                  (Some (df_browserFingerprint newFingerprint))
                  (unless_undefined (df_hardwareFingerprint newFingerprint)
                                    (hardwareFingerprint l))
                  l)));;
        mret {| swap_success := true; swapLogId := Some swapLog;
                swap_error := None |}
  end.

(** The white space and line terminators [String.prototype.trim] strips,
    among the code units below 256: tab to carriage return, the space and
    the no-break space. *)
Definition is_space (c : ascii) : bool :=
  let n := N_of_ascii c in
  ((9 <=? n)%N && (n <=? 13)%N) || (n =? 32)%N || (n =? 160)%N.

Fixpoint before_comma (s : string) : string :=
  match s with
  | EmptyString => EmptyString
  | String c rest =>
      if bool_decide (c = ","%char) then EmptyString
      else String c (before_comma rest)
  end.

Fixpoint trimStart (s : list ascii) : list ascii :=
  match s with
  | c :: rest => if is_space c then trimStart rest else s
  | [] => []
  end.

Definition trim (s : string) : string :=
  string_of_list_ascii
    (rev (trimStart (rev (trimStart (list_ascii_of_string s))))).

(** [headers.get(name)] *)
Definition Headers := string → option string.

Definition getClientIp (headers : Headers) : string :=
  match or_undefined (trim <$> (before_comma <$> headers "x-forwarded-for")) with
  | Some ip => ip
  | None => or_else (headers "x-real-ip") "unknown"
  end.

(** ** HTTP layer *)

Record Request (B : Type) := {
  headers : Headers;
  json : option B
}.

Arguments headers {B} r.
Arguments json {B} r.

(** [await req.json()]; it rejects when the body is not JSON. *)
Definition req_json {B} (req : Request B) : Async B :=
  match json req with
  | Some b => mret b
  | None => throw
  end.

Inductive Details :=
| NoDetails
| RateLimitHeaders (r : RateLimitResult)
| RetryAfter (seconds : Z) (r : RateLimitResult)
| BoundDevice (d : option string)
| BannedAt (t : option Z)
| ExpiresAt (t : option Z)
| MismatchDetails (boundDevice : string) (canSwap : bool) (swapsRemaining : Z).

Inductive Data :=
| Activated (accessToken : string) (expiresIn : option Z) (lkey : string)
    (lstatus : LicenseStatus) (lexpiresAt : option Z) (activatedAt : Z)
| Validated (accessToken : string) (lid : string) (lstatus : LicenseStatus)
    (lexpiresAt : option Z) (ldeviceName : option string)
    (configVersion : string) (uname uemail : string)
| Swapped (logId : option nat)
| ExtensionActivated (accessToken refreshToken : string) (plan : PlanType)
    (lexpiresAt : option Z) (uemail uname : string)
| ConfigDelivered (c : WebConfig).

(** [NextResponse.json(...)]: an error body with its status, a success body
    (status 200), or the empty 304 answer of the configuration endpoint. *)
Inductive Response :=
| Failure (http_status : Z) (code : option string) (message : string)
    (details : Details)
| Success (data : Data)
| NotModified (etag : string).

Definition is_success (r : Response) : bool :=
  match r with
  | Success _ => true
  | _ => false
  end.

(** [Math.ceil(ms / 1000)] *)
Definition ceil_seconds (ms : Z) : Z := - ((- ms) / 1000).

Record ActivatePayload := {
  ap_licenseKey : string;
  ap_browserFingerprint : string;
  ap_hardwareFingerprint : option string;
  ap_deviceName : option string
}.

Definition min_length (n : nat) (s : string) : bool :=
  bool_decide (n ≤ String.length s)%nat.

(** [ActivatePayloadSchema.safeParse] of activate/route.ts *)
Definition ActivatePayloadSchema_safeParse (p : Json) : option ActivatePayload :=
  match p with
  | JsNull => None
  | JsObject f =>
      match f !! "licenseKey", f !! "browserFingerprint" with
      | Some k, Some b =>
          if min_length 10 k && min_length 10 b then
            Some {| ap_licenseKey := k; ap_browserFingerprint := b;
                    ap_hardwareFingerprint := f !! "hardwareFingerprint";
                    ap_deviceName := f !! "deviceName" |}
          else None
      | _, _ => None
      end
  end.

(** [ActivateSchema.safeParse] of the extension activation route *)
Definition ActivateSchema_safeParse (p : Json) : option ActivatePayload :=
  match p with
  | JsNull => None
  | JsObject f =>
      match f !! "licenseKey", f !! "browserFingerprint" with
      | Some k, Some b =>
          if min_length 10 k && min_length 5 b then
            Some {| ap_licenseKey := k; ap_browserFingerprint := b;
                    ap_hardwareFingerprint := f !! "hardwareFingerprint";
                    ap_deviceName := None |}
          else None
      | _, _ => None
      end
  end.

Definition expired_at (now : Z) (expiresAt : option Z) : bool :=
  match expiresAt with
  | Some e => e <? now
  | None => false
  end.

Definition INTERNAL_ERROR : Response :=
  Failure 500 (Some "INTERNAL_ERROR") "An unexpected error occurred" NoDetails.

(** *** POST /api/licenses/activate *)

Definition activate_POST (req : Request Body) : Async Response :=
  let ip := getClientIp (headers req) in
  try_catch
    (rateLimit ← checkIpRateLimit ip;
     if negb (success rateLimit) then
       mret (Failure 429 (Some "RATE_LIMIT") "Too many requests"
               (RateLimitHeaders rateLimit))
     else
     body ← req_json req;
     match parseSignedRequest body with
     | None =>
         mret (Failure 400 (Some "INVALID_REQUEST") "Missing required fields" NoDetails)
     | Some signedRequest =>
     apiSecret ← getenv API_SECRET;
     now ← Date_now;
     if negb (truthy apiSecret)
        || negb (verifyRequest now signedRequest (default "" apiSecret) 60000) then
       mret (Failure 401 (Some "INVALID_SIGNATURE") "Request signature is invalid" NoDetails)
     else
     match ActivatePayloadSchema_safeParse (payload signedRequest) with
     | None =>
         mret (Failure 400 (Some "INVALID_PAYLOAD") "Invalid activation data" NoDetails)
     | Some parsed =>
     let licenseKey := ap_licenseKey parsed in
     let browserFingerprint_ := ap_browserFingerprint parsed in
     let hardwareFingerprint_ := ap_hardwareFingerprint parsed in
     let deviceName_ := ap_deviceName parsed in
     found ← license_findUnique_key licenseKey;
     match found with
     | None =>
         mret (Failure 404 (Some "INVALID_LICENSE") "License not found" NoDetails)
     | Some (license_id, license) =>
     if isBanned license then
       mret (Failure 403 (Some "LICENSE_BANNED") "License has been banned" NoDetails)
     else if bool_decide (status license = ACTIVE) then
       if truthy (browserFingerprint license)
          && negb (bool_decide (browserFingerprint license = Some browserFingerprint_)) then
         mret (Failure 403 (Some "ALREADY_ACTIVATED")
                 "License is already activated on another device"
                 (BoundDevice (deviceName license)))
       else
         accessToken ← signAccessToken
           {| licenseId := Some license_id; userId_ := Some (userId license);
              email := Some (user_email license); iat := None; exp := None |};
         mret (Success (Activated accessToken None (key license) (status license)
                          (expiresAt license) (createdAt license)))
     else if negb (bool_decide (status license = INACTIVE)) then
       mret (Failure 400 (Some "INVALID_STATUS")
               "Cannot activate license with status: EXPIRED" NoDetails)
     else if activationCount license >=? maxActivations license then
       mret (Failure 403 (Some "MAX_ACTIVATIONS") "Maximum activations reached" NoDetails)
     else
     ok ← bindDevice license_id
            {| df_browserFingerprint := browserFingerprint_;
               df_hardwareFingerprint := hardwareFingerprint_ |}
            (Some (or_else deviceName_ "Chrome Extension"))
            (Some ip);
     if negb ok then
       mret (Failure 500 (Some "ACTIVATION_FAILED") "Failed to activate license" NoDetails)
     else
     validationLog_create
       {| vl_licenseId := license_id;
          vl_browserFingerprint := browserFingerprint_;
          vl_hardwareFingerprint := hardwareFingerprint_;
          vl_ipAddress := ip;
          vl_userAgent := or_else (headers req "user-agent") "Chrome Extension";
          vl_result := "SUCCESS";
          vl_failureReason := Some "First activation";
          vl_extensionVersion := "1.0.0" |};;
     accessToken ← signAccessToken
       {| licenseId := Some license_id; userId_ := Some (userId license);
          email := Some (user_email license); iat := None; exp := None |};
     now ← Date_now;
     mret (Success (Activated accessToken (Some 3600) (key license) ACTIVE
                      (expiresAt license) now))
     end end end)
    (mret INTERNAL_ERROR).

(** *** POST /api/licenses/validate *)

Definition logValidation (licenseId : option string) (result : string)
    (p : gmap string string) (ip : string) (note : option string) : Async unit :=
  try_catch
    (match licenseId with
     | None => mret tt
     | Some licenseId =>
         if bool_decide (licenseId = "") then mret tt
         else
           validationLog_create
             {| vl_licenseId := licenseId;
                vl_browserFingerprint := default "" (p !! "browserFingerprint");
                vl_hardwareFingerprint := p !! "hardwareFingerprint";
                vl_ipAddress := ip;
                vl_userAgent := "Chrome Extension";
                vl_result := result;
                vl_failureReason := note;
                vl_extensionVersion := default "" (p !! "extensionVersion") |}
     end)
    (mret tt).

Definition latest_by (f : WebConfig → Z) (l : list WebConfig) : option WebConfig :=
  foldr (λ c best, match best with
                   | Some b => if f b <? f c then Some c else Some b
                   | None => Some c
                   end) None l.

(** [prisma.webConfig.findFirst({ where: { isActive: true }, orderBy })] *)
Definition webConfig_findFirst (orderBy : WebConfig → Z) : Async (option WebConfig) :=
  prisma (λ w, Some (latest_by orderBy (filter (λ c, wc_isActive c = true) (tbl_webConfig w)), w)).

Definition validate_POST (req : Request Body) : Async Response :=
  let ip := getClientIp (headers req) in
  try_catch
    (ipLimit ← checkIpRateLimit ip;
     if negb (success ipLimit) then
       now ← Date_now;
       mret (Failure 429 (Some "RATE_LIMIT_EXCEEDED")
               "Too many requests. Please try again later."
               (RetryAfter (ceil_seconds (reset ipLimit - now)) ipLimit))
     else
     body ← req_json req;
     match parseSignedRequest body with
     | None =>
         mret (Failure 400 (Some "INVALID_REQUEST") "Missing required fields" NoDetails)
     | Some signedRequest =>
     apiSecret ← getenv API_SECRET;
     if negb (truthy apiSecret) then
       mret (Failure 500 (Some "SERVER_ERROR") "Server configuration error" NoDetails)
     else
     now ← Date_now;
     let isValidSignature :=
       verifyRequest now signedRequest (default "" apiSecret) 60000 in
     if negb isValidSignature then
       mret (Failure 401 (Some "INVALID_SIGNATURE")
               "Request signature is invalid or expired" NoDetails)
     else
     match payload signedRequest with
     | JsNull => throw
     | JsObject p =>
     if negb (truthy (p !! "licenseKey"))
        || negb (truthy (p !! "browserFingerprint"))
        || negb (truthy (p !! "extensionVersion")) then
       mret (Failure 400 (Some "INVALID_PAYLOAD")
               "Missing license key or fingerprint" NoDetails)
     else
     let licenseKey := default "" (p !! "licenseKey") in
     let fingerprint :=
       {| df_browserFingerprint := default "" (p !! "browserFingerprint");
          df_hardwareFingerprint := p !! "hardwareFingerprint" |} in
     licenseLimit ← checkLicenseRateLimit licenseKey;
     if negb (success licenseLimit) then
       mret (Failure 429 (Some "LICENSE_RATE_LIMIT")
               "Too many validation requests for this license" NoDetails)
     else
     found ← license_findUnique_key licenseKey;
     match found with
     | None =>
         logValidation None "FAILED_INVALID_KEY" p ip None;;
         mret (Failure 404 (Some "INVALID_LICENSE") "License key not found" NoDetails)
     | Some (license_id, license) =>
     if isBanned license then
       logValidation (Some license_id) "FAILED_BANNED" p ip None;;
       mret (Failure 403 (Some "LICENSE_BANNED")
               (or_else (bannedReason license) "This license has been banned")
               (BannedAt (bannedAt license)))
     else
     now ← Date_now;
     if bool_decide (status license = EXPIRED) || expired_at now (expiresAt license) then
       logValidation (Some license_id) "FAILED_EXPIRED" p ip None;;
       mret (Failure 403 (Some "LICENSE_EXPIRED") "Your license has expired"
               (ExpiresAt (expiresAt license)))
     else
     deviceCheck ← checkDeviceBinding license_id fingerprint;
     early ←
       (if isFirstActivation deviceCheck then
          bound ← bindDevice license_id fingerprint
                    (Some (or_else (p !! "deviceName")
                             ("Chrome Extension v"
                                +:+ default "" (p !! "extensionVersion"))))
                    (Some ip);
          if negb bound then
            mret (Some (Failure 500 (Some "ACTIVATION_FAILED")
                          "Failed to activate license" NoDetails))
          else
            logValidation (Some license_id) "SUCCESS" p ip (Some "First activation");;
            mret None
        else if negb (isValid deviceCheck) then
          logValidation (Some license_id) "FAILED_DEVICE_MISMATCH" p ip None;;
          mret (Some (Failure 403 (Some "DEVICE_MISMATCH")
                        "This license is bound to another device"
                        (MismatchDetails
                           (or_else (boundDevice deviceCheck) "Unknown Device")
                           (canSwap deviceCheck)
                           (swapsRemaining deviceCheck))))
        else
          now ← Date_now;
          license_update license_id (set_lastValidated (Some now) (Some ip));;
          logValidation (Some license_id) "SUCCESS" p ip None;;
          mret None);
     match early with
     | Some response => mret response
     | None =>
     accessToken ← signAccessToken
       {| licenseId := Some license_id; userId_ := Some (userId license);
          email := Some (user_email license); iat := None; exp := None |};
     config ← webConfig_findFirst wc_createdAt;
     mret (Success (Validated accessToken license_id (status license)
                      (expiresAt license) (deviceName license)
                      (or_else (wc_version <$> config) "1.0.0")
                      (user_name license) (user_email license)))
     end end end end)
    (mret INTERNAL_ERROR).

(** *** POST /api/licenses/device-swap *)

Definition deviceSwap_POST (req : Request Body) : Async Response :=
  let ip := getClientIp (headers req) in
  try_catch
    (body ← req_json req;
     match parseSignedRequest body with
     | None =>
         mret (Failure 400 (Some "INVALID_REQUEST") "Missing required fields" NoDetails)
     | Some signedRequest =>
     apiSecret ← getenv API_SECRET;
     now ← Date_now;
     if negb (truthy apiSecret)
        || negb (verifyRequest now signedRequest (default "" apiSecret) 60000) then
       mret (Failure 401 (Some "INVALID_SIGNATURE") "Request signature is invalid" NoDetails)
     else
     match payload signedRequest with
     | JsNull => throw
     | JsObject p =>
     if negb (truthy (p !! "licenseKey"))
        || negb (truthy (p !! "newBrowserFingerprint")) then
       mret (Failure 400 (Some "INVALID_PAYLOAD")
               "Missing license key or new fingerprint" NoDetails)
     else
     let licenseKey := default "" (p !! "licenseKey") in
     rateLimit ← checkDeviceSwapRateLimit licenseKey;
     if negb (success rateLimit) then
       now ← Date_now;
       mret (Failure 429 (Some "DEVICE_SWAP_RATE_LIMIT")
               "Device swap can only be requested once per day"
               (RetryAfter (ceil_seconds (reset rateLimit - now)) rateLimit))
     else
     found ← license_findUnique_key licenseKey;
     match found with
     | None =>
         mret (Failure 404 (Some "INVALID_LICENSE") "License not found" NoDetails)
     | Some (license_id, license) =>
     if isBanned license || negb (bool_decide (status license = ACTIVE)) then
       mret (Failure 403 (Some "LICENSE_INACTIVE") "License is not active" NoDetails)
     else
     result ← requestDeviceSwap license_id
                {| df_browserFingerprint := default "" (p !! "newBrowserFingerprint");
                   df_hardwareFingerprint := p !! "newHardwareFingerprint" |}
                ip (p !! "reason");
     if negb (swap_success result) then
       mret (Failure 400 (Some "SWAP_FAILED") (default "" (swap_error result)) NoDetails)
     else
       mret (Success (Swapped (swapLogId result)))
     end end end)
    (mret INTERNAL_ERROR).

(** *** POST extension activation (no request signature) *)

(** [prisma.validationLog.groupBy({ by: ['browserFingerprint'],
      where: { licenseId } })] *)
Definition validationLog_groupBy_fingerprint (licenseId : string) : Async (list string) :=
  prisma (λ w, Some (remove_dups
                       (vl_browserFingerprint <$>
                          filter (λ e, vl_licenseId e = licenseId) (tbl_validationLog w)),
                     w)).

Definition extensionActivate_POST (req : Request Json) : Async Response :=
  let ip := getClientIp (headers req) in
  try_catch
    (rateLimit ← checkIpRateLimit ip;
     if negb (success rateLimit) then
       mret (Failure 429 None "Too many requests. Please try again later."
               (RateLimitHeaders rateLimit))
     else
     body ← req_json req;
     match ActivateSchema_safeParse body with
     | None =>
         mret (Failure 400 None "Invalid request. Please check license key format."
                 NoDetails)
     | Some parsed =>
     let licenseKey := ap_licenseKey parsed in
     let browserFingerprint_ := ap_browserFingerprint parsed in
     let hardwareFingerprint_ := ap_hardwareFingerprint parsed in
     found ← license_findUnique_key licenseKey;
     match found with
     | None =>
         mret (Failure 404 None "License not found. Please check your license key."
                 NoDetails)
     | Some (license_id, license) =>
     if isBanned license then
       mret (Failure 403 None "This license has been banned." NoDetails)
     else if bool_decide (status license = EXPIRED) then
       mret (Failure 403 None "This license has expired." NoDetails)
     else
     now ← Date_now;
     if expired_at now (expiresAt license) then
       license_update license_id (set_status EXPIRED);;
       mret (Failure 403 None "This license has expired." NoDetails)
     else
     deviceCount ← validationLog_groupBy_fingerprint license_id;
     let maxDevices :=
       if bool_decide (planType license = LIFETIME) then 3
       else if bool_decide (planType license = ANNUAL) then 2 else 1 in
     let isNewDevice := negb (bool_decide (browserFingerprint_ ∈ deviceCount)) in
     if isNewDevice && (Z.of_nat (length deviceCount) >=? maxDevices) then
       mret (Failure 403 None
               ("Device limit reached (" +:+ pretty maxDevices
                +:+ " devices). Please deactivate another device first.")
               NoDetails)
     else
     (if bool_decide (status license = INACTIVE) then
        license_update license_id (λ l,
          set_fingerprints (Some browserFingerprint_)
            (or_undefined hardwareFingerprint_)
            (set_status ACTIVE l))
      else mret tt);;
     validationLog_create
       {| vl_licenseId := license_id;
          vl_browserFingerprint := browserFingerprint_;
          vl_hardwareFingerprint := Some (or_else hardwareFingerprint_ "N/A");
          vl_ipAddress := ip;
          vl_userAgent := or_else (headers req "user-agent") "Chrome Extension";
          vl_result := "SUCCESS";
          vl_failureReason := None;
          vl_extensionVersion := "1.0.0" |};;
     accessToken ← signAccessToken
       {| licenseId := Some license_id; userId_ := Some (userId license);
          email := None; iat := None; exp := None |};
     refreshToken ← signRefreshToken
       {| licenseId := Some license_id; userId_ := Some (userId license);
          email := None; iat := None; exp := None |};
     mret (Success (ExtensionActivated accessToken refreshToken (planType license)
                      (expiresAt license) (user_email license) (user_name license)))
     end end)
    (mret (Failure 500 None "Server error. Please try again." NoDetails)).

(** *** GET configuration delivery *)

Definition configDeliveryLog_create (entry : ConfigDeliveryLog) : Async unit :=
  prisma (λ w, Some (tt, set_tbl_configDeliveryLog (tbl_configDeliveryLog w ++ [entry]) w)).

Definition config_GET (req : Request unit) : Async Response :=
  try_catch
    (match extractBearerToken (headers req "authorization") with
     | None => mret (Failure 401 None "Missing or invalid authorization header" NoDetails)
     | Some token =>
     if bool_decide (token = "") then
       mret (Failure 401 None "Missing or invalid authorization header" NoDetails)
     else
     decoded ← verifyJWT token;
     match decoded with
     | None => mret (Failure 401 None "Invalid token" NoDetails)
     | Some decoded =>
     if negb (truthy (licenseId decoded)) then
       mret (Failure 401 None "Invalid token" NoDetails)
     else
     let license_id := default "" (licenseId decoded) in
     limit ← checkLicenseRateLimit license_id;
     if negb (success limit) then
       mret (Failure 429 None "Rate limit exceeded" NoDetails)
     else
     license ← license_findUnique_id license_id;
     if match license with
        | None => true
        | Some l => isBanned l || negb (bool_decide (status l = ACTIVE))
        end then
       mret (Failure 403 None "License is no longer valid" NoDetails)
     else
     config ← webConfig_findFirst wc_publishedAt;
     match config with
     | None => mret (Failure 404 None "No active configuration found" NoDetails)
     | Some config =>
     let clientETag := headers req "if-none-match" in
     let serverETag := String.append (String.append (String (ascii_of_N 34) EmptyString)
                                        (wc_checksum config))
                                     (String (ascii_of_N 34) EmptyString) in
     if bool_decide (clientETag = Some serverETag) then
       mret (NotModified serverETag)
     else
     configDeliveryLog_create
       {| cd_licenseId := license_id;
          cd_configVersion := wc_version config;
          cd_extensionVersion := or_else (headers req "x-extension-version") "unknown" |};;
     mret (Success (ConfigDelivered config))
     end end end)
    (mret (Failure 500 None "Internal server error" NoDetails)).

(** *** GET /api/cron/keep-alive *)

(** The answers of the endpoint: 401, the report of a run (status 200) with
    its timestamp and the two counts, or 500. *)
Inductive CronResponse :=
| CronUnauthorized
| CronDone (timestamp : Z) (activeLicenses rateLimitsCleaned : nat)
| CronFailed.

(** [`Bearer ${secret}`]; a variable that is not set prints as
    [undefined]. *)
Definition bearer_of (secret : option string) : string :=
  "Bearer " +:+ default "undefined" secret.

(** [prisma.$queryRaw`SELECT 1 as ping`] *)
Definition ping : Async unit := prisma (λ w, Some (tt, w)).

(** [prisma.license.count({ where: { status: 'ACTIVE' } })] *)
Definition license_count_active : Async nat :=
  prisma (λ w, Some (size (filter (λ row, status row.2 = ACTIVE) (tbl_license w)), w)).

(** [prisma.rateLimit.deleteMany({ where: { resetAt: { lt: now } } })]; it
    returns the number of rows it deleted. *)
Definition rateLimit_deleteMany_before (now : Z) : Async nat :=
  prisma (λ w,
    Some (size (filter (λ row, resetAt row.2 < now) (tbl_rateLimit w)),
          set_tbl_rateLimit (filter (λ row, ¬ resetAt row.2 < now) (tbl_rateLimit w)) w)).

(** The route reads [process.env.CRON_SECRET]; it is a parameter here. *)
Definition keepAlive_GET (CRON_SECRET : option string) (req : Request unit)
    : Async CronResponse :=
  try_catch
    (let authHeader := headers req "authorization" in
     if negb (bool_decide (authHeader = Some (bearer_of CRON_SECRET))) then
       mret CronUnauthorized
     else
       ping;;
       licenseCount ← license_count_active;
       now ← Date_now;
       deletedRateLimits ← rateLimit_deleteMany_before now;
       timestamp ← Date_now;
       mret (CronDone timestamp licenseCount deletedRateLimits))
    (mret CronFailed).

(** ** Logger (lib/logger) *)

(** A value handed to the logger as context: something that is not an
    object, or an object, given by its own enumerable properties (which is
    all that [{ ...obj }] and [for ... in] see of it). *)
#[warnings="-register-all"]
Inductive LogValue :=
| LogLeaf (v : JsPrim)
| LogObject (fields : gmap string LogValue).

Definition redactFields : list string :=
  ["licenseKey"; "apiKey"; "password"; "token"; "accessToken"; "refreshToken";
   "signature"; "secret"].

Definition REDACTED : LogValue := LogLeaf (JStr "[REDACTED]").

(** [Logger.redact]. The two loops of the source are one pass over the
    fields here: a field named in [redactFields] is overwritten, and is a
    string by the time the second loop looks at it; any other field is
    replaced by its redaction if it is an object, and kept if it is not. *)
Fixpoint redact (obj : LogValue) : LogValue :=
  match obj with
  | LogLeaf v => LogLeaf v
  | LogObject fields =>
      LogObject
        (map_imap (λ key value,
                     Some (if bool_decide (key ∈ redactFields) then REDACTED
                           else redact value))
                  fields)
  end.

(** ** Reasoning about asynchronous computations

    [wp m Q E w]: run from [w], [m] returns a value and a world that satisfy
    [Q], or throws in a world that satisfies [E]. *)

Definition wp {A} (m : Async A) (Q : A → World → Prop) (E : World → Prop)
    (w : World) : Prop :=
  match m w with
  | Ok a w' => Q a w'
  | Throw w' => E w'
  end.


(** What no route changes: the clock, the configuration and the published
    configurations; the fault schedule is only consumed. *)
Record frame (w w' : World) : Prop := {
  frame_clock : clock w' = clock w;
  frame_faults : faults w' `suffix_of` faults w;
  frame_api : API_SECRET w' = API_SECRET w;
  frame_jwt : JWT_SECRET w' = JWT_SECRET w;
  frame_webConfig : tbl_webConfig w' = tbl_webConfig w
}.


(** What the rate limiter leaves alone on top of that. *)
Record same_tables (w w' : World) : Prop := {
  same_license : tbl_license w' = tbl_license w;
  same_validationLog : tbl_validationLog w' = tbl_validationLog w;
  same_deviceSwapLog : tbl_deviceSwapLog w' = tbl_deviceSwapLog w;
  same_configDeliveryLog : tbl_configDeliveryLog w' = tbl_configDeliveryLog w
}.


Definition bump (e : RateLimitEntry) : RateLimitEntry :=
  {| count := count e + 1; resetAt := resetAt e |}.


Definition result_of_entry (config : RateLimitConfig) (e : RateLimitEntry)
    : RateLimitResult :=
  {| success := count e <=? limit config; r_limit := limit config;
     remaining := Z.max 0 (limit config - count e); reset := resetAt e |}.

(** The entry a call counts on when the cache holds nothing live: a new
    window, or a live row of the durable store. *)
Definition refilled (config : RateLimitConfig) (now : Z)
    (db : option RateLimitEntry) (e : RateLimitEntry) : Prop :=
  e = {| count := 1; resetAt := now + windowMs config |}
  ∨ ∃ d, db = Some d ∧ now < resetAt d ∧ e = bump d.

(** The entry the cache holds after a call, from the one it held before. *)
Definition next_entry (config : RateLimitConfig) (now : Z)
    (cached db : option RateLimitEntry) (e : RateLimitEntry) : Prop :=
  match cached with
  | Some c => if resetAt c <? now then refilled config now db e else e = bump c
  | None => refilled config now db e
  end.

(** The part of the world the rate limiter works on. *)
Definition rate_step (k : string) (e : RateLimitEntry) (w w' : World) : Prop :=
  rateLimitCache w' = <[k := e]> (rateLimitCache w)
  ∧ (tbl_rateLimit w' = tbl_rateLimit w
     ∨ ∃ c, tbl_rateLimit w'
            = <[k := {| count := c; resetAt := resetAt e |}]> (tbl_rateLimit w))
  ∧ frame w w' ∧ same_tables w w'.

(** A freshly started instance over an empty database. *)
Definition empty_world : World :=
  {| clock := 0; faults := []; API_SECRET := Some "api-secret";
     JWT_SECRET := "jwt-secret"; rateLimitCache := ∅; tbl_rateLimit := ∅;
     tbl_license := ∅; tbl_validationLog := []; tbl_deviceSwapLog := [];
     tbl_webConfig := []; tbl_configDeliveryLog := [] |}.

(** One call of [checkRateLimit] at a given time, the durable store failing
    as the given schedule says. *)
Definition call_at (identifier prefix : string) (config : RateLimitConfig)
    (c : Z * list bool) (w : World) : outcome RateLimitResult :=
  checkRateLimit identifier config prefix (set_faults c.2 (set_clock c.1 w)).

Fixpoint calls (identifier prefix : string) (config : RateLimitConfig)
    (schedule : list (Z * list bool)) (w : World)
    : list (option RateLimitResult) * World :=
  match schedule with
  | [] => ([], w)
  | c :: rest =>
      let o := call_at identifier prefix config c w in
      let '(rs, w') := calls identifier prefix config rest (world_of o) in
      (match o with Ok r _ => Some r | Throw _ => None end :: rs, w')
  end.

(** The fixed-window property for one configuration: from a state without
    an entry for the identifier, of [limit + 1] calls placed before the
    window opened by the first one has elapsed, exactly the first [limit]
    succeed, and a call after the window has elapsed succeeds with
    [limit - 1] remaining, in a window of its own. *)
Definition fixed_window (config : RateLimitConfig) : Prop :=
  ∀ (identifier prefix : string) (w : World)
    (first : Z * list bool) (more : list (Z * list bool)) (after : Z * list bool),
    let k := prefix +:+ ":" +:+ identifier in
    rateLimitCache w !! k = None →
    tbl_rateLimit w !! k = None →
    Z.of_nat (length (first :: more)) = limit config + 1 →
    Forall (λ c, c.1 ≤ first.1 + windowMs config) more →
    first.1 + windowMs config < after.1 →
    let '(rs, w') := calls identifier prefix config (first :: more) w in
    (∀ (i : nat) o, rs !! i = Some o →
        ∃ r, o = Some r ∧ success r = bool_decide (Z.of_nat i < limit config))
    ∧ ∃ r w'', call_at identifier prefix config after w' = Ok r w''
               ∧ success r = true ∧ remaining r = limit config - 1
               ∧ reset r = after.1 + windowMs config.

(** The cache holds the entry of the window that ends at [R], and the
    durable store holds nothing for the key that outlives it. *)
Definition in_window (k : string) (R n : Z) (w : World) : Prop :=
  rateLimitCache w !! k = Some {| count := n; resetAt := R |}
  ∧ ∀ d, tbl_rateLimit w !! k = Some d → resetAt d ≤ R.

(** The token [SignJWT] builds from a claim set at a given time. *)
Definition signed_token (secret : string) (claims : gmap string ClaimValue)
    (now lifetime : Z) : JWT :=
  let claims :=
    <["exp" := CNum (now / 1000 + lifetime)]>
      (<["aud" := CStr JWT_AUDIENCE]>
         (<["iss" := CStr JWT_ISSUER]>
            (<["iat" := CNum (now / 1000)]> claims))) in
  {| jwt_alg := "HS256"; jwt_claims := claims;
     jwt_signature := HS256 secret "HS256" claims |}.

(** The license key a signed request names. *)
Definition signed_licenseKey (req : Request Body) : option string :=
  body ← json req;
  request ← parseSignedRequest body;
  match payload request with
  | JsObject f => f !! "licenseKey"
  | JsNull => None
  end.

(** The license key an unsigned activation request names. *)
Definition plain_licenseKey (req : Request Json) : option string :=
  body ← json req;
  match body with
  | JsObject f => f !! "licenseKey"
  | JsNull => None
  end.

(** The license id in the bearer token of a request. *)
Definition bearer_licenseId (req : Request unit) : option string :=
  token ← extractBearerToken (headers req "authorization");
  jwt ← parse_compact token;
  claim_string (jwt_claims jwt) "licenseId".

(** The endpoint answers, and not with a success. *)
Definition rejects (m : Async Response) (w : World) : Prop :=
  ∃ r w', m w = Ok r w' ∧ is_success r = false.

(** ** The activation quota *)

Definition within_quota (l : License) : Prop :=
  activationCount l ≤ maxActivations l.

(** Within the quota, with room for the first activation while no device is
    bound. *)
Definition bindable (l : License) : Prop :=
  within_quota l
  ∧ (truthy (browserFingerprint l) = false →
     activationCount l < maxActivations l).

Definition all_licenses (P : License → Prop) (w : World) : Prop :=
  ∀ i l, tbl_license w !! i = Some l → P l.

(** What one request does to the license table: nothing, or it rewrites one
    row, either keeping its activation count (and not unbinding it), or
    binding a device and counting one activation, after the quota check or
    on a row without a bound device. *)
Inductive license_effect (T T' : gmap string License) : Prop :=
| effect_none : T' = T → license_effect T T'
| effect_update (i : string) (l l' : License) :
    T !! i = Some l →
    T' = <[i := l']> T →
    maxActivations l' = maxActivations l →
    (activationCount l' = activationCount l
     ∧ (truthy (browserFingerprint l) = true →
        truthy (browserFingerprint l') = true))
    ∨ (activationCount l' = activationCount l + 1
       ∧ truthy (browserFingerprint l') = true
       ∧ (activationCount l < maxActivations l
          ∨ truthy (browserFingerprint l) = false)) →
    license_effect T T'.

(** The client operations that write licenses. *)
Inductive Operation :=
| Activate (req : Request Body)
| Validate (req : Request Body)
| DeviceSwap (req : Request Body)
| ExtensionActivate (req : Request Json).

Definition run_operation (o : Operation) : Async Response :=
  match o with
  | Activate req => activate_POST req
  | Validate req => validate_POST req
  | DeviceSwap req => deviceSwap_POST req
  | ExtensionActivate req => extensionActivate_POST req
  end.

(** A request, the time it arrives and what the store does during it. *)
Record Call := {
  operation : Operation;
  at_time : Z;
  store_faults : list bool
}.

(** One request, handled from its first line to its answer before anything
    else touches the world. *)
Definition step (w : World) (c : Call) : World :=
  world_of (run_operation (operation c)
              (set_faults (store_faults c) (set_clock (at_time c) w))).

Definition run (calls : list Call) (w : World) : World := foldl step w calls.

(** Every operation keeps every license within its quota. *)
Definition quota_kept_by_every_operation : Prop :=
  ∀ (w : World) (c : Call),
    all_licenses within_quota w → all_licenses within_quota (step w c).

(** The request passes every check of the validation route in front of the
    expiry check: both rate limits (leaving the world [w2]), the envelope,
    the signature and the payload [p]; the store answers, and the license
    the payload names is the row [i], [l], which is not banned. *)
Definition passes_validate_gates (req : Request Body) (w w2 : World)
    (p : gmap string string) (i : string) (l : License) : Prop :=
  ∃ body request r1 w1 r2 k,
    checkIpRateLimit (getClientIp (headers req)) w = Ok r1 w1
    ∧ success r1 = true
    ∧ json req = Some body
    ∧ parseSignedRequest body = Some request
    ∧ truthy (API_SECRET w) = true
    ∧ verifyRequest (clock w) request (default "" (API_SECRET w)) 60000 = true
    ∧ payload request = JsObject p
    ∧ p !! "licenseKey" = Some k
    ∧ truthy (p !! "licenseKey") = true
    ∧ truthy (p !! "browserFingerprint") = true
    ∧ truthy (p !! "extensionVersion") = true
    ∧ checkLicenseRateLimit k w1 = Ok r2 w2
    ∧ success r2 = true
    ∧ faults w = []
    ∧ find_by_key (tbl_license w) k = Some (i, l)
    ∧ isBanned l = false.

(** ** The rate limiter as a function of its state *)

(** The world after one call to the store: the fault schedule has moved on
    by one entry. *)
Definition after_store_call (w : World) : World :=
  match faults w with
  | _ :: fs => set_faults fs w
  | [] => w
  end.

(** The window the cache holds for a key, if it has not elapsed. *)
Definition cached_window (k : string) (w : World) : option RateLimitEntry :=
  match rateLimitCache w !! k with
  | Some c => if resetAt c <? clock w then None else Some c
  | None => None
  end.

(** The window the durable store yields for a key: none when the read
    fails, or when the row does not end after the present instant. *)
Definition stored_window (k : string) (w : World) : option RateLimitEntry :=
  match faults w with
  | true :: _ => None
  | _ =>
      match tbl_rateLimit w !! k with
      | Some d => if resetAt d >? clock w then Some d else None
      | None => None
      end
  end.

(** The entry a call of [checkRateLimit] counts on: the cached window, else
    the stored one, else a new one. *)
Definition window_entry (config : RateLimitConfig) (k : string) (w : World)
    : RateLimitEntry :=
  match cached_window k w with
  | Some c => c
  | None =>
      match stored_window k w with
      | Some d => d
      | None => {| count := 0; resetAt := clock w + windowMs config |}
      end
  end.

(** What the keep-alive run may do to a world: it consumes store calls and
    at most drops the rate-limit rows that have elapsed. *)
Definition swept (w w' : World) : Prop :=
  frame w w' ∧ same_tables w w'
  ∧ rateLimitCache w' = rateLimitCache w
  ∧ (tbl_rateLimit w' = tbl_rateLimit w
     ∨ tbl_rateLimit w'
       = filter (λ row, ¬ resetAt row.2 < clock w) (tbl_rateLimit w)).

(** ** Requests on the wire *)

(** The JSON body a client sends for an envelope. *)
Definition body_of_request (r : SignedRequest) : Body :=
  BodyObject (Some (payload r)) (Some (JNum (timestamp r)))
             (Some (JStr (signature r))).

(** The same envelope with another signature string. *)
Definition with_signature (s : string) (r : SignedRequest) : SignedRequest :=
  {| payload := payload r; timestamp := timestamp r; signature := s |}.

(** ** Logged values *)

(** The value found in a logged value by following a path of keys. *)
Fixpoint lookup_path (path : list string) (v : LogValue) : option LogValue :=
  match path with
  | [] => Some v
  | key :: rest =>
      match v with
      | LogObject fields => fields !! key ≫= lookup_path rest
      | LogLeaf _ => None
      end
  end.

(** The nesting depth of a logged value. *)
Fixpoint depth (v : LogValue) : nat :=
  match v with
  | LogLeaf _ => 0
  | LogObject fields => S (map_fold (λ _ v' acc, Nat.max (depth v') acc) 0%nat fields)
  end.

(** ** Answers and what they leave behind *)

Definition http_status (r : Response) : Z :=
  match r with
  | Failure s _ _ _ => s
  | Success _ => 200
  | NotModified _ => 304
  end.

(** An answer with a status in the 4xx range. *)
Definition is_refusal (r : Response) : bool :=
  (400 <=? http_status r) && (http_status r <? 500).

(** What a refusal of the validation route leaves as it was: licenses and
    swap logs, and the validation log too unless the status is 403. *)
Definition refusal_keeps (w : World) (r : Response) (w' : World) : Prop :=
  is_refusal r = true →
  tbl_license w' = tbl_license w
  ∧ tbl_deviceSwapLog w' = tbl_deviceSwapLog w
  ∧ (http_status r ≠ 403 → tbl_validationLog w' = tbl_validationLog w).

(** A 429 answer that tells when to retry carries the refused result of the
    limiter and a delay that is not negative. *)
Definition retry_after_sound (r : Response) : Prop :=
  ∀ code message seconds result,
    r = Failure 429 code message (RetryAfter seconds result) →
    0 ≤ seconds ∧ success result = false ∧ remaining result = 0.

(** ** Gates of the activation route *)

(** The request passes every check of the activation route in front of the
    status check: the rate limit by address (leaving the world [w1]), the
    envelope, the signature and the schema of the payload; the store
    answers, and the license the payload names is the row [i], [l], which is
    not banned. *)
Definition passes_activate_gates (req : Request Body) (w w1 : World)
    (parsed : ActivatePayload) (i : string) (l : License) : Prop :=
  ∃ body request r1,
    checkIpRateLimit (getClientIp (headers req)) w = Ok r1 w1
    ∧ success r1 = true
    ∧ json req = Some body
    ∧ parseSignedRequest body = Some request
    ∧ truthy (API_SECRET w) = true
    ∧ verifyRequest (clock w) request (default "" (API_SECRET w)) 60000 = true
    ∧ ActivatePayloadSchema_safeParse (payload request) = Some parsed
    ∧ faults w = []
    ∧ find_by_key (tbl_license w) (ap_licenseKey parsed) = Some (i, l)
    ∧ isBanned l = false.

(** The access token a route issues for a license at a given time. *)
Definition access_token_for (w : World) (i : string) (l : License) : string :=
  compact (signed_token (JWT_SECRET w)
             (payload_claims {| licenseId := Some i; userId_ := Some (userId l);
                                email := Some (user_email l);
                                iat := None; exp := None |})
             (clock w) 3600).

(** ** Devices of a license *)

(** The distinct fingerprints the validation log holds for a license: what
    the extension activation route counts with [groupBy]. *)
Definition devices_of (licenseId : string) (log : list ValidationLog) : list string :=
  remove_dups (vl_browserFingerprint <$> filter (λ e, vl_licenseId e = licenseId) log).

(** The device limit of a plan, as that route computes it. *)
Definition maxDevices (plan : PlanType) : Z :=
  if bool_decide (plan = LIFETIME) then 3
  else if bool_decide (plan = ANNUAL) then 2 else 1.

(** Every license has logged at most as many distinct fingerprints as its
    plan allows. *)
Definition within_device_limit (w : World) : Prop :=
  ∀ i l, tbl_license w !! i = Some l →
         Z.of_nat (length (devices_of i (tbl_validationLog w))) ≤ maxDevices (planType l).

(** ** The license of a bearer token *)

(** The [licenseId] claim of the token in the [Authorization] header of a
    request, whether or not the token verifies. *)
Definition bearer_license (req : Request unit) : option string :=
  token ← extractBearerToken (headers req "authorization");
  jwt ← parse_compact token;
  claim_string (jwt_claims jwt) "licenseId".

(** The newest of the active published configurations. *)
Definition newest_active (c : WebConfig) (w : World) : Prop :=
  c ∈ tbl_webConfig w ∧ wc_isActive c = true
  ∧ ∀ c', c' ∈ tbl_webConfig w → wc_isActive c' = true →
          wc_publishedAt c' ≤ wc_publishedAt c.

(** ** Sample data

    A one-license database and signed requests against it, for running the
    routes on concrete inputs. *)

Definition sample_key : string := "SH-0001-0203-0405-0607".

Definition sample_license (st : LicenseStatus) (bound : option string)
    (activations quota : Z) (expires : option Z) : License :=
  {| key := sample_key; userId := "user-1"; user_email := "user@example.org";
     user_name := "User"; planType := MONTHLY; status := st; isBanned := false;
     bannedReason := None; bannedAt := None; browserFingerprint := bound;
     hardwareFingerprint := None; deviceName := None;
     activationCount := activations; maxActivations := quota;
     expiresAt := expires; createdAt := 0; lastValidatedAt := None;
     lastValidatedIp := None |}.

Definition sample_world (l : License) (now : Z) : World :=
  {| clock := now; faults := []; API_SECRET := Some "api-secret";
     JWT_SECRET := "jwt-secret"; rateLimitCache := ∅; tbl_rateLimit := ∅;
     tbl_license := {[ "lic-1" := l ]}; tbl_validationLog := [];
     tbl_deviceSwapLog := []; tbl_webConfig := []; tbl_configDeliveryLog := [] |}.

(** The body a client holding the API secret sends at time [now]. *)
Definition signed_body (now : Z) (p : gmap string string) : Body :=
  let request := signRequest now (JsObject p) "api-secret" in
  BodyObject (Some (payload request)) (Some (JNum (timestamp request)))
             (Some (JStr (signature request))).

Definition signed_call (now : Z) (p : gmap string string) : Request Body :=
  {| headers := λ _, None; json := Some (signed_body now p) |}.

Definition validate_payload (fingerprint : string) : gmap string string :=
  <["licenseKey" := sample_key]>
    (<["browserFingerprint" := fingerprint]>
       (<["extensionVersion" := "1.0.0"]> ∅)).

Definition activate_payload (fingerprint : string) : gmap string string :=
  <["licenseKey" := sample_key]> (<["browserFingerprint" := fingerprint]> ∅).

Definition sample_banned_license : License :=
  {| key := sample_key; userId := "user-1"; user_email := "user@example.org";
     user_name := "User"; planType := MONTHLY; status := ACTIVE; isBanned := true;
     bannedReason := Some "Payment refunded"; bannedAt := Some 10;
     browserFingerprint := Some "device-A-0001"; hardwareFingerprint := None;
     deviceName := None; activationCount := 1; maxActivations := 2;
     expiresAt := None; createdAt := 0; lastValidatedAt := None;
     lastValidatedIp := None |}.

(** A world whose durable store holds a window for the key [login:alice]
    that the cache of the instance does not know. *)
Definition cold_start_world : World :=
  set_tbl_rateLimit {[ "login:alice" := {| count := 3; resetAt := 5000 |} ]}
    (sample_world (sample_license ACTIVE None 0 1 None) 1000).

(** A world in which the address [unknown] has used up its window. *)
Definition exhausted_world : World :=
  set_rateLimitCache {[ "ip:unknown" := {| count := 100; resetAt := 5000 |} ]}
    (sample_world (sample_license ACTIVE (Some "device-A-0001") 1 2 None) 1000).

(** A request that carries nothing but an [Authorization] header. *)
Definition authorized_call (authorization : string) : Request unit :=
  {| headers := λ name, if bool_decide (name = "authorization")
                        then Some authorization else None;
     json := None |}.

(** The unsigned body of an extension activation. *)
Definition extension_call (fingerprint : string) : Request Json :=
  {| headers := λ _, None; json := Some (JsObject (activate_payload fingerprint)) |}.

Definition sample_config : WebConfig :=
  {| wc_version := "2.0.0"; wc_isActive := true; wc_createdAt := 10;
     wc_publishedAt := 20; wc_checksum := "abc" |}.

(** The sample world with one published configuration. *)
Definition sample_config_world : World :=
  {| clock := 1000; faults := []; API_SECRET := Some "api-secret";
     JWT_SECRET := "jwt-secret"; rateLimitCache := ∅; tbl_rateLimit := ∅;
     tbl_license :=
       {[ "lic-1" := sample_license ACTIVE (Some "device-A-0001") 1 2 None ]};
     tbl_validationLog := []; tbl_deviceSwapLog := [];
     tbl_webConfig := [sample_config]; tbl_configDeliveryLog := [] |}.

(** A nested log record with a password in it. *)
Definition sample_log_record : LogValue :=
  LogObject {[ "user" := LogObject (<["name" := LogLeaf (JStr "User")]>
                                      {[ "password" := LogLeaf (JStr "hunter2") ]}) ]}.

(** * Properties *)

(** ** License keys *)




(** ** Request authenticator *)

Lemma timingSafeEqual_refl (a : list N) : timingSafeEqual a a = Some true.
Proof.
  unfold timingSafeEqual.
  rewrite bool_decide_eq_true_2 by reflexivity.
  by rewrite bool_decide_eq_true_2.
Qed.

Lemma verifyRequest_fresh (now : Z) (request : SignedRequest) (apiSecret : string)
    (maxAge : Z) :
  0 ≤ now - timestamp request ≤ maxAge →
  verifyRequest now request apiSecret maxAge
  = match timingSafeEqual
            (Buffer_from_hex (signature request))
            (Buffer_from_hex
               (hmac_sha256_hex apiSecret
                  (JSON_stringify (payload request) (timestamp request)))) with
    | Some b => b
    | None => false
    end.
Proof.
  intros [Hlo Hhi]. unfold verifyRequest.
  replace (now - timestamp request >? maxAge) with false by lia.
  replace (now - timestamp request <? 0) with false by lia.
  reflexivity.
Qed.

Lemma verifyRequest_stale (now : Z) (request : SignedRequest) (apiSecret : string)
    (maxAge : Z) :
  now < timestamp request ∨ now - timestamp request > maxAge →
  verifyRequest now request apiSecret maxAge = false.
Proof.
  intros H. unfold verifyRequest.
  destruct (Z.gtb_spec (now - timestamp request) maxAge) as [Hgt|Hle]; [done|].
  destruct (Z.ltb_spec (now - timestamp request) 0) as [Hlt|Hge]; [done|].
  lia.
Qed.

(** C4: the envelope [signRequest] builds verifies under the same secret at
    the same instant (for a window [maxAge] that is not negative), and
    [verifyRequest] answers [false] for every envelope whose timestamp lies
    in the future or more than [maxAge] milliseconds in the past, whatever
    its signature. *)
Theorem sign_verify_roundtrip_and_replay_window
    (now : Z) (p : Json) (apiSecret : string) (maxAge : Z) :
  (0 ≤ maxAge →
   verifyRequest now (signRequest now p apiSecret) apiSecret maxAge = true)
  ∧ (∀ request : SignedRequest,
       now < timestamp request ∨ now - timestamp request > maxAge →
       verifyRequest now request apiSecret maxAge = false).
Proof.
  split.
  - intros Hage. rewrite verifyRequest_fresh by (simpl; lia).
    simpl. by rewrite timingSafeEqual_refl.
  - intros request. apply verifyRequest_stale.
Qed.

(** ** Rules for asynchronous computations *)

Lemma wp_ret {A} (a : A) Q E w : Q a w → wp (mret a) Q E w.
Proof. done. Qed.

Lemma wp_throw {A} (Q : A → World → Prop) E w : E w → wp throw Q E w.
Proof. done. Qed.

Lemma wp_bind {A B} (m : Async A) (f : A → Async B) Q E w :
  wp m (λ a w', wp (f a) Q E w') E w → wp (m ≫= f) Q E w.
Proof.
  unfold wp, mbind, Async_bind. by destruct (m w).
Qed.

Lemma wp_try_catch {A} (body handler : Async A) Q E w :
  wp body Q (λ w', wp handler Q E w') w → wp (try_catch body handler) Q E w.
Proof.
  unfold wp, try_catch. by destruct (body w).
Qed.

Lemma wp_mono {A} (m : Async A) (Q Q' : A → World → Prop) (E E' : World → Prop) w :
  wp m Q E w →
  (∀ a w', Q a w' → Q' a w') →
  (∀ w', E w' → E' w') →
  wp m Q' E' w.
Proof.
  unfold wp. destruct (m w); eauto.
Qed.

Lemma wp_Date_now Q E w : Q (clock w) w → wp Date_now Q E w.
Proof. done. Qed.

Lemma wp_getenv {A} (f : World → A) Q E w : Q (f w) w → wp (getenv f) Q E w.
Proof. done. Qed.

Lemma set_faults_same w : set_faults (faults w) w = w.
Proof. by destruct w. Qed.

(** A database call runs in the world with some suffix of the fault
    schedule left, or throws there. *)
Lemma wp_prisma {A} (op : World → option (A * World)) Q E w :
  (∀ fs, fs `suffix_of` faults w →
         E (set_faults fs w)
         ∧ match op (set_faults fs w) with
           | Some (a, w') => Q a w'
           | None => True
           end) →
  wp (prisma op) Q E w.
Proof.
  intros H. unfold wp, prisma.
  destruct (faults w) as [|[] fs] eqn:Hf.
  - destruct (H [] ltac:(done)) as [HE HQ].
    rewrite <- Hf, set_faults_same in HE, HQ.
    by destruct (op w) as [[a w']|].
  - destruct (H fs) as [HE _]; [by apply suffix_cons_r|done].
  - destruct (H fs) as [HE HQ]; [by apply suffix_cons_r|].
    by destruct (op (set_faults fs w)) as [[a w']|].
Qed.

(** Without pending faults a database call just runs. *)
Lemma wp_prisma_ok {A} (op : World → option (A * World)) Q E w :
  faults w = [] →
  match op w with
  | Some (a, w') => Q a w'
  | None => E w
  end →
  wp (prisma op) Q E w.
Proof.
  intros Hf H. unfold wp, prisma. rewrite Hf.
  by destruct (op w) as [[a w']|].
Qed.

Lemma wp_returns {A} (m : Async A) Q w :
  wp m Q (λ _, False) w → ∃ a w', m w = Ok a w' ∧ Q a w'.
Proof.
  unfold wp. destruct (m w) as [a w'|w']; [eauto|done].
Qed.

Lemma wp_of_eq {A} (m : Async A) (Q : A → World → Prop) E w a w' :
  m w = Ok a w' → Q a w' → wp m Q E w.
Proof. unfold wp. by intros ->. Qed.

Lemma wp_run {A} (m : Async A) (Q : A → World → Prop) E w a w' :
  wp m Q E w → m w = Ok a w' → Q a w'.
Proof. unfold wp. intros H Hrun. by rewrite Hrun in H. Qed.

Lemma wp_world_of {A} (m : Async A) (P : World → Prop) (w : World) :
  wp m (λ _ w', P w') (λ _, False) w → P (world_of (m w)).
Proof. unfold wp. by destruct (m w). Qed.

Lemma wp_cache_get (k : string) Q E w :
  Q (rateLimitCache w !! k) w → wp (cache_get k) Q E w.
Proof. done. Qed.

Lemma wp_cache_set (k : string) (e : RateLimitEntry) Q E w :
  Q tt (set_rateLimitCache (<[k := e]> (rateLimitCache w)) w) →
  wp (cache_set k e) Q E w.
Proof. done. Qed.

#[global] Opaque wp.

Lemma frame_refl w : frame w w.
Proof. by split. Qed.

Lemma frame_trans w1 w2 w3 : frame w1 w2 → frame w2 w3 → frame w1 w3.
Proof.
  intros [] []. split; try congruence. by etrans.
Qed.

Lemma same_tables_refl w : same_tables w w.
Proof. by split. Qed.

Lemma same_tables_trans w1 w2 w3 :
  same_tables w1 w2 → same_tables w2 w3 → same_tables w1 w3.
Proof. intros [] []. split; congruence. Qed.

Lemma frame_no_faults w w' : frame w w' → faults w = [] → faults w' = [].
Proof.
  intros [_ Hs _ _ _] Hf. rewrite Hf in Hs. by apply suffix_nil_inv.
Qed.

Lemma frame_set_faults w fs : fs `suffix_of` faults w → frame w (set_faults fs w).
Proof. by split. Qed.

(** ** Rate limiter *)

Lemma getFromSupabase_spec (k : string) (w : World) :
  wp (getFromSupabase k)
     (λ r w', (∃ fs, fs `suffix_of` faults w ∧ w' = set_faults fs w)
              ∧ (r = None
                 ∨ ∃ d, tbl_rateLimit w !! k = Some d ∧ ¬ resetAt d < clock w
                        ∧ r = Some d))
     (λ _, False) w.
Proof.
  unfold getFromSupabase.
  apply wp_try_catch, wp_bind, wp_prisma. intros fs Hfs. split.
  - apply wp_ret. split; [eauto|by left].
  - simpl. apply wp_bind, wp_Date_now. simpl.
    destruct (tbl_rateLimit w !! k) as [d|] eqn:Hd.
    + destruct (Z.ltb_spec (resetAt d) (clock w)).
      * apply wp_ret. split; [eauto|by left].
      * apply wp_ret. split; [eauto|]. right. exists d.
        repeat split; [lia|by destruct d].
    + apply wp_ret. split; [eauto|by left].
Qed.

Lemma saveToSupabase_spec (k : string) (e : RateLimitEntry) (w : World) :
  wp (saveToSupabase k e)
     (λ _ w', ∃ fs, fs `suffix_of` faults w
                    ∧ (w' = set_faults fs w
                       ∨ w' = set_tbl_rateLimit (<[k := e]> (tbl_rateLimit w))
                                (set_faults fs w)))
     (λ _, False) w.
Proof.
  unfold saveToSupabase.
  apply wp_try_catch, wp_prisma. intros fs Hfs. split.
  - apply wp_ret. eauto.
  - simpl. eauto.
Qed.

Lemma count_and_store (k : string) (config : RateLimitConfig)
    (entry : RateLimitEntry) (w0 w : World) :
  rateLimitCache w = rateLimitCache w0
  ∨ (∃ e0, resetAt e0 = resetAt entry
           ∧ rateLimitCache w = <[k := e0]> (rateLimitCache w0)) →
  tbl_rateLimit w = tbl_rateLimit w0
  ∨ (∃ c, tbl_rateLimit w
          = <[k := {| count := c; resetAt := resetAt entry |}]> (tbl_rateLimit w0)) →
  frame w0 w → same_tables w0 w →
  wp (cache_set k (bump entry);; saveToSupabase k (bump entry);;
      mret (result_of_entry config (bump entry)))
     (λ r w', r = result_of_entry config (bump entry)
              ∧ rate_step k (bump entry) w0 w')
     (λ _, False) w.
Proof.
  intros Hcache Htbl Hframe Hsame.
  apply wp_bind, wp_cache_set, wp_bind.
  eapply wp_mono; [apply saveToSupabase_spec| |done].
  intros [] w' (fs & Hfs & Hw'). apply wp_ret. split; [done|].
  assert (rateLimitCache w' = <[k := bump entry]> (rateLimitCache w0)) as Hc.
  { destruct Hw' as [-> | ->]; simpl;
      (destruct Hcache as [-> | (e0 & _ & ->)]; [done|by rewrite insert_insert_eq]). }
  assert (frame w0 w' ∧ same_tables w0 w') as [Hf' Hs'].
  { destruct Hframe, Hsame.
    destruct Hw' as [-> | ->]; simpl; (split; split; simpl; try done; by etrans). }
  unfold rate_step. split_and!; [done| |done|done].
  destruct Hw' as [-> | ->]; simpl; [done|].
  right. exists (count entry + 1).
  destruct Htbl as [-> | (c & ->)]; [done|by rewrite insert_insert_eq].
Qed.

Lemma new_window_then_count (k : string) (config : RateLimitConfig) (w : World)
    (fs : list bool) :
  fs `suffix_of` faults w →
  let e := {| count := 0; resetAt := clock w + windowMs config |} in
  let e1 := {| count := 1; resetAt := clock w + windowMs config |} in
  wp (cache_set k e;; saveToSupabase k e;; mret e)
     (λ entry w1,
        wp (cache_set k (bump entry);; saveToSupabase k (bump entry);;
            mret (result_of_entry config (bump entry)))
           (λ r w', r = result_of_entry config e1 ∧ rate_step k e1 w w')
           (λ _, False) w1)
     (λ _, False) (set_faults fs w).
Proof.
  intros Hfs e e1.
  apply wp_bind, wp_cache_set, wp_bind.
  eapply wp_mono; [apply saveToSupabase_spec| |done].
  intros [] w1 (fs1 & Hfs1 & Hw1). apply wp_ret.
  simpl in Hfs1.
  change e1 with (bump e).
  apply count_and_store.
  - right. exists e. split; [done|].
    by destruct Hw1 as [-> | ->].
  - destruct Hw1 as [-> | ->]; simpl; [by left|].
    right. by exists 0.
  - destruct Hw1 as [-> | ->]; split; simpl; try done; by etrans.
  - destruct Hw1 as [-> | ->]; split; simpl; done.
Qed.

Lemma db_entry_then_count (k : string) (config : RateLimitConfig) (w : World)
    (fs : list bool) (d : RateLimitEntry) :
  fs `suffix_of` faults w →
  wp (cache_set k d;; mret d)
     (λ entry w1,
        wp (cache_set k (bump entry);; saveToSupabase k (bump entry);;
            mret (result_of_entry config (bump entry)))
           (λ r w', r = result_of_entry config (bump d) ∧ rate_step k (bump d) w w')
           (λ _, False) w1)
     (λ _, False) (set_faults fs w).
Proof.
  intros Hfs.
  apply wp_bind, wp_cache_set, wp_ret.
  apply count_and_store.
  - right. by exists d.
  - by left.
  - by split.
  - by split.
Qed.

(** The periodic sweep only drops entries whose window has elapsed, which
    [checkRateLimit] treats like missing ones. *)
Lemma cleanup_keeps_live (k : string) (e : RateLimitEntry) (w : World) :
  rateLimitCache w !! k = Some e →
  ¬ resetAt e < clock w →
  rateLimitCache (world_of (cleanup w)) !! k = Some e.
Proof.
  intros Hk Hlive. simpl.
  apply map_lookup_filter_Some. split; [done|]. simpl.
  apply negb_true_iff. lia.
Qed.

(** What one call of [checkRateLimit] does, whatever the durable store
    does. *)
Lemma checkRateLimit_spec (identifier prefix : string) (config : RateLimitConfig)
    (w : World) :
  let k := prefix +:+ ":" +:+ identifier in
  wp (checkRateLimit identifier config prefix)
     (λ r w', ∃ e,
        r = result_of_entry config e
        ∧ next_entry config (clock w) (rateLimitCache w !! k) (tbl_rateLimit w !! k) e
        ∧ rate_step k e w w')
     (λ _, False) w.
Proof.
  intros k. unfold checkRateLimit. fold k.
  apply wp_bind, wp_Date_now, wp_bind, wp_cache_get. cbv zeta. apply wp_bind.
  assert (wp (dbEntry ← getFromSupabase k;
              match dbEntry with
              | Some d =>
                  if resetAt d >? clock w then cache_set k d;; mret d
                  else
                    let e := {| count := 0; resetAt := clock w + windowMs config |} in
                    cache_set k e;; saveToSupabase k e;; mret e
              | None =>
                  let e := {| count := 0; resetAt := clock w + windowMs config |} in
                  cache_set k e;; saveToSupabase k e;; mret e
              end)
             (λ entry w1,
                wp (cache_set k (bump entry);; saveToSupabase k (bump entry);;
                    mret (result_of_entry config (bump entry)))
                   (λ r w', ∃ e, r = result_of_entry config e
                                 ∧ refilled config (clock w) (tbl_rateLimit w !! k) e
                                 ∧ rate_step k e w w')
                   (λ _, False) w1)
             (λ _, False) w) as Hrefill.
  { apply wp_bind.
    eapply wp_mono; [apply getFromSupabase_spec| |done].
    intros r w1 [(fs & Hfs & ->) Hr].
    destruct Hr as [-> | (d & Hd & Hlive & ->)].
    - eapply wp_mono; [by apply new_window_then_count| |done].
      intros entry w1 H. eapply wp_mono; [exact H| |done].
      intros r w' [-> Hstep]. eexists. split; [done|]. split; [by left|done].
    - simpl. destruct (Z.gtb_spec (resetAt d) (clock w)) as [Hgt|Hle].
      + eapply wp_mono; [by apply db_entry_then_count| |done].
        intros entry w1 H. eapply wp_mono; [exact H| |done].
        intros r w' [-> Hstep]. exists (bump d). split; [done|].
        split; [|done]. right. exists d. split; [done|]. split; [lia|done].
      + eapply wp_mono; [by apply new_window_then_count| |done].
        intros entry w1 H. eapply wp_mono; [exact H| |done].
        intros r w' [-> Hstep]. eexists. split; [done|]. split; [by left|done]. }
  unfold next_entry.
  destruct (rateLimitCache w !! k) as [c|] eqn:Hc.
  - destruct (resetAt c <? clock w) eqn:Hexp.
    + exact Hrefill.
    + apply wp_ret.
      eapply wp_mono; [apply (count_and_store k config c w)| |done].
      * by left.
      * by left.
      * apply frame_refl.
      * apply same_tables_refl.
      * intros r w' [-> Hstep]. by exists (bump c).
  - exact Hrefill.
Qed.

(** C8: whatever the durable store does (every read and write of it may
    throw, as the fault schedule [fs] says), [checkRateLimit] returns, and
    its answer is the one computed from the entry the in-memory cache now
    holds; when the cache already held a live entry, that entry is the old
    one counted up, store or no store. *)
Theorem rate_limit_survives_store_failures
    (identifier prefix : string) (config : RateLimitConfig) (w : World)
    (fs : list bool) :
  ∃ r w', checkRateLimit identifier config prefix (set_faults fs w) = Ok r w'
          ∧ ∃ e, rateLimitCache w' !! (prefix +:+ ":" +:+ identifier) = Some e
                 ∧ success r = (count e <=? limit config)
                 ∧ r_limit r = limit config
                 ∧ remaining r = Z.max 0 (limit config - count e)
                 ∧ reset r = resetAt e
                 ∧ ∀ c, rateLimitCache w !! (prefix +:+ ":" +:+ identifier) = Some c →
                        clock w ≤ resetAt c →
                        e = {| count := count c + 1; resetAt := resetAt c |}.
Proof.
  destruct (wp_returns _ _ _
              (checkRateLimit_spec identifier prefix config (set_faults fs w)))
    as (r & w' & Hrun & e & -> & Hnext & Hcache & _).
  exists (result_of_entry config e), w'. split; [done|].
  exists e. rewrite Hcache, lookup_insert_eq. split_and!; try done.
  intros c Hc Hlive. simpl in Hnext. rewrite Hc in Hnext. simpl in Hnext.
  by replace (resetAt c <? clock w) with false in Hnext by lia.
Qed.

Lemma call_at_spec (identifier prefix : string) (config : RateLimitConfig)
    (c : Z * list bool) (w : World) :
  let k := prefix +:+ ":" +:+ identifier in
  ∃ e w', call_at identifier prefix config c w = Ok (result_of_entry config e) w'
          ∧ next_entry config c.1 (rateLimitCache w !! k) (tbl_rateLimit w !! k) e
          ∧ rateLimitCache w' !! k = Some e
          ∧ (tbl_rateLimit w' !! k = tbl_rateLimit w !! k
             ∨ ∃ n, tbl_rateLimit w' !! k = Some {| count := n; resetAt := resetAt e |}).
Proof.
  intros k. unfold call_at.
  destruct (wp_returns _ _ _
              (checkRateLimit_spec identifier prefix config
                 (set_faults c.2 (set_clock c.1 w))))
    as (r & w' & Hrun & e & -> & Hnext & Hcache & Htbl & _).
  exists e, w'. fold k in Hcache, Htbl, Hnext. simpl in *.
  split_and!; [done|done|by rewrite Hcache, lookup_insert_eq|].
  destruct Htbl as [-> | (n & ->)]; [by left|].
  right. exists n. by rewrite lookup_insert_eq.
Qed.

Lemma call_in_window (identifier prefix : string) (config : RateLimitConfig)
    (c : Z * list bool) (w : World) (R n : Z) :
  in_window (prefix +:+ ":" +:+ identifier) R n w →
  c.1 ≤ R →
  ∃ w', call_at identifier prefix config c w
        = Ok (result_of_entry config {| count := n + 1; resetAt := R |}) w'
        ∧ in_window (prefix +:+ ":" +:+ identifier) R (n + 1) w'.
Proof.
  intros [Hcache Hdb] Ht.
  destruct (call_at_spec identifier prefix config c w)
    as (e & w' & Hrun & Hnext & Hcache' & Htbl).
  rewrite Hcache in Hnext. simpl in Hnext.
  replace (R <? c.1) with false in Hnext by lia. subst e.
  exists w'. split; [done|]. split; [done|].
  intros d Hd.
  destruct Htbl as [Heq | (m & Heq)]; rewrite Heq in Hd; [by apply Hdb|].
  injection Hd as <-. simpl. lia.
Qed.

Lemma call_opens_window (identifier prefix : string) (config : RateLimitConfig)
    (c : Z * list bool) (w : World) :
  let k := prefix +:+ ":" +:+ identifier in
  let e1 := {| count := 1; resetAt := c.1 + windowMs config |} in
  (∀ e, rateLimitCache w !! k = Some e → resetAt e < c.1) →
  (∀ d, tbl_rateLimit w !! k = Some d → resetAt d < c.1) →
  ∃ w', call_at identifier prefix config c w = Ok (result_of_entry config e1) w'
        ∧ rateLimitCache w' !! k = Some e1
        ∧ (tbl_rateLimit w' !! k = tbl_rateLimit w !! k
           ∨ ∃ n, tbl_rateLimit w' !! k
                  = Some {| count := n; resetAt := c.1 + windowMs config |}).
Proof.
  intros k e1 Hcache Hdb.
  destruct (call_at_spec identifier prefix config c w)
    as (e & w' & Hrun & Hnext & Hcache' & Htbl).
  fold k in Hnext, Hcache', Htbl.
  assert (refilled config c.1 (tbl_rateLimit w !! k) e) as Hre.
  { unfold next_entry in Hnext.
    destruct (rateLimitCache w !! k) as [e0|]; [|done].
    specialize (Hcache e0 eq_refl).
    by replace (resetAt e0 <? c.1) with true in Hnext by lia. }
  destruct Hre as [-> | (d & Hd & Hlive & _)];
    [|specialize (Hdb d Hd); lia].
  by exists w'.
Qed.

Lemma calls_in_window (identifier prefix : string) (config : RateLimitConfig)
    (R : Z) (schedule : list (Z * list bool)) :
  ∀ (n : Z) (w : World),
    in_window (prefix +:+ ":" +:+ identifier) R n w →
    Forall (λ c, c.1 ≤ R) schedule →
    let '(rs, w') := calls identifier prefix config schedule w in
    in_window (prefix +:+ ":" +:+ identifier) R (n + Z.of_nat (length schedule)) w'
    ∧ ∀ (i : nat) o, rs !! i = Some o →
        o = Some (result_of_entry config
                    {| count := n + 1 + Z.of_nat i; resetAt := R |}).
Proof.
  induction schedule as [|c rest IH]; intros n w Hin Hall; simpl.
  - split; [by rewrite Z.add_0_r|]. intros i o Hi. by rewrite lookup_nil in Hi.
  - apply Forall_cons in Hall as [Hc Hrest].
    destruct (call_in_window identifier prefix config c w R n Hin Hc)
      as (w1 & -> & Hin1).
    simpl. specialize (IH (n + 1) w1 Hin1 Hrest).
    destruct (calls identifier prefix config rest w1) as [rs w'].
    destruct IH as [Hin' Hrs]. split.
    + by replace (n + Z.of_nat (S (length rest)))
        with (n + 1 + Z.of_nat (length rest)) by lia.
    + intros [|i] o Hi; simpl in Hi.
      * injection Hi as <-. by rewrite Z.add_0_r.
      * rewrite (Hrs i o Hi). do 3 f_equal. lia.
Qed.

(** C5 (as amended): for every configuration whose limit is at least 1,
    starting without an entry for the identifier, the first [limit] calls
    succeed, the next one inside the window fails, and the first call after
    the window has elapsed succeeds with [limit - 1] remaining, whatever
    the durable store does. *)
Theorem fixed_window_for_positive_limit (config : RateLimitConfig) :
  1 ≤ limit config → fixed_window config.
Proof.
  intros Hlimit identifier prefix w first more after k Hcache Hdb Hlen Hmore Hafter.
  subst k. simpl.
  destruct (call_opens_window identifier prefix config first w)
    as (w1 & -> & Hc1 & Ht1).
  { intros e He. by rewrite Hcache in He. }
  { intros d Hd. by rewrite Hdb in Hd. }
  simpl.
  assert (in_window (prefix +:+ ":" +:+ identifier)
            (first.1 + windowMs config) 1 w1) as Hin.
  { split; [done|]. intros d Hd.
    destruct Ht1 as [Heq | (n & Heq)]; rewrite Heq in Hd.
    - by rewrite Hdb in Hd.
    - injection Hd as <-. simpl. lia. }
  pose proof (calls_in_window identifier prefix config _ more 1 w1 Hin Hmore) as Hcalls.
  destruct (calls identifier prefix config more w1) as [rs w'].
  destruct Hcalls as [[Hc' Ht'] Hrs]. split.
  - intros [|i] o Hi; simpl in Hi.
    + injection Hi as <-. eexists. split; [done|]. simpl.
      rewrite bool_decide_eq_true_2 by lia. lia.
    + rewrite (Hrs i o Hi). eexists. split; [done|]. simpl.
      case_bool_decide; lia.
  - destruct (call_opens_window identifier prefix config after w')
      as (w'' & Hrun & _).
    { intros e He. rewrite Hc' in He. injection He as <-. simpl. lia. }
    { intros d Hd. specialize (Ht' d Hd). lia. }
    eexists _, w''. split; [exact Hrun|]. simpl. split_and!; lia.
Qed.

(** C5 (as stated) fails for a limit of 0: the call after the window is
    rejected, with 0 remaining. *)
Lemma fixed_window_fails_for_limit_zero :
  ¬ fixed_window {| limit := 0; windowMs := 1000 |}.
Proof.
  intros H.
  specialize (H "device-1" "rate" empty_world (0, []) [] (1001, [])
                eq_refl eq_refl eq_refl (Forall_nil_2 _) eq_refl).
  vm_compute in H.
  destruct H as (_ & r & w'' & Hrun & Hsuccess & _).
  injection Hrun as <- _. discriminate Hsuccess.
Qed.

(** ** Token issuer *)

Lemma payload_claims_lookup (p : JWTPayload) (k : string) :
  k ≠ "licenseId" → k ≠ "userId" → k ≠ "email" →
  payload_claims p !! k = None.
Proof.
  intros H1 H2 H3. unfold payload_claims, set_claim.
  destruct (email p), (userId_ p), (licenseId p); simpl;
    rewrite ?lookup_insert_ne by done; apply lookup_empty.
Qed.

Lemma payload_claims_licenseId (p : JWTPayload) :
  claim_string (payload_claims p) "licenseId" = licenseId p.
Proof.
  unfold claim_string, payload_claims, set_claim.
  destruct (email p), (userId_ p), (licenseId p); simpl;
    rewrite ?lookup_insert_ne by done;
    by rewrite ?lookup_insert_eq, ?lookup_empty.
Qed.

Lemma payload_claims_userId (p : JWTPayload) :
  claim_string (payload_claims p) "userId" = userId_ p.
Proof.
  unfold claim_string, payload_claims, set_claim.
  destruct (email p), (userId_ p), (licenseId p); simpl;
    rewrite ?lookup_insert_ne by done;
    by rewrite ?lookup_insert_eq, ?lookup_empty.
Qed.

Lemma payload_claims_email (p : JWTPayload) :
  claim_string (payload_claims p) "email" = email p.
Proof.
  unfold claim_string, payload_claims, set_claim.
  destruct (email p), (userId_ p), (licenseId p); simpl;
    rewrite ?lookup_insert_ne by done;
    by rewrite ?lookup_insert_eq, ?lookup_empty.
Qed.

Lemma SignJWT_run (claims : gmap string ClaimValue) (lifetime : Z) (w : World) :
  SignJWT claims lifetime w
  = Ok (compact (signed_token (JWT_SECRET w) claims (clock w) lifetime)) w.
Proof. reflexivity. Qed.

(** [jwtVerify] accepts a token of [SignJWT] until it expires, whatever
    other claims it carries (none of them may be [nbf]). *)
Lemma jwtVerify_signed (claims : gmap string ClaimValue) (lifetime : Z)
    (secret : string) (now : Z) (w : World) :
  let jwt := signed_token secret claims now lifetime in
  parse_compact (compact jwt) = Some jwt →
  JWT_SECRET w = secret →
  claims !! "nbf" = None →
  clock w / 1000 < now / 1000 + lifetime →
  jwtVerify (compact jwt) JWT_ISSUER JWT_AUDIENCE w = Ok (jwt_claims jwt) w.
Proof.
  intros jwt Hparse Hsecret Hnbf Hexp.
  unfold jwtVerify, Date_now, getenv, mbind, Async_bind. simpl.
  rewrite Hparse, Hsecret. simpl.
  rewrite (bool_decide_eq_true_2 (_ = HS256 _ _ _)) by done. simpl.
  rewrite !(lookup_insert_ne _ "exp" "iss"), !(lookup_insert_ne _ "aud" "iss") by done.
  rewrite lookup_insert_eq.
  rewrite (bool_decide_eq_true_2 (Some _ = Some _)) by done. simpl.
  rewrite !(lookup_insert_ne _ "exp" "aud") by done.
  rewrite lookup_insert_eq.
  rewrite (bool_decide_eq_true_2 (Some _ = Some _)) by done. simpl.
  rewrite (lookup_insert_ne _ "exp" "iat"), (lookup_insert_ne _ "aud" "iat"),
    (lookup_insert_ne _ "iss" "iat") by done.
  rewrite lookup_insert_eq.
  rewrite (lookup_insert_ne _ "exp" "nbf"), (lookup_insert_ne _ "aud" "nbf"),
    (lookup_insert_ne _ "iss" "nbf"), (lookup_insert_ne _ "iat" "nbf") by done.
  rewrite Hnbf, lookup_insert_eq.
  replace (now / 1000 + lifetime <=? clock w / 1000) with false by lia.
  reflexivity.
Qed.

Lemma signed_token_claim_string (secret : string) (claims : gmap string ClaimValue)
    (now lifetime : Z) (k : string) :
  k ≠ "exp" → k ≠ "aud" → k ≠ "iss" → k ≠ "iat" →
  claim_string (jwt_claims (signed_token secret claims now lifetime)) k
  = claim_string claims k.
Proof.
  intros. unfold claim_string. simpl. by rewrite !lookup_insert_ne.
Qed.

Lemma signed_token_iat (secret : string) (claims : gmap string ClaimValue)
    (now lifetime : Z) :
  claim_number (jwt_claims (signed_token secret claims now lifetime)) "iat"
  = Some (now / 1000).
Proof.
  unfold claim_number. simpl.
  rewrite !lookup_insert_ne by done. by rewrite lookup_insert_eq.
Qed.

Lemma signed_token_exp (secret : string) (claims : gmap string ClaimValue)
    (now lifetime : Z) :
  claim_number (jwt_claims (signed_token secret claims now lifetime)) "exp"
  = Some (now / 1000 + lifetime).
Proof.
  unfold claim_number. simpl. by rewrite lookup_insert_eq.
Qed.

Lemma refresh_claim_string (p : JWTPayload) (k : string) :
  k ≠ "type" →
  claim_string (<["type" := CStr "refresh"]> (payload_claims p)) k
  = claim_string (payload_claims p) k.
Proof.
  intros. unfold claim_string. by rewrite lookup_insert_ne.
Qed.

(** C6 (what the code does): the token [signRefreshToken] issues carries
    the claim [type = refresh], and [verifyJWT], which never looks at that
    claim, accepts it like an access token for the seven days it lives and
    returns the identity it was issued for. *)
Theorem refresh_token_passes_verifyJWT (p : JWTPayload) (w : World) (later : Z) :
  let jwt := signed_token (JWT_SECRET w)
               (<["type" := CStr "refresh"]> (payload_claims p))
               (clock w) (7 * 86400) in
  signRefreshToken p w = Ok (compact jwt) w
  ∧ jwt_claims jwt !! "type" = Some (CStr "refresh")
  ∧ (parse_compact (compact jwt) = Some jwt →
     later / 1000 < clock w / 1000 + 7 * 86400 →
     verifyJWT (compact jwt) (set_clock later w)
     = Ok (Some {| licenseId := licenseId p; userId_ := userId_ p;
                   email := email p; iat := Some (clock w / 1000);
                   exp := Some (clock w / 1000 + 7 * 86400) |})
          (set_clock later w)).
Proof.
  intros jwt. split; [reflexivity|]. split.
  { subst jwt. simpl. rewrite !lookup_insert_ne by done. apply lookup_insert_eq. }
  intros Hparse Hlater.
  unfold verifyJWT, try_catch, mbind, Async_bind.
  subst jwt. rewrite jwtVerify_signed; try done.
  - unfold mret, Async_ret.
    rewrite !signed_token_claim_string, !refresh_claim_string by done.
    rewrite payload_claims_licenseId, payload_claims_userId, payload_claims_email.
    by rewrite signed_token_iat, signed_token_exp.
  - rewrite lookup_insert_ne by done. by apply payload_claims_lookup.
Qed.

(** ** Routes *)

Lemma rate_limit_frame (identifier prefix : string) (config : RateLimitConfig)
    (w : World) :
  wp (checkRateLimit identifier config prefix)
     (λ _ w', frame w w' ∧ same_tables w w') (λ _, False) w.
Proof.
  eapply wp_mono; [apply checkRateLimit_spec| |done].
  intros r w' (e & _ & _ & _ & _ & Hf & Hs). done.
Qed.

Lemma ip_rate_limit_frame (ip : string) (w : World) :
  wp (checkIpRateLimit ip)
     (λ _ w', frame w w' ∧ same_tables w w') (λ _, False) w.
Proof. exact (rate_limit_frame ip "ip" RATE_LIMITS_IP w). Qed.

Lemma license_rate_limit_frame (licenseKey : string) (w : World) :
  wp (checkLicenseRateLimit licenseKey)
     (λ _ w', frame w w' ∧ same_tables w w') (λ _, False) w.
Proof. exact (rate_limit_frame licenseKey "license" RATE_LIMITS_LICENSE w). Qed.

Lemma deviceSwap_rate_limit_frame (licenseKey : string) (w : World) :
  wp (checkDeviceSwapRateLimit licenseKey)
     (λ _ w', frame w w' ∧ same_tables w w') (λ _, False) w.
Proof. exact (rate_limit_frame licenseKey "swap" RATE_LIMITS_DEVICE_SWAP w). Qed.

Ltac rate_limit_frame :=
  lazymatch goal with
  | |- wp (checkIpRateLimit _) _ _ _ => apply ip_rate_limit_frame
  | |- wp (checkLicenseRateLimit _) _ _ _ => apply license_rate_limit_frame
  | |- wp (checkDeviceSwapRateLimit _) _ _ _ => apply deviceSwap_rate_limit_frame
  end.

Lemma logValidation_frame (licenseId : option string) (result : string)
    (p : gmap string string) (ip : string) (note : option string) (w : World) :
  wp (logValidation licenseId result p ip note)
     (λ _ w', frame w w' ∧ tbl_license w' = tbl_license w
              ∧ tbl_deviceSwapLog w' = tbl_deviceSwapLog w)
     (λ _, False) w.
Proof.
  unfold logValidation. apply wp_try_catch.
  destruct licenseId as [licenseId|]; [|apply wp_ret; split; [apply frame_refl|done]].
  case_bool_decide; [apply wp_ret; split; [apply frame_refl|done]|].
  apply wp_prisma. intros fs Hfs. split.
  - apply wp_ret. split; [by apply frame_set_faults|done].
  - simpl. split; [by split|done].
Qed.

Lemma signed_licenseKey_inv (req : Request Body) (k : string) :
  signed_licenseKey req = Some k →
  ∃ body request f,
    json req = Some body ∧ parseSignedRequest body = Some request
    ∧ payload request = JsObject f ∧ f !! "licenseKey" = Some k.
Proof.
  unfold signed_licenseKey. intros H.
  destruct (json req) as [body|]; [|done]. simpl in H.
  destruct (parseSignedRequest body) as [request|] eqn:Hr; [|done]. simpl in H.
  destruct (payload request) as [|f] eqn:Hp; [done|].
  exists body, request, f. split_and!; done.
Qed.

Lemma validate_rejects_banned (req : Request Body) (w : World)
    (k i : string) (l : License) :
  signed_licenseKey req = Some k →
  find_by_key (tbl_license w) k = Some (i, l) →
  isBanned l = true →
  rejects (validate_POST req) w.
Proof.
  intros (body & request & f & Hjson & Hparse & Hpayload & Hkey)%signed_licenseKey_inv
    Hfind Hbanned.
  apply wp_returns. unfold validate_POST.
  apply wp_try_catch.
  eapply wp_mono with (Q := λ r _, is_success r = false) (E := λ _, True);
    [|done|by intros; apply wp_ret].
  apply wp_bind.
  eapply wp_mono; [rate_limit_frame| |done].
  intros ipLimit w1 [Hf1 Hs1].
  destruct (success ipLimit); simpl; [|by apply wp_bind, wp_Date_now, wp_ret].
  unfold req_json. rewrite Hjson. apply wp_bind, wp_ret. rewrite Hparse.
  apply wp_bind, wp_getenv.
  destruct (truthy (API_SECRET w1)); simpl; [|by apply wp_ret].
  apply wp_bind, wp_Date_now.
  destruct (verifyRequest _ _ _ _); simpl; [|by apply wp_ret].
  rewrite Hpayload, Hkey. simpl.
  destruct (negb _ || _ || _); [by apply wp_ret|].
  apply wp_bind.
  eapply wp_mono; [rate_limit_frame| |done].
  intros licenseLimit w2 [Hf2 Hs2].
  destruct (success licenseLimit); simpl; [|by apply wp_ret].
  apply wp_bind, wp_prisma. intros fs Hfs. split; [done|]. simpl.
  rewrite (same_license _ _ Hs2), (same_license _ _ Hs1), Hfind, Hbanned.
  apply wp_bind.
  eapply wp_mono; [apply logValidation_frame| |done].
  intros [] w3 _. by apply wp_ret.
Qed.

Lemma activate_rejects_banned (req : Request Body) (w : World)
    (k i : string) (l : License) :
  signed_licenseKey req = Some k →
  find_by_key (tbl_license w) k = Some (i, l) →
  isBanned l = true →
  rejects (activate_POST req) w.
Proof.
  intros (body & request & f & Hjson & Hparse & Hpayload & Hkey)%signed_licenseKey_inv
    Hfind Hbanned.
  apply wp_returns. unfold activate_POST.
  apply wp_try_catch.
  eapply wp_mono with (Q := λ r _, is_success r = false) (E := λ _, True);
    [|done|by intros; apply wp_ret].
  apply wp_bind.
  eapply wp_mono; [rate_limit_frame| |done].
  intros rateLimit w1 [Hf1 Hs1].
  destruct (success rateLimit); simpl; [|by apply wp_ret].
  unfold req_json. rewrite Hjson. apply wp_bind, wp_ret. rewrite Hparse.
  apply wp_bind, wp_getenv, wp_bind, wp_Date_now.
  destruct (negb _ || negb _); [by apply wp_ret|].
  rewrite Hpayload. unfold ActivatePayloadSchema_safeParse. rewrite Hkey.
  destruct (f !! "browserFingerprint") as [b|]; [|by apply wp_ret].
  destruct (min_length 10 k && min_length 10 b); [|by apply wp_ret].
  simpl.
  apply wp_bind, wp_prisma. intros fs Hfs. split; [done|]. simpl.
  rewrite (same_license _ _ Hs1), Hfind, Hbanned.
  by apply wp_ret.
Qed.

Lemma deviceSwap_rejects_banned (req : Request Body) (w : World)
    (k i : string) (l : License) :
  signed_licenseKey req = Some k →
  find_by_key (tbl_license w) k = Some (i, l) →
  isBanned l = true →
  rejects (deviceSwap_POST req) w.
Proof.
  intros (body & request & f & Hjson & Hparse & Hpayload & Hkey)%signed_licenseKey_inv
    Hfind Hbanned.
  apply wp_returns. unfold deviceSwap_POST.
  apply wp_try_catch.
  eapply wp_mono with (Q := λ r _, is_success r = false) (E := λ _, True);
    [|done|by intros; apply wp_ret].
  unfold req_json. rewrite Hjson. apply wp_bind, wp_ret. rewrite Hparse.
  apply wp_bind, wp_getenv, wp_bind, wp_Date_now.
  destruct (negb _ || negb _); [by apply wp_ret|].
  rewrite Hpayload, Hkey. simpl.
  destruct (negb _ || negb _); [by apply wp_ret|].
  apply wp_bind.
  eapply wp_mono; [rate_limit_frame| |done].
  intros rateLimit w1 [Hf1 Hs1].
  destruct (success rateLimit); simpl; [|by apply wp_bind, wp_Date_now, wp_ret].
  apply wp_bind, wp_prisma. intros fs Hfs. split; [done|]. simpl.
  rewrite (same_license _ _ Hs1), Hfind, Hbanned. simpl.
  by apply wp_ret.
Qed.

Lemma extensionActivate_rejects_banned (req : Request Json) (w : World)
    (k i : string) (l : License) :
  plain_licenseKey req = Some k →
  find_by_key (tbl_license w) k = Some (i, l) →
  isBanned l = true →
  rejects (extensionActivate_POST req) w.
Proof.
  unfold plain_licenseKey. intros Hkey Hfind Hbanned.
  destruct (json req) as [[|f]|] eqn:Hjson; try done. simpl in Hkey.
  apply wp_returns. unfold extensionActivate_POST.
  apply wp_try_catch.
  eapply wp_mono with (Q := λ r _, is_success r = false) (E := λ _, True);
    [|done|by intros; apply wp_ret].
  apply wp_bind.
  eapply wp_mono; [rate_limit_frame| |done].
  intros rateLimit w1 [Hf1 Hs1].
  destruct (success rateLimit); simpl; [|by apply wp_ret].
  unfold req_json. rewrite Hjson. apply wp_bind, wp_ret.
  unfold ActivateSchema_safeParse. rewrite Hkey.
  destruct (f !! "browserFingerprint") as [b|]; [|by apply wp_ret].
  destruct (min_length 10 k && min_length 5 b); [|by apply wp_ret].
  simpl.
  apply wp_bind, wp_prisma. intros fs Hfs. split; [done|]. simpl.
  rewrite (same_license _ _ Hs1), Hfind, Hbanned.
  by apply wp_ret.
Qed.

(** [verifyJWT] never throws and changes nothing; what it returns are
    claims of the parsed token. *)
Lemma verifyJWT_spec (token : string) (w : World) :
  wp (verifyJWT token)
     (λ r w', w' = w
              ∧ ∀ decoded, r = Some decoded →
                  ∃ jwt, parse_compact token = Some jwt
                         ∧ licenseId decoded = claim_string (jwt_claims jwt) "licenseId")
     (λ _, False) w.
Proof.
  unfold verifyJWT, jwtVerify.
  apply wp_try_catch, wp_bind, wp_bind, wp_Date_now, wp_bind, wp_getenv.
  destruct (parse_compact token) as [jwt|]; [|by apply wp_throw, wp_ret].
  simpl.
  repeat (match goal with
          | |- context [if ?b then _ else _] => destruct b
          end; [by apply wp_throw, wp_ret|]).
  apply wp_ret, wp_ret. split; [done|].
  intros decoded [= <-]. by exists jwt.
Qed.

Lemma config_rejects_banned (req : Request unit) (w : World)
    (i : string) (l : License) :
  bearer_licenseId req = Some i →
  tbl_license w !! i = Some l →
  isBanned l = true →
  rejects (config_GET req) w.
Proof.
  unfold bearer_licenseId. intros Hid Hfind Hbanned.
  destruct (extractBearerToken (headers req "authorization")) as [token|] eqn:Htoken;
    [|done].
  simpl in Hid.
  destruct (parse_compact token) as [jwt|] eqn:Hjwt; [|done]. simpl in Hid.
  apply wp_returns. unfold config_GET.
  apply wp_try_catch.
  eapply wp_mono with (Q := λ r _, is_success r = false) (E := λ _, True);
    [|done|by intros; apply wp_ret].
  rewrite Htoken.
  case_bool_decide; [by apply wp_ret|].
  apply wp_bind.
  eapply wp_mono; [apply verifyJWT_spec| |done].
  intros decoded w1 [-> Hdecoded].
  destruct decoded as [decoded|]; [|by apply wp_ret].
  destruct (Hdecoded decoded eq_refl) as (jwt' & Hjwt' & Hlic).
  rewrite Hjwt in Hjwt'. injection Hjwt' as <-. rewrite Hid in Hlic.
  rewrite Hlic.
  destruct (negb (truthy (Some i))); [by apply wp_ret|]. simpl.
  apply wp_bind.
  eapply wp_mono; [rate_limit_frame| |done].
  intros limit w1 [Hf1 Hs1].
  destruct (success limit); simpl; [|by apply wp_ret].
  apply wp_bind, wp_prisma. intros fs Hfs. split; [done|]. simpl.
  rewrite (same_license _ _ Hs1), Hfind, Hbanned. simpl.
  by apply wp_ret.
Qed.

(** C3: a banned license is rejected by validation, activation (signed and
    extension), device swap and configuration delivery, whatever its status,
    its expiry and the fingerprint the request carries. *)
Theorem banned_license_is_rejected (w : World) (i : string) (l : License) :
  isBanned l = true →
  (∀ req k, signed_licenseKey req = Some k →
            find_by_key (tbl_license w) k = Some (i, l) →
            rejects (validate_POST req) w
            ∧ rejects (activate_POST req) w
            ∧ rejects (deviceSwap_POST req) w)
  ∧ (∀ req k, plain_licenseKey req = Some k →
              find_by_key (tbl_license w) k = Some (i, l) →
              rejects (extensionActivate_POST req) w)
  ∧ (∀ req, bearer_licenseId req = Some i →
            tbl_license w !! i = Some l →
            rejects (config_GET req) w).
Proof.
  intros Hbanned. split_and!.
  - intros req k Hkey Hfind. split_and!.
    + by eapply validate_rejects_banned.
    + by eapply activate_rejects_banned.
    + by eapply deviceSwap_rejects_banned.
  - intros req k Hkey Hfind. by eapply extensionActivate_rejects_banned.
  - intros req Hid Hfind. by eapply config_rejects_banned.
Qed.

Lemma rate_limit_run_frame (identifier prefix : string) (config : RateLimitConfig)
    (w w' : World) (r : RateLimitResult) :
  checkRateLimit identifier config prefix w = Ok r w' →
  frame w w' ∧ same_tables w w'.
Proof.
  intros Hrun.
  exact (wp_run _ _ _ _ _ _ (rate_limit_frame identifier prefix config w) Hrun).
Qed.

(** C9: once the request has passed the gates in front of the license
    check (IP rate limit, signature, payload schema) and the store answers,
    activating a license that is not banned, is already [ACTIVE] and is bound
    to the fingerprint of the request succeeds with a token signed at the
    time of the request, and the license table is left as it was. *)
Theorem reactivation_from_bound_device
    (req : Request Body) (w w1 : World) (rateLimit : RateLimitResult)
    (body : Body) (request : SignedRequest) (parsed : ActivatePayload)
    (i : string) (l : License) :
  checkIpRateLimit (getClientIp (headers req)) w = Ok rateLimit w1 →
  success rateLimit = true →
  json req = Some body →
  parseSignedRequest body = Some request →
  truthy (API_SECRET w) = true →
  verifyRequest (clock w) request (default "" (API_SECRET w)) 60000 = true →
  ActivatePayloadSchema_safeParse (payload request) = Some parsed →
  faults w = [] →
  find_by_key (tbl_license w) (ap_licenseKey parsed) = Some (i, l) →
  isBanned l = false →
  status l = ACTIVE →
  browserFingerprint l = Some (ap_browserFingerprint parsed) →
  let token :=
    compact (signed_token (JWT_SECRET w)
               (payload_claims {| licenseId := Some i; userId_ := Some (userId l);
                                  email := Some (user_email l);
                                  iat := None; exp := None |})
               (clock w) 3600) in
  activate_POST req w
  = Ok (Success (Activated token None (key l) ACTIVE (expiresAt l) (createdAt l))) w1
  ∧ tbl_license w1 = tbl_license w.
Proof.
  intros Hrl Hok Hjson Hparse Hsecret Hverify Hschema Hfaults Hfind Hbanned
    Hstatus Hfp token.
  destruct (rate_limit_run_frame _ _ _ _ _ _ Hrl) as [Hf Hs].
  split; [|apply Hs].
  assert (wp (activate_POST req)
             (λ r w', r = Success (Activated token None (key l) ACTIVE
                                     (expiresAt l) (createdAt l))
                      ∧ w' = w1)
             (λ _, False) w) as Hwp.
  { unfold activate_POST. apply wp_try_catch, wp_bind.
    eapply wp_of_eq; [exact Hrl|]. rewrite Hok. simpl.
    unfold req_json. rewrite Hjson. apply wp_bind, wp_ret. rewrite Hparse.
    apply wp_bind, wp_getenv, wp_bind, wp_Date_now.
    rewrite (frame_api _ _ Hf), (frame_clock _ _ Hf), Hsecret, Hverify. simpl.
    rewrite Hschema.
    apply wp_bind, wp_prisma_ok; [by eapply frame_no_faults|].
    rewrite (same_license _ _ Hs), Hfind, Hbanned, Hstatus, Hfp. simpl.
    rewrite (bool_decide_eq_true_2 (Some _ = Some _)) by done.
    rewrite andb_false_r.
    apply wp_bind. unfold signAccessToken. eapply wp_of_eq; [apply SignJWT_run|].
    apply wp_ret. subst token.
    by rewrite (frame_jwt _ _ Hf), (frame_clock _ _ Hf). }
  apply wp_returns in Hwp as (r & w' & -> & -> & ->). done.
Qed.

(** ** Effects on the license table *)

Lemma find_by_key_lookup (T : gmap string License) (k i : string) (l : License) :
  find_by_key T k = Some (i, l) → T !! i = Some l ∧ key l = k.
Proof.
  unfold find_by_key. intros H.
  apply find_some in H as [Hin Hk].
  apply list_elem_of_In, elem_of_map_to_list in Hin.
  split; [done|]. by apply bool_decide_eq_true_1 in Hk.
Qed.

Lemma license_update_spec (id : string) (data : License → License) (w : World) :
  wp (license_update id data)
     (λ _ w', frame w w'
              ∧ ∃ l, tbl_license w !! id = Some l
                     ∧ tbl_license w' = <[id := data l]> (tbl_license w))
     (λ w', frame w w' ∧ tbl_license w' = tbl_license w) w.
Proof.
  unfold license_update. apply wp_prisma. intros fs Hfs. simpl.
  split; [split; [by apply frame_set_faults|done]|].
  destruct (tbl_license w !! id) as [l|] eqn:Hl; [|done].
  split; [by split|]. by exists l.
Qed.

Lemma bindDevice_spec (id : string) (fingerprint : DeviceFingerprint)
    (name ip : option string) (w : World) :
  wp (bindDevice id fingerprint name ip)
     (λ ok w',
        frame w w'
        ∧ if ok then
            ∃ l l', tbl_license w !! id = Some l
                    ∧ tbl_license w' = <[id := l']> (tbl_license w)
                    ∧ activationCount l' = activationCount l + 1
                    ∧ maxActivations l' = maxActivations l
                    ∧ browserFingerprint l' = Some (df_browserFingerprint fingerprint)
                    ∧ status l' = ACTIVE
          else tbl_license w' = tbl_license w)
     (λ _, False) w.
Proof.
  unfold bindDevice. apply wp_try_catch, wp_bind, wp_Date_now, wp_bind.
  eapply wp_mono; [apply license_update_spec| |].
  - intros [] w' (Hf & l & Hl & Hw'). apply wp_ret. split; [done|].
    eexists l, _. split; [done|]. split; [exact Hw'|]. done.
  - intros w' [Hf Hw']. by apply wp_ret.
Qed.

Lemma requestDeviceSwap_spec (id : string) (newFingerprint : DeviceFingerprint)
    (ip : string) (reason : option string) (w : World) :
  wp (requestDeviceSwap id newFingerprint ip reason)
     (λ r w',
        tbl_license w' = tbl_license w
        ∨ ∃ l l', tbl_license w !! id = Some l
                  ∧ truthy (browserFingerprint l) = true
                  ∧ activationCount l < maxActivations l
                  ∧ tbl_license w' = <[id := l']> (tbl_license w)
                  ∧ activationCount l' = activationCount l + 1
                  ∧ maxActivations l' = maxActivations l
                  ∧ browserFingerprint l'
                    = Some (df_browserFingerprint newFingerprint))
     (λ w', tbl_license w' = tbl_license w) w.
Proof.
  unfold requestDeviceSwap, license_findUnique_id.
  apply wp_bind, wp_prisma. intros fs Hfs. split; [done|]. simpl.
  destruct (tbl_license w !! id) as [l|] eqn:Hl; [|by apply wp_ret; left].
  destruct (truthy (browserFingerprint l)) eqn:Hbound; simpl;
    [|by apply wp_ret; left].
  destruct (Z.geb_spec (activationCount l) (maxActivations l)) as [Hfull|Hroom];
    [by apply wp_ret; left|].
  unfold deviceSwapLog_create.
  apply wp_bind, wp_prisma. intros fs1 Hfs1. split; [done|]. simpl.
  apply wp_bind, wp_Date_now, wp_bind.
  eapply wp_mono; [apply license_update_spec| |].
  - intros [] w' (_ & l0 & Hl0 & Hw'). simpl in Hl0, Hw'.
    rewrite Hl in Hl0. injection Hl0 as <-.
    apply wp_ret. right. eexists l, _.
    split_and!; [done|done|lia|exact Hw'|done|done|done].
  - intros w' [_ Hw']. done.
Qed.

Lemma checkDeviceBinding_spec (id : string) (fingerprint : DeviceFingerprint)
    (w : World) :
  wp (checkDeviceBinding id fingerprint)
     (λ r w',
        tbl_license w' = tbl_license w
        ∧ (isFirstActivation r = true →
           ∃ l, tbl_license w !! id = Some l
                ∧ truthy (browserFingerprint l) = false))
     (λ w', tbl_license w' = tbl_license w) w.
Proof.
  unfold checkDeviceBinding, license_findUnique_id.
  apply wp_bind, wp_prisma. intros fs Hfs. split; [done|]. simpl.
  destruct (tbl_license w !! id) as [l|] eqn:Hl; [|by apply wp_ret].
  destruct (truthy (browserFingerprint l)) eqn:Hbound; simpl.
  - case_bool_decide; by apply wp_ret.
  - apply wp_ret. split; [done|]. intros _. by exists l.
Qed.

Lemma truthy_default (o : option string) :
  truthy o = true → truthy (Some (default "" o)) = true.
Proof. by destruct o. Qed.

Lemma min_length_truthy (n : nat) (s : string) :
  (0 < n)%nat → min_length n s = true → truthy (Some s) = true.
Proof.
  unfold min_length, truthy. intros Hn Hlen%bool_decide_eq_true_1.
  rewrite bool_decide_eq_false_2; [done|]. intros ->. simpl in Hlen. lia.
Qed.

Lemma license_effect_same (w0 w w' : World) :
  tbl_license w' = tbl_license w →
  license_effect (tbl_license w0) (tbl_license w) →
  license_effect (tbl_license w0) (tbl_license w').
Proof. by intros ->. Qed.

Lemma activate_effect (req : Request Body) (w : World) :
  wp (activate_POST req)
     (λ _ w', license_effect (tbl_license w) (tbl_license w')) (λ _, False) w.
Proof.
  unfold activate_POST. apply wp_try_catch.
  eapply wp_mono with
    (Q := λ _ w', license_effect (tbl_license w) (tbl_license w'))
    (E := λ w', license_effect (tbl_license w) (tbl_license w'));
    [|done|by intros; apply wp_ret].
  apply wp_bind.
  eapply wp_mono; [rate_limit_frame| |done].
  intros rateLimit w1 [_ [H1 _ _ _]].
  assert (license_effect (tbl_license w) (tbl_license w1)) as Hnone
    by by apply effect_none.
  destruct (success rateLimit); simpl; [|by apply wp_ret].
  unfold req_json.
  destruct (json req) as [body|]; [|by apply wp_bind, wp_throw].
  apply wp_bind, wp_ret.
  destruct (parseSignedRequest body) as [request|]; [|by apply wp_ret].
  apply wp_bind, wp_getenv, wp_bind, wp_Date_now.
  destruct (negb _ || negb _); [by apply wp_ret|].
  destruct (ActivatePayloadSchema_safeParse (payload request)) as [parsed|] eqn:Hparsed;
    [|by apply wp_ret].
  simpl.
  apply wp_bind, wp_prisma. intros fs Hfs. split; [done|]. simpl.
  destruct (find_by_key (tbl_license w1) (ap_licenseKey parsed)) as [[i l]|] eqn:Hfind;
    [|by apply wp_ret].
  apply find_by_key_lookup in Hfind as [Hl _].
  destruct (isBanned l); [by apply wp_ret|].
  case_bool_decide as Hactive.
  { destruct (truthy _ && negb _); [by apply wp_ret|].
    apply wp_bind. unfold signAccessToken. eapply wp_of_eq; [apply SignJWT_run|].
    by apply wp_ret. }
  case_bool_decide as Hinactive; simpl; [|by apply wp_ret].
  destruct (Z.geb_spec (activationCount l) (maxActivations l)) as [Hfull|Hroom];
    [by apply wp_ret|].
  apply wp_bind.
  eapply wp_mono; [apply bindDevice_spec| |done].
  intros [] w2 [_ Hbind]; simpl in Hbind; simpl.
  2: { apply wp_ret. by rewrite Hbind. }
  destruct Hbind as (l0 & l' & Hl0 & Hw2 & Hcount & Hmax & Hfp & _).
  rewrite Hl in Hl0. injection Hl0 as <-.
  assert (license_effect (tbl_license w) (tbl_license w2)) as Heffect.
  { rewrite <- H1. eapply effect_update; [exact Hl|exact Hw2|done|].
    right. split; [done|]. split; [|by left]. rewrite Hfp.
    unfold ActivatePayloadSchema_safeParse in Hparsed.
    destruct (payload request) as [|f]; [done|].
    destruct (f !! "licenseKey") as [k|]; [|done].
    destruct (f !! "browserFingerprint") as [b|]; [|done].
    destruct (min_length 10 k) eqn:Hk, (min_length 10 b) eqn:Hb; try done.
    injection Hparsed as <-. simpl. by eapply min_length_truthy; [|exact Hb]; lia. }
  unfold validationLog_create.
  apply wp_bind, wp_prisma. intros fs2 Hfs2. split; [done|]. simpl.
  apply wp_bind. unfold signAccessToken. eapply wp_of_eq; [apply SignJWT_run|].
  apply wp_bind, wp_Date_now, wp_ret. done.
Qed.

Lemma validate_effect (req : Request Body) (w : World) :
  wp (validate_POST req)
     (λ _ w', license_effect (tbl_license w) (tbl_license w')) (λ _, False) w.
Proof.
  unfold validate_POST. apply wp_try_catch.
  eapply wp_mono with
    (Q := λ _ w', license_effect (tbl_license w) (tbl_license w'))
    (E := λ w', license_effect (tbl_license w) (tbl_license w'));
    [|done|by intros; apply wp_ret].
  apply wp_bind.
  eapply wp_mono; [rate_limit_frame| |done].
  intros ipLimit w1 [_ [H1 _ _ _]].
  assert (license_effect (tbl_license w) (tbl_license w1)) as Hnone1
    by by apply effect_none.
  destruct (success ipLimit); simpl; [|by apply wp_bind, wp_Date_now, wp_ret].
  unfold req_json.
  destruct (json req) as [body|]; [|by apply wp_bind, wp_throw].
  apply wp_bind, wp_ret.
  destruct (parseSignedRequest body) as [request|]; [|by apply wp_ret].
  apply wp_bind, wp_getenv.
  destruct (negb (truthy (API_SECRET w1))); [by apply wp_ret|].
  apply wp_bind, wp_Date_now.
  destruct (negb (verifyRequest _ _ _ _)); [by apply wp_ret|].
  destruct (payload request) as [|p]; [by apply wp_throw|].
  destruct (truthy (p !! "licenseKey")); simpl; [|by apply wp_ret].
  destruct (truthy (p !! "browserFingerprint")) eqn:Hfp; simpl; [|by apply wp_ret].
  destruct (truthy (p !! "extensionVersion")); simpl; [|by apply wp_ret].
  apply wp_bind.
  eapply wp_mono; [rate_limit_frame| |done].
  intros licenseLimit w2 [_ [H2 _ _ _]]. rewrite H1 in H2.
  assert (license_effect (tbl_license w) (tbl_license w2)) as Hnone2
    by by apply effect_none.
  destruct (success licenseLimit); simpl; [|by apply wp_ret].
  apply wp_bind, wp_prisma. intros fs Hfs. split; [done|]. simpl.
  destruct (find_by_key (tbl_license w2) _) as [[i l]|] eqn:Hfind.
  2: { apply wp_bind. eapply wp_mono; [apply logValidation_frame| |done].
       intros [] w3 (_ & H3 & _). apply wp_ret. by rewrite H3. }
  apply find_by_key_lookup in Hfind as [Hl _]. rewrite H2 in Hl.
  destruct (isBanned l).
  { apply wp_bind. eapply wp_mono; [apply logValidation_frame| |done].
    intros [] w3 (_ & H3 & _). apply wp_ret. by rewrite H3. }
  apply wp_bind, wp_Date_now.
  destruct (bool_decide _ || expired_at _ _).
  { apply wp_bind. eapply wp_mono; [apply logValidation_frame| |done].
    intros [] w3 (_ & H3 & _). apply wp_ret. by rewrite H3. }
  apply wp_bind.
  eapply wp_mono; [apply checkDeviceBinding_spec| |by intros w3 ->].
  intros deviceCheck w3 [H3 Hfirst]. simpl in H3, Hfirst. rewrite H2 in H3, Hfirst.
  apply wp_bind.
  eapply wp_mono with
    (Q := λ _ w', license_effect (tbl_license w) (tbl_license w'))
    (E := λ w', license_effect (tbl_license w) (tbl_license w')).
  - destruct (isFirstActivation deviceCheck).
    + destruct (Hfirst eq_refl) as (l0 & Hl0 & Hunbound).
      rewrite Hl in Hl0. injection Hl0 as <-.
      apply wp_bind.
      eapply wp_mono; [apply bindDevice_spec| |done].
      intros [] w4 [_ Hbind]; simpl in Hbind; simpl.
      2: { apply wp_ret. rewrite Hbind, H3. by apply effect_none. }
      destruct Hbind as (l0 & l' & Hl0 & Hw4 & Hcount & Hmax & Hfp' & _).
      rewrite H3, Hl in Hl0. injection Hl0 as <-.
      apply wp_bind. eapply wp_mono; [apply logValidation_frame| |done].
      intros [] w5 (_ & H5 & _). apply wp_ret. rewrite H5, Hw4, H3.
      eapply effect_update; [exact Hl|done|done|].
      right. split; [done|]. split; [|by right].
      rewrite Hfp'. simpl. by apply truthy_default.
    + destruct (negb (isValid deviceCheck)).
      * apply wp_bind. eapply wp_mono; [apply logValidation_frame| |done].
        intros [] w4 (_ & H4 & _). apply wp_ret. rewrite H4, H3.
        by apply effect_none.
      * apply wp_bind, wp_Date_now, wp_bind.
        eapply wp_mono; [apply license_update_spec| |].
        -- intros [] w4 (_ & l0 & Hl0 & Hw4).
           rewrite H3, Hl in Hl0. injection Hl0 as <-.
           apply wp_bind. eapply wp_mono; [apply logValidation_frame| |done].
           intros [] w5 (_ & H5 & _). apply wp_ret. rewrite H5, Hw4, H3.
           eapply effect_update; [exact Hl|done|done|]. by left.
        -- intros w4 [_ Hw4]. rewrite Hw4, H3. by apply effect_none.
  - intros [response|] w4 Heffect; [by apply wp_ret|].
    apply wp_bind. unfold signAccessToken. eapply wp_of_eq; [apply SignJWT_run|].
    unfold webConfig_findFirst.
    apply wp_bind, wp_prisma. intros fs4 Hfs4. split; [done|]. simpl.
    by apply wp_ret.
  - done.
Qed.

Lemma deviceSwap_effect (req : Request Body) (w : World) :
  wp (deviceSwap_POST req)
     (λ _ w', license_effect (tbl_license w) (tbl_license w')) (λ _, False) w.
Proof.
  unfold deviceSwap_POST. apply wp_try_catch.
  eapply wp_mono with
    (Q := λ _ w', license_effect (tbl_license w) (tbl_license w'))
    (E := λ w', license_effect (tbl_license w) (tbl_license w'));
    [|done|by intros; apply wp_ret].
  assert (license_effect (tbl_license w) (tbl_license w)) as Hnone
    by by apply effect_none.
  unfold req_json.
  destruct (json req) as [body|]; [|by apply wp_bind, wp_throw].
  apply wp_bind, wp_ret.
  destruct (parseSignedRequest body) as [request|]; [|by apply wp_ret].
  apply wp_bind, wp_getenv, wp_bind, wp_Date_now.
  destruct (negb _ || negb _); [by apply wp_ret|].
  destruct (payload request) as [|p]; [by apply wp_throw|].
  destruct (truthy (p !! "licenseKey")); simpl; [|by apply wp_ret].
  destruct (truthy (p !! "newBrowserFingerprint")) eqn:Hfp; simpl; [|by apply wp_ret].
  apply wp_bind.
  eapply wp_mono; [rate_limit_frame| |done].
  intros rateLimit w1 [_ [H1 _ _ _]].
  assert (license_effect (tbl_license w) (tbl_license w1)) as Hnone1
    by by apply effect_none.
  destruct (success rateLimit); simpl; [|by apply wp_bind, wp_Date_now, wp_ret].
  apply wp_bind, wp_prisma. intros fs Hfs. split; [done|]. simpl.
  destruct (find_by_key (tbl_license w1) _) as [[i l]|] eqn:Hfind; [|by apply wp_ret].
  destruct (isBanned l || negb _); [by apply wp_ret|].
  apply wp_bind.
  eapply wp_mono; [apply requestDeviceSwap_spec| |by intros w2 ->].
  intros result w2 Hswap. simpl in Hswap. rewrite H1 in Hswap.
  assert (license_effect (tbl_license w) (tbl_license w2)) as Heffect.
  { destruct Hswap as [-> | (l0 & l' & Hl0 & Hbound & Hroom & -> & Hcount & Hmax & Hfp')];
      [by apply effect_none|].
    eapply effect_update; [exact Hl0|done|done|].
    right. split; [done|]. split; [|by left].
    rewrite Hfp'. simpl. by apply truthy_default. }
  destruct (negb (swap_success result)); by apply wp_ret.
Qed.

Lemma extensionActivate_effect (req : Request Json) (w : World) :
  wp (extensionActivate_POST req)
     (λ _ w', license_effect (tbl_license w) (tbl_license w')) (λ _, False) w.
Proof.
  unfold extensionActivate_POST. apply wp_try_catch.
  eapply wp_mono with
    (Q := λ _ w', license_effect (tbl_license w) (tbl_license w'))
    (E := λ w', license_effect (tbl_license w) (tbl_license w'));
    [|done|by intros; apply wp_ret].
  apply wp_bind.
  eapply wp_mono; [rate_limit_frame| |done].
  intros rateLimit w1 [_ [H1 _ _ _]].
  assert (license_effect (tbl_license w) (tbl_license w1)) as Hnone1
    by by apply effect_none.
  destruct (success rateLimit); simpl; [|by apply wp_ret].
  unfold req_json.
  destruct (json req) as [body|]; [|by apply wp_bind, wp_throw].
  apply wp_bind, wp_ret.
  destruct (ActivateSchema_safeParse body) as [parsed|] eqn:Hparsed; [|by apply wp_ret].
  assert (truthy (Some (ap_browserFingerprint parsed)) = true) as Htruthy.
  { unfold ActivateSchema_safeParse in Hparsed.
    destruct body as [|f]; [done|].
    destruct (f !! "licenseKey") as [k|]; [|done].
    destruct (f !! "browserFingerprint") as [b|]; [|done].
    destruct (min_length 10 k) eqn:Hk, (min_length 5 b) eqn:Hb; try done.
    injection Hparsed as <-. simpl. by eapply min_length_truthy; [|exact Hb]; lia. }
  simpl.
  apply wp_bind, wp_prisma. intros fs Hfs. split; [done|]. simpl.
  destruct (find_by_key (tbl_license w1) _) as [[i l]|] eqn:Hfind; [|by apply wp_ret].
  apply find_by_key_lookup in Hfind as [Hl _]. rewrite H1 in Hl.
  destruct (isBanned l); [by apply wp_ret|].
  case_bool_decide; [by apply wp_ret|].
  apply wp_bind, wp_Date_now.
  destruct (expired_at _ _).
  { apply wp_bind.
    eapply wp_mono; [apply license_update_spec| |].
    - intros [] w2 (_ & l0 & Hl0 & Hw2). simpl in Hl0, Hw2.
      rewrite H1, Hl in Hl0. injection Hl0 as <-.
      apply wp_ret. rewrite Hw2, H1.
      eapply effect_update; [exact Hl|done|done|]. by left.
    - intros w2 [_ Hw2]. simpl in Hw2. by rewrite Hw2. }
  unfold validationLog_groupBy_fingerprint.
  apply wp_bind, wp_prisma. intros fs2 Hfs2. split; [done|]. simpl.
  destruct (negb _ && _); [by apply wp_ret|].
  apply wp_bind.
  eapply wp_mono with
    (Q := λ _ w', license_effect (tbl_license w) (tbl_license w'))
    (E := λ w', license_effect (tbl_license w) (tbl_license w')).
  - case_bool_decide; [|by apply wp_ret].
    eapply wp_mono; [apply license_update_spec| |].
    + intros [] w2 (_ & l0 & Hl0 & Hw2). simpl in Hl0, Hw2.
      rewrite H1, Hl in Hl0. injection Hl0 as <-.
      rewrite Hw2, H1.
      eapply effect_update; [exact Hl|done|done|]. by left.
    + intros w2 [_ Hw2]. simpl in Hw2. by rewrite Hw2.
  - intros [] w2 Heffect.
    unfold validationLog_create.
    apply wp_bind, wp_prisma. intros fs3 Hfs3. split; [done|]. simpl.
    apply wp_bind. unfold signAccessToken. eapply wp_of_eq; [apply SignJWT_run|].
    apply wp_bind. unfold signRefreshToken. eapply wp_of_eq; [apply SignJWT_run|].
    by apply wp_ret.
  - done.
Qed.

(** ** The validation route behind its gates *)

Ltac validate_through_gates H :=
  destruct H as (body & request & r1 & w1 & r2 & k & Hip & Hok1 & Hjson & Hparse
                 & Hsecret & Hverify & Hpayload & Hkey & Hkt & Hfp & Hver & Hlic
                 & Hok2 & Hfaults & Hfind & Hbanned);
  destruct (rate_limit_run_frame _ _ _ _ _ _ Hip) as [Hf1 Hs1];
  destruct (rate_limit_run_frame _ _ _ _ _ _ Hlic) as [Hf2 Hs2];
  pose proof (frame_no_faults _ _ (frame_trans _ _ _ Hf1 Hf2) Hfaults) as Hfaults2;
  pose proof (proj1 (find_by_key_lookup _ _ _ _ Hfind)) as Hrow;
  unfold validate_POST; apply wp_try_catch, wp_bind;
  eapply wp_of_eq; [exact Hip|]; rewrite Hok1; simpl;
  unfold req_json; rewrite Hjson; apply wp_bind, wp_ret; rewrite Hparse;
  apply wp_bind, wp_getenv; rewrite (frame_api _ _ Hf1), Hsecret; simpl;
  apply wp_bind, wp_Date_now; rewrite (frame_clock _ _ Hf1), Hverify; simpl;
  rewrite Hpayload, Hkt, Hfp, Hver, Hkey; simpl;
  apply wp_bind; eapply wp_of_eq; [exact Hlic|]; rewrite Hok2; simpl;
  apply wp_bind, wp_prisma_ok; [exact Hfaults2|];
  rewrite (same_license _ _ Hs2), (same_license _ _ Hs1), Hfind, Hbanned;
  apply wp_bind, wp_Date_now;
  rewrite (frame_clock _ _ Hf2), (frame_clock _ _ Hf1).

(** What the validation route does with a license whose expiry date has
    passed: it answers [LICENSE_EXPIRED] and writes nothing to the license. *)
Lemma validate_expired (req : Request Body) (w w2 : World)
    (p : gmap string string) (i : string) (l : License) :
  passes_validate_gates req w w2 p i l →
  expired_at (clock w) (expiresAt l) = true →
  wp (validate_POST req)
     (λ r w', r = Failure 403 (Some "LICENSE_EXPIRED") "Your license has expired"
                    (ExpiresAt (expiresAt l))
              ∧ tbl_license w' = tbl_license w)
     (λ _, False) w.
Proof.
  intros Hgates Hexpired. validate_through_gates Hgates.
  rewrite Hexpired, orb_true_r.
  apply wp_bind. eapply wp_mono; [apply logValidation_frame| |done].
  intros [] w3 (_ & H3 & _). apply wp_ret. split; [done|].
  by rewrite H3, (same_license _ _ Hs2), (same_license _ _ Hs1).
Qed.

(** [checkDeviceBinding] on a license bound to another device: the error
    code tells whether activations are left. *)
Lemma checkDeviceBinding_mismatch (id : string) (fingerprint : DeviceFingerprint)
    (w : World) (l : License) :
  faults w = [] →
  tbl_license w !! id = Some l →
  truthy (browserFingerprint l) = true →
  browserFingerprint l ≠ Some (df_browserFingerprint fingerprint) →
  checkDeviceBinding id fingerprint w
  = Ok {| isValid := false; isFirstActivation := false;
          canSwap := activationCount l <? maxActivations l;
          swapsRemaining := Z.max 0 (maxActivations l - activationCount l);
          boundDevice := or_undefined (deviceName l);
          errorCode := Some (if activationCount l <? maxActivations l
                             then DEVICE_MISMATCH else MAX_ACTIVATIONS_REACHED) |} w.
Proof.
  intros Hfaults Hl Hbound Hother.
  unfold checkDeviceBinding, license_findUnique_id, prisma, mbind, Async_bind.
  rewrite Hfaults, Hl, Hbound. simpl.
  by rewrite bool_decide_eq_false_2.
Qed.

(** C2 (what the code does): behind the gates of the validation route, a
    request whose fingerprint is not the one bound to the license is answered
    with the code [DEVICE_MISMATCH] whether or not activations are left; the
    exhausted quota only shows in [canSwap = false] and [swapsRemaining = 0].
    The license table is not written. *)
Theorem validate_mismatch_response (req : Request Body) (w w2 : World)
    (p : gmap string string) (i : string) (l : License) :
  passes_validate_gates req w w2 p i l →
  status l = ACTIVE →
  expired_at (clock w) (expiresAt l) = false →
  truthy (browserFingerprint l) = true →
  browserFingerprint l ≠ p !! "browserFingerprint" →
  ∃ w', validate_POST req w
        = Ok (Failure 403 (Some "DEVICE_MISMATCH")
                "This license is bound to another device"
                (MismatchDetails
                   (or_else (or_undefined (deviceName l)) "Unknown Device")
                   (activationCount l <? maxActivations l)
                   (Z.max 0 (maxActivations l - activationCount l)))) w'
        ∧ tbl_license w' = tbl_license w.
Proof.
  intros Hgates Hstatus Hfresh Hbound Hother.
  assert (wp (validate_POST req)
            (λ r w', r = Failure 403 (Some "DEVICE_MISMATCH")
                           "This license is bound to another device"
                           (MismatchDetails
                              (or_else (or_undefined (deviceName l)) "Unknown Device")
                              (activationCount l <? maxActivations l)
                              (Z.max 0 (maxActivations l - activationCount l)))
                     ∧ tbl_license w' = tbl_license w)
            (λ _, False) w) as Hwp.
  { validate_through_gates Hgates.
    rewrite Hstatus, Hfresh. simpl.
    apply wp_bind.
    eapply wp_of_eq.
    { apply checkDeviceBinding_mismatch with (l := l); simpl; [done| |done|].
      - by rewrite (same_license _ _ Hs2), (same_license _ _ Hs1).
      - destruct (p !! "browserFingerprint") as [b|] eqn:Hb; [|done].
        simpl. congruence. }
    simpl. apply wp_bind, wp_bind.
    eapply wp_mono; [apply logValidation_frame| |done].
    intros [] w3 (_ & H3 & _). apply wp_ret, wp_ret. split; [done|].
    by rewrite H3, (same_license _ _ Hs2), (same_license _ _ Hs1). }
  apply wp_returns in Hwp as (r & w' & Hrun & -> & Htbl). by exists w'.
Qed.

(** C7 (what the code does): behind its gates the validation route answers
    a license whose expiry date has passed with [LICENSE_EXPIRED], and the
    row of the license, its status included, stays as it was. *)
Theorem validate_does_not_persist_expiry (req : Request Body) (w w2 : World)
    (p : gmap string string) (i : string) (l : License) :
  passes_validate_gates req w w2 p i l →
  expired_at (clock w) (expiresAt l) = true →
  ∃ w', validate_POST req w
        = Ok (Failure 403 (Some "LICENSE_EXPIRED") "Your license has expired"
                (ExpiresAt (expiresAt l))) w'
        ∧ tbl_license w' !! i = Some l.
Proof.
  intros Hgates Hexpired.
  destruct (wp_returns _ _ _ (validate_expired req w w2 p i l Hgates Hexpired))
    as (r & w' & Hrun & -> & Htbl).
  exists w'. split; [done|]. rewrite Htbl.
  destruct Hgates as (? & ? & ? & ? & ? & k & H).
  destruct H as (_ & _ & _ & _ & _ & _ & _ & _ & _ & _ & _ & _ & _ & _ & Hfind & _).
  by apply find_by_key_lookup in Hfind as [? _].
Qed.

(** The extension activation route, in the same situation, writes the
    status [EXPIRED] before it answers. *)
Lemma extensionActivate_persists_expiry (req : Request Json) (w w1 : World)
    (r1 : RateLimitResult) (body : Json) (parsed : ActivatePayload)
    (i : string) (l : License) :
  checkIpRateLimit (getClientIp (headers req)) w = Ok r1 w1 →
  success r1 = true →
  json req = Some body →
  ActivateSchema_safeParse body = Some parsed →
  faults w = [] →
  find_by_key (tbl_license w) (ap_licenseKey parsed) = Some (i, l) →
  isBanned l = false →
  status l ≠ EXPIRED →
  expired_at (clock w) (expiresAt l) = true →
  ∃ w', extensionActivate_POST req w
        = Ok (Failure 403 None "This license has expired." NoDetails) w'
        ∧ tbl_license w' = <[i := set_status EXPIRED l]> (tbl_license w).
Proof.
  intros Hip Hok Hjson Hparsed Hfaults Hfind Hbanned Hstatus Hexpired.
  destruct (rate_limit_run_frame _ _ _ _ _ _ Hip) as [Hf1 Hs1].
  pose proof (frame_no_faults _ _ Hf1 Hfaults) as Hfaults1.
  pose proof (proj1 (find_by_key_lookup _ _ _ _ Hfind)) as Hrow.
  assert (wp (extensionActivate_POST req)
            (λ r w', r = Failure 403 None "This license has expired." NoDetails
                     ∧ tbl_license w'
                       = <[i := set_status EXPIRED l]> (tbl_license w))
            (λ _, False) w) as Hwp.
  { unfold extensionActivate_POST. apply wp_try_catch, wp_bind.
    eapply wp_of_eq; [exact Hip|]. rewrite Hok. simpl.
    unfold req_json. rewrite Hjson. apply wp_bind, wp_ret. rewrite Hparsed. simpl.
    apply wp_bind, wp_prisma_ok; [exact Hfaults1|].
    rewrite (same_license _ _ Hs1), Hfind, Hbanned.
    rewrite bool_decide_eq_false_2 by done.
    apply wp_bind, wp_Date_now. rewrite (frame_clock _ _ Hf1), Hexpired.
    unfold license_update.
    apply wp_bind, wp_prisma_ok; [exact Hfaults1|].
    rewrite (same_license _ _ Hs1), Hrow. by apply wp_ret. }
  apply wp_returns in Hwp as (r & w' & Hrun & -> & Htbl). by exists w'.
Qed.

(** ** The activation quota *)

(** Behind its gates the validation route binds the device of the request to
    a license without a bound device, and counts the activation, without
    looking at the quota. *)
Lemma validate_first_activation (req : Request Body) (w w2 : World)
    (p : gmap string string) (i : string) (l : License) :
  passes_validate_gates req w w2 p i l →
  status l ≠ EXPIRED →
  expired_at (clock w) (expiresAt l) = false →
  truthy (browserFingerprint l) = false →
  wp (validate_POST req)
     (λ r w', is_success r = true
              ∧ ∃ l', tbl_license w' = <[i := l']> (tbl_license w)
                      ∧ activationCount l' = activationCount l + 1
                      ∧ maxActivations l' = maxActivations l)
     (λ _, False) w.
Proof.
  intros Hgates Hstatus Hfresh Hunbound. validate_through_gates Hgates.
  rewrite bool_decide_eq_false_2 by done. rewrite Hfresh. simpl.
  unfold checkDeviceBinding, license_findUnique_id.
  apply wp_bind, wp_bind, wp_prisma_ok; [done|].
  rewrite (same_license _ _ Hs2), (same_license _ _ Hs1), Hrow, Hunbound. simpl.
  apply wp_ret. simpl.
  unfold bindDevice, license_update.
  apply wp_bind, wp_bind, wp_try_catch, wp_bind, wp_Date_now, wp_bind.
  apply wp_prisma_ok; [done|]. simpl.
  rewrite (same_license _ _ Hs2), (same_license _ _ Hs1), Hrow.
  apply wp_ret. simpl.
  unfold logValidation, validationLog_create.
  apply wp_bind, wp_try_catch.
  assert (∀ w3, tbl_license w3
                = <[i := set_lastValidated (Some (clock w2))
                           (Some (getClientIp (headers req)))
                           (set_activationCount (activationCount l + 1)
                              (set_status ACTIVE
                                 (set_deviceName
                                    (Some (or_else
                                             (Some (or_else (p !! "deviceName")
                                                      ("Chrome Extension v"
                                                         +:+ default ""
                                                               (p !! "extensionVersion"))))
                                             "Unknown Device"))
                                    (set_fingerprints
                                       (Some (default "" (p !! "browserFingerprint")))
                                       (unless_undefined (p !! "hardwareFingerprint")
                                          (hardwareFingerprint l))
                                       l))))]> (tbl_license w) →
                faults w3 = [] →
                wp (accessToken ← signAccessToken
                      {| licenseId := Some i; userId_ := Some (userId l);
                         email := Some (user_email l);
                         iat := None; exp := None |};
                    config ← webConfig_findFirst wc_createdAt;
                    mret (Success (Validated accessToken i (status l)
                                     (expiresAt l) (deviceName l)
                                     (or_else (wc_version <$> config) "1.0.0")
                                     (user_name l) (user_email l))))
                   (λ r w', is_success r = true
                            ∧ ∃ l', tbl_license w' = <[i := l']> (tbl_license w)
                                    ∧ activationCount l' = activationCount l + 1
                                    ∧ maxActivations l' = maxActivations l)
                   (λ _, False) w3) as Hrest.
  { intros w3 Htbl Hno.
    apply wp_bind.
    unfold signAccessToken. eapply wp_of_eq; [apply SignJWT_run|].
    unfold webConfig_findFirst.
    apply wp_bind, wp_prisma_ok; [done|]. apply wp_ret. split; [done|].
    rewrite Htbl. eexists. split; [reflexivity|]. done. }
  destruct (bool_decide (i = "")).
  - apply wp_ret, wp_ret.
    eapply wp_mono; [apply Hrest; done|done|]. by intros; apply wp_ret.
  - apply wp_prisma_ok; [done|]. simpl. apply wp_ret.
    eapply wp_mono; [apply Hrest; done|done|]. by intros; apply wp_ret.
Qed.

(** C1: the first-activation branch of the validation route does not test
    the quota before it counts. Behind the gates of the route, for a
    license that has no bound device and whose activations are used up
    ([activationCount >= maxActivations]), the request is answered with a
    success, the device is bound and one more activation is counted: the
    license is beyond its quota afterwards. *)
Theorem validate_first_activation_ignores_quota (req : Request Body) (w w2 : World)
    (p : gmap string string) (i : string) (l : License) :
  passes_validate_gates req w w2 p i l →
  status l ≠ EXPIRED →
  expired_at (clock w) (expiresAt l) = false →
  truthy (browserFingerprint l) = false →
  maxActivations l ≤ activationCount l →
  ∃ r w' l',
    validate_POST req w = Ok r w'
    ∧ is_success r = true
    ∧ tbl_license w' = <[i := l']> (tbl_license w)
    ∧ activationCount l' = activationCount l + 1
    ∧ maxActivations l' = maxActivations l
    ∧ ¬ within_quota l'.
Proof.
  intros Hgates Hstatus Hfresh Hunbound Hused.
  pose proof (validate_first_activation _ _ _ _ _ _ Hgates Hstatus Hfresh Hunbound)
    as Hwp.
  apply wp_returns in Hwp as (r & w' & Hrun & Hok & l' & Htbl & Hcount & Hmax).
  exists r, w', l'. split_and!; try done.
  unfold within_quota. lia.
Qed.

Lemma license_effect_bindable (T T' : gmap string License) :
  license_effect T T' →
  (∀ i l, T !! i = Some l → bindable l) →
  ∀ i l, T' !! i = Some l → bindable l.
Proof.
  intros [-> | j l0 l' Hl0 -> Hmax Hcases] Hall i l Hl; [by eapply Hall|].
  destruct (decide (j = i)) as [->|Hne].
  - rewrite lookup_insert_eq in Hl. injection Hl as <-.
    destruct (Hall _ _ Hl0) as [Hquota Hroom]. unfold bindable, within_quota in *.
    destruct Hcases as [[Hcount Hkeep] | (Hcount & Hbound & Hguard)].
    + rewrite Hcount, Hmax. split; [done|]. intros Hunbound. apply Hroom.
      destruct (truthy (browserFingerprint l0)); [|done].
      by rewrite Hkeep in Hunbound.
    + rewrite Hcount, Hmax, Hbound. split; [|done].
      destruct Hguard as [Hlt | Hunbound]; [lia|].
      specialize (Hroom Hunbound). lia.
  - rewrite lookup_insert_ne in Hl by done. by eapply Hall.
Qed.

Lemma step_effect (w : World) (c : Call) :
  license_effect (tbl_license w) (tbl_license (step w c)).
Proof.
  unfold step.
  apply (wp_world_of (run_operation (operation c))
           (λ w', license_effect (tbl_license w) (tbl_license w'))
           (set_faults (store_faults c) (set_clock (at_time c) w))).
  destruct (operation c) as [req|req|req|req].
  - exact (activate_effect req _).
  - exact (validate_effect req _).
  - exact (deviceSwap_effect req _).
  - exact (extensionActivate_effect req _).
Qed.

Lemma step_bindable (w : World) (c : Call) :
  all_licenses bindable w → all_licenses bindable (step w c).
Proof.
  intros Hall. unfold all_licenses.
  eapply license_effect_bindable; [apply step_effect|exact Hall].
Qed.

(** What is left of the quota when requests do not overlap: when every
    license is within its quota and still has an activation left while no
    device is bound to it, then after every sequence of activation,
    validation, device swap and extension activation requests handled one
    after another, at any times and whatever the store does, every license
    is within its quota. *)
Theorem quota_kept_from_issuance (calls : list Call) (w : World) :
  all_licenses bindable w →
  all_licenses within_quota (run calls w).
Proof.
  intros Hall.
  assert (all_licenses bindable (run calls w)) as Hrun.
  { revert w Hall. induction calls as [|c calls IH]; intros w Hall; [done|].
    simpl. apply IH. by apply step_bindable. }
  intros i l Hl. by destruct (Hrun i l Hl).
Qed.

(** ** Runs on the sample data *)

Lemma verifyRequest_own_signature (now : Z) (p : Json) (apiSecret : string) :
  verifyRequest now (signRequest now p apiSecret) apiSecret 60000 = true.
Proof.
  rewrite verifyRequest_fresh by (simpl; lia).
  simpl. by rewrite timingSafeEqual_refl.
Qed.

Lemma find_by_key_sample (l : License) (now : Z) :
  key l = sample_key →
  find_by_key (tbl_license (sample_world l now)) sample_key = Some ("lic-1", l).
Proof.
  intros Hkey. unfold find_by_key. simpl.
  rewrite map_to_list_singleton. simpl.
  by rewrite bool_decide_eq_true_2.
Qed.

Lemma sample_passes_validate_gates (l : License) (now : Z) (fingerprint : string) :
  key l = sample_key →
  isBanned l = false →
  fingerprint ≠ "" →
  ∃ w2, passes_validate_gates (signed_call now (validate_payload fingerprint))
          (sample_world l now) w2 (validate_payload fingerprint) "lic-1" l.
Proof.
  intros Hkey Hbanned Hfp.
  unfold passes_validate_gates.
  destruct (checkIpRateLimit "unknown" (sample_world l now)) as [r1 w1|] eqn:Hip;
    [|by vm_compute in Hip].
  destruct (checkLicenseRateLimit sample_key w1) as [r2 w2|] eqn:Hlic;
    [|by vm_compute in Hip; injection Hip as <- <-; vm_compute in Hlic].
  exists w2, (signed_body now (validate_payload fingerprint)),
    (signRequest now (JsObject (validate_payload fingerprint)) "api-secret"),
    r1, w1, r2, sample_key.
  split_and!.
  - exact Hip.
  - vm_compute in Hip. by injection Hip as <- <-.
  - reflexivity.
  - reflexivity.
  - reflexivity.
  - apply verifyRequest_own_signature.
  - reflexivity.
  - reflexivity.
  - reflexivity.
  - unfold validate_payload. rewrite lookup_insert_ne by done.
    rewrite lookup_insert_eq. simpl. by rewrite bool_decide_eq_false_2.
  - reflexivity.
  - exact Hlic.
  - vm_compute in Hip. injection Hip as <- <-.
    vm_compute in Hlic. by injection Hlic as <- <-.
  - reflexivity.
  - by apply find_by_key_sample.
  - done.
Qed.

(** A license without a bound device whose quota is already used up: the
    validation route binds the device and counts a second activation. *)
Lemma validate_exceeds_quota :
  let l := sample_license INACTIVE None 1 1 None in
  let w := sample_world l 1000 in
  let c := {| operation := Validate (signed_call 1000 (validate_payload "device-B"));
              at_time := 1000; store_faults := [] |} in
  all_licenses within_quota w
  ∧ ∃ l', tbl_license (step w c) !! "lic-1" = Some l'
          ∧ activationCount l' = 2 ∧ maxActivations l' = 1.
Proof.
  intros l w c. split.
  - intros i l0 Hl0. subst w. simpl in Hl0.
    apply lookup_singleton_Some in Hl0 as [_ <-].
    unfold within_quota. simpl. lia.
  - destruct (sample_passes_validate_gates l 1000 "device-B") as [w2 Hgates];
      [done..|].
    pose proof (validate_first_activation _ _ _ _ _ _ Hgates) as Hwp.
    apply (wp_world_of _ (λ w', ∃ l', tbl_license w' !! "lic-1" = Some l'
                                      ∧ activationCount l' = 2
                                      ∧ maxActivations l' = 1)
             (sample_world l 1000)).
    eapply wp_mono; [apply Hwp; done| |done].
    intros r w' (_ & l' & -> & Hcount & Hmax).
    exists l'. by rewrite lookup_insert_eq.
Qed.

Lemma quota_not_kept_by_every_operation : ¬ quota_kept_by_every_operation.
Proof.
  intros Hclaim.
  destruct validate_exceeds_quota as [Hbefore (l' & Hl' & Hcount & Hmax)].
  specialize (Hclaim _ _ Hbefore _ _ Hl').
  unfold within_quota in Hclaim. lia.
Qed.

(** ** The rate limiter as a function of its state *)

Lemma wp_outcome {A} (m : Async A) (Q : A → World → Prop) (E : World → Prop)
    (w : World) :
  wp m Q E w
  ↔ match m w with
    | Ok a w' => Q a w'
    | Throw w' => E w'
    end.
Proof. with_strategy transparent [wp] (unfold wp). done. Qed.

Lemma after_store_call_suffix (w : World) :
  ∃ fs, fs `suffix_of` faults w ∧ after_store_call w = set_faults fs w.
Proof.
  unfold after_store_call. destruct (faults w) as [|b fs] eqn:Hf.
  - exists []. split; [done|]. by rewrite <- Hf, set_faults_same.
  - exists fs. split; [by apply suffix_cons_r|done].
Qed.

Lemma getFromSupabase_run (k : string) (w : World) :
  getFromSupabase k w
  = Ok (match faults w with
        | true :: _ => None
        | _ => match tbl_rateLimit w !! k with
               | Some r => if resetAt r <? clock w then None else Some r
               | None => None
               end
        end) (after_store_call w).
Proof.
  unfold getFromSupabase, after_store_call, try_catch, mbind, Async_bind, prisma,
    Date_now, mret, Async_ret.
  destruct (faults w) as [|[] fs]; simpl; try done;
    (destruct (tbl_rateLimit w !! k) as [[c r]|]; simpl; [|done];
     by destruct (r <? clock w)).
Qed.

(** One call of [checkRateLimit] counts one request on [window_entry]. *)
Lemma checkRateLimit_counts (identifier prefix : string) (config : RateLimitConfig)
    (w : World) :
  let k := prefix +:+ ":" +:+ identifier in
  let e := bump (window_entry config k w) in
  wp (checkRateLimit identifier config prefix)
     (λ r w', r = result_of_entry config e ∧ rate_step k e w w')
     (λ _, False) w.
Proof.
  intros k e. subst e. unfold checkRateLimit. fold k.
  apply wp_bind, wp_Date_now, wp_bind, wp_cache_get. cbv zeta. apply wp_bind.
  set (stored := match stored_window k w with
                 | Some d => d
                 | None => {| count := 0; resetAt := clock w + windowMs config |}
                 end).
  assert (wp (dbEntry ← getFromSupabase k;
              match dbEntry with
              | Some d =>
                  if resetAt d >? clock w then cache_set k d;; mret d
                  else
                    let e := {| count := 0; resetAt := clock w + windowMs config |} in
                    cache_set k e;; saveToSupabase k e;; mret e
              | None =>
                  let e := {| count := 0; resetAt := clock w + windowMs config |} in
                  cache_set k e;; saveToSupabase k e;; mret e
              end)
             (λ entry w1,
                wp (cache_set k (bump entry);; saveToSupabase k (bump entry);;
                    mret (result_of_entry config (bump entry)))
                   (λ r w', r = result_of_entry config (bump stored)
                            ∧ rate_step k (bump stored) w w')
                   (λ _, False) w1)
             (λ _, False) w) as Hstored.
  { apply wp_bind. eapply wp_of_eq; [apply getFromSupabase_run|].
    destruct (after_store_call_suffix w) as (fs & Hfs & ->).
    subst stored. unfold stored_window.
    destruct (faults w) as [|[] fs0] eqn:Hf; simpl;
      try (by apply new_window_then_count; rewrite Hf);
      (destruct (tbl_rateLimit w !! k) as [d|]; simpl;
       [|by apply new_window_then_count; rewrite Hf];
       destruct (Z.ltb_spec (resetAt d) (clock w));
       destruct (Z.gtb_spec (resetAt d) (clock w)); try lia;
       try (by apply new_window_then_count; rewrite Hf);
       by apply db_entry_then_count; rewrite Hf). }
  unfold window_entry, cached_window.
  destruct (rateLimitCache w !! k) as [c|] eqn:Hc; [|exact Hstored].
  destruct (resetAt c <? clock w) eqn:Hexp; [exact Hstored|].
  apply wp_ret.
  apply (count_and_store k config c w);
    [by left|by left|apply frame_refl|apply same_tables_refl].
Qed.

Lemma checkRateLimit_run (identifier prefix : string) (config : RateLimitConfig)
    (w : World) :
  let k := prefix +:+ ":" +:+ identifier in
  let e := bump (window_entry config k w) in
  ∃ w', checkRateLimit identifier config prefix w = Ok (result_of_entry config e) w'
        ∧ rate_step k e w w'.
Proof.
  intros k e.
  destruct (wp_returns _ _ _ (checkRateLimit_counts identifier prefix config w))
    as (r & w' & Hrun & -> & Hstep).
  by exists w'.
Qed.

(** Two worlds in which a key has the same live windows, at the same time,
    get the same answer. *)
Lemma same_windows_same_answer (identifier prefix : string) (config : RateLimitConfig)
    (w w' : World) :
  let k := prefix +:+ ":" +:+ identifier in
  clock w' = clock w →
  cached_window k w' = cached_window k w →
  stored_window k w' = stored_window k w →
  ∃ r wa wb,
    checkRateLimit identifier config prefix w = Ok r wa
    ∧ checkRateLimit identifier config prefix w' = Ok r wb.
Proof.
  intros k Hclock Hcached Hstored.
  destruct (checkRateLimit_run identifier prefix config w) as (wa & Ha & _).
  destruct (checkRateLimit_run identifier prefix config w') as (wb & Hb & _).
  fold k in Ha, Hb.
  eexists _, wa, wb. split; [exact Ha|]. rewrite Hb.
  unfold window_entry. by rewrite Hcached, Hstored, Hclock.
Qed.

Lemma window_entry_live (config : RateLimitConfig) (k : string) (w : World) :
  0 ≤ windowMs config → clock w ≤ resetAt (window_entry config k w).
Proof.
  intros Hwindow. unfold window_entry, cached_window, stored_window.
  destruct (rateLimitCache w !! k) as [c|].
  - destruct (Z.ltb_spec (resetAt c) (clock w)); [|done].
    destruct (faults w) as [|[] ?]; simpl; try lia;
      (destruct (tbl_rateLimit w !! k) as [d|]; simpl; [|lia];
       destruct (Z.gtb_spec (resetAt d) (clock w)); simpl; lia).
  - destruct (faults w) as [|[] ?]; simpl; try lia;
      (destruct (tbl_rateLimit w !! k) as [d|]; simpl; [|lia];
       destruct (Z.gtb_spec (resetAt d) (clock w)); simpl; lia).
Qed.


(** X2: when the first read of the store fails instead, the stored window is
    forgotten: the request opens a new window and is counted as its first,
    whatever the store holds. *)
Theorem store_outage_at_cold_start_opens_new_window
    (identifier prefix : string) (config : RateLimitConfig) (w : World)
    (fs : list bool) :
  let k := prefix +:+ ":" +:+ identifier in
  rateLimitCache w !! k = None →
  faults w = true :: fs →
  ∃ w', checkRateLimit identifier config prefix w
        = Ok {| success := 1 <=? limit config; r_limit := limit config;
                remaining := Z.max 0 (limit config - 1);
                reset := clock w + windowMs config |} w'
        ∧ rateLimitCache w' !! k
          = Some {| count := 1; resetAt := clock w + windowMs config |}.
Proof.
  intros k Hcache Hfaults.
  destruct (checkRateLimit_run identifier prefix config w) as (w' & Hrun & Hstep & _).
  fold k in Hrun, Hstep.
  assert (window_entry config k w
          = {| count := 0; resetAt := clock w + windowMs config |}) as Hentry.
  { unfold window_entry, cached_window, stored_window. by rewrite Hcache, Hfaults. }
  rewrite Hentry in Hrun, Hstep.
  exists w'. split; [exact Hrun|]. by rewrite Hstep, lookup_insert_eq.
Qed.

(** X3: for a window length that is not negative, the reset time
    [checkRateLimit] reports is never before the call, the remaining count
    is never negative, and a refused request is told that nothing remains. *)
Theorem rate_limit_result_bounds
    (identifier prefix : string) (config : RateLimitConfig) (w : World) :
  0 ≤ windowMs config →
  ∃ r w', checkRateLimit identifier config prefix w = Ok r w'
          ∧ clock w ≤ reset r
          ∧ 0 ≤ remaining r
          ∧ (success r = false → remaining r = 0).
Proof.
  intros Hwindow.
  destruct (checkRateLimit_run identifier prefix config w) as (w' & Hrun & _).
  eexists _, w'. split; [exact Hrun|]. simpl. split_and!.
  - by apply window_entry_live.
  - lia.
  - intros Hdenied%Z.leb_gt. lia.
Qed.

(** X4: the periodic sweep of the in-process cache never changes an answer: a
    call made at or after the time of a sweep is answered as if the sweep
    had not happened. *)
Theorem cache_sweep_is_invisible
    (identifier prefix : string) (config : RateLimitConfig) (w : World) (t : Z) :
  clock w ≤ t →
  ∃ r w1 w2,
    checkRateLimit identifier config prefix (set_clock t w) = Ok r w1
    ∧ checkRateLimit identifier config prefix (set_clock t (world_of (cleanup w)))
      = Ok r w2.
Proof.
  intros Ht. apply same_windows_same_answer; [done| |done].
  unfold cached_window. simpl.
  destruct (rateLimitCache w !! _) as [c|] eqn:Hc.
  - destruct (Z.ltb_spec (resetAt c) (clock w)) as [Hdead|Hlive].
    + rewrite map_lookup_filter_None_2.
      * by replace (resetAt c <? t) with true by lia.
      * right. intros x Hx. rewrite Hc in Hx. injection Hx as <-. simpl.
        replace (resetAt c <? clock w) with true by lia. done.
    + erewrite map_lookup_filter_Some_2; [done|exact Hc|]. simpl.
      by replace (resetAt c <? clock w) with false by lia.
  - rewrite map_lookup_filter_None_2; [done|by left].
Qed.

(** X5: requests counted under one key never change the answer for another
    key: the call for [id2] is answered the same whether or not a call for
    [id1] came before it. *)
Theorem rate_limits_are_per_key
    (id1 prefix1 : string) (config1 : RateLimitConfig)
    (id2 prefix2 : string) (config2 : RateLimitConfig)
    (w : World) (fs : list bool) (t : Z) :
  prefix1 +:+ ":" +:+ id1 ≠ prefix2 +:+ ":" +:+ id2 →
  ∃ r wa wb,
    checkRateLimit id2 config2 prefix2 (set_faults fs (set_clock t w)) = Ok r wa
    ∧ checkRateLimit id2 config2 prefix2
        (set_faults fs (set_clock t (world_of (checkRateLimit id1 config1 prefix1 w))))
      = Ok r wb.
Proof.
  intros Hkeys.
  destruct (checkRateLimit_run id1 prefix1 config1 w)
    as (w1 & -> & Hcache & Htbl & _).
  simpl. apply same_windows_same_answer; [done| |].
  - unfold cached_window. simpl. by rewrite Hcache, lookup_insert_ne.
  - unfold stored_window. simpl.
    destruct Htbl as [-> | (c & ->)]; [done|]. by rewrite lookup_insert_ne.
Qed.

(** ** The keep-alive job *)

Lemma swept_refl (w : World) : swept w w.
Proof.
  split_and!; [apply frame_refl|apply same_tables_refl|done|by left].
Qed.

Lemma swept_set_faults (w : World) (fs : list bool) :
  fs `suffix_of` faults w → swept w (set_faults fs w).
Proof.
  intros Hfs. split_and!; [by apply frame_set_faults|by split|done|by left].
Qed.

Lemma keepAlive_effect (CRON_SECRET : option string) (req : Request unit) (w : World) :
  wp (keepAlive_GET CRON_SECRET req) (λ _ w', swept w w') (λ _, False) w.
Proof.
  unfold keepAlive_GET. apply wp_try_catch.
  eapply wp_mono with (Q := λ _ w', swept w w') (E := λ w', swept w w');
    [|done|by intros; apply wp_ret].
  destruct (negb _); [apply wp_ret, swept_refl|].
  unfold ping, license_count_active, rateLimit_deleteMany_before.
  apply wp_bind, wp_prisma. intros fs1 Hfs1.
  split; [by apply swept_set_faults|]. simpl.
  apply wp_bind, wp_prisma. intros fs2 Hfs2. simpl in Hfs2.
  assert (fs2 `suffix_of` faults w) as Hfs2' by by etrans.
  split; [by apply (swept_set_faults w)|]. simpl.
  apply wp_bind, wp_Date_now, wp_bind, wp_prisma. intros fs3 Hfs3. simpl in Hfs3.
  assert (fs3 `suffix_of` faults w) as Hfs3' by by etrans.
  split; [by apply (swept_set_faults w)|]. simpl.
  apply wp_bind, wp_Date_now, wp_ret.
  split_and!; [by split|by split|done|by right].
Qed.

(** X6: the keep-alive job never changes an answer of the rate limiter: a call
    made at or after the time of the job is answered as if the job had not
    run, whether it was authorised or not and whatever the store did. *)
Theorem keepAlive_is_invisible_to_rate_limit
    (CRON_SECRET : option string) (req : Request unit)
    (identifier prefix : string) (config : RateLimitConfig)
    (w : World) (fs : list bool) (t : Z) :
  clock w ≤ t →
  ∃ r wa wb,
    checkRateLimit identifier config prefix (set_faults fs (set_clock t w)) = Ok r wa
    ∧ checkRateLimit identifier config prefix
        (set_faults fs (set_clock t (world_of (keepAlive_GET CRON_SECRET req w))))
      = Ok r wb.
Proof.
  intros Ht.
  pose proof (wp_world_of _ _ _ (keepAlive_effect CRON_SECRET req w))
    as (_ & _ & Hcache & Htbl).
  apply same_windows_same_answer; [done| |].
  - unfold cached_window. simpl. by rewrite Hcache.
  - unfold stored_window. simpl.
    destruct Htbl as [-> | ->]; [done|].
    destruct fs as [|[] ?]; [|done|];
      (destruct (tbl_rateLimit w !! _) as [d|] eqn:Hd;
       [|by rewrite map_lookup_filter_None_2; [|left]];
       destruct (decide (resetAt d < clock w)) as [Hdead|Hlive];
       [rewrite map_lookup_filter_None_2;
        [by replace (resetAt d >? t) with false by lia|];
        right; intros x Hx; rewrite Hd in Hx; injection Hx as <-; simpl; lia
       |by erewrite map_lookup_filter_Some_2; [|exact Hd|]]).
Qed.

(** X7: an authorised keep-alive run over a store that answers reports the
    time, the number of active licenses and the number of elapsed rate-limit
    rows, and leaves exactly the rows that have not elapsed; licenses and
    the in-process cache are not touched. *)
Theorem keepAlive_sweeps_expired_rows
    (CRON_SECRET : option string) (req : Request unit) (w : World) :
  headers req "authorization" = Some (bearer_of CRON_SECRET) →
  faults w = [] →
  ∃ w', keepAlive_GET CRON_SECRET req w
        = Ok (CronDone (clock w)
                (size (filter (λ row, status row.2 = ACTIVE) (tbl_license w)))
                (size (filter (λ row, resetAt row.2 < clock w) (tbl_rateLimit w)))) w'
        ∧ (∀ k e, tbl_rateLimit w' !! k = Some e
                  ↔ tbl_rateLimit w !! k = Some e ∧ clock w ≤ resetAt e)
        ∧ rateLimitCache w' = rateLimitCache w
        ∧ tbl_license w' = tbl_license w.
Proof.
  intros Hauth Hfaults.
  unfold keepAlive_GET, try_catch, ping, license_count_active,
    rateLimit_deleteMany_before, prisma, Date_now, mbind, Async_bind, mret, Async_ret.
  rewrite Hauth, bool_decide_eq_true_2 by done. simpl. rewrite Hfaults. simpl.
  rewrite Hfaults. simpl. rewrite Hfaults. simpl.
  eexists. split; [reflexivity|]. simpl. split_and!; [|done|done].
  intros k e. rewrite map_lookup_filter_Some. simpl. split; intros [? ?]; split; [done|lia|done|lia].
Qed.

(** ** Signed requests on the wire *)

(** X8: the body a client builds with [signRequest] is read back unchanged by
    [parseSignedRequest] and verifies at every instant of the replay window:
    from the time it was signed until [maxAge] milliseconds later. *)
Theorem signed_request_is_accepted_throughout_window
    (now later : Z) (p : Json) (apiSecret : string) (maxAge : Z) :
  now ≤ later ≤ now + maxAge →
  parseSignedRequest (body_of_request (signRequest now p apiSecret))
  = Some (signRequest now p apiSecret)
  ∧ verifyRequest later (signRequest now p apiSecret) apiSecret maxAge = true.
Proof.
  intros Hwindow. split; [done|].
  rewrite verifyRequest_fresh by (simpl; lia).
  simpl. by rewrite timingSafeEqual_refl.
Qed.

Lemma hex_value_upper (c : ascii) : hex_value (upper_char c) = hex_value c.
Proof. by destruct c as [[] [] [] [] [] [] [] []]. Qed.

Lemma hex_decode_upper (l : list ascii) :
  hex_decode (upper_char <$> l) = hex_decode l.
Proof.
  remember (length l) as n eqn:Hn. revert l Hn.
  induction n as [n IH] using lt_wf_ind. intros [|c1 [|c2 l]] ->; try done.
  simpl. rewrite !hex_value_upper.
  destruct (hex_value c1), (hex_value c2); try done.
  f_equal. eapply IH; [|done]. simpl. lia.
Qed.

Lemma list_ascii_of_toUpperCase (s : string) :
  list_ascii_of_string (toUpperCase s) = upper_char <$> list_ascii_of_string s.
Proof. induction s as [|c s IH]; [done|]. simpl. by rewrite IH. Qed.

(** X9: the signature is compared as bytes decoded from hexadecimal, so its
    letter case does not matter: the envelope with the signature in upper
    case is accepted exactly when the original is. *)
Theorem verifyRequest_ignores_signature_case
    (now : Z) (request : SignedRequest) (apiSecret : string) (maxAge : Z) :
  verifyRequest now (with_signature (toUpperCase (signature request)) request)
    apiSecret maxAge
  = verifyRequest now request apiSecret maxAge.
Proof.
  unfold verifyRequest, with_signature, Buffer_from_hex. simpl.
  by rewrite list_ascii_of_toUpperCase, hex_decode_upper.
Qed.

Lemma list_ascii_of_append (s1 s2 : string) :
  list_ascii_of_string (s1 +:+ s2)
  = (list_ascii_of_string s1 ++ list_ascii_of_string s2)%list.
Proof. induction s1 as [|c s1 IH]; [done|]. simpl. by rewrite IH. Qed.

Lemma length_list_ascii_of_string (s : string) :
  length (list_ascii_of_string s) = String.length s.
Proof. induction s as [|c s IH]; [done|]. simpl. by rewrite IH. Qed.

Lemma hex_decode_odd_tail (l : list ascii) (c : ascii) :
  Nat.Even (length l) → hex_decode (l ++ [c])%list = hex_decode l.
Proof.
  remember (length l) as n eqn:Hn. revert l Hn.
  induction n as [n IH] using lt_wf_ind. intros [|c1 [|c2 l]] -> Heven.
  - done.
  - destruct Heven as [m Hm]. simpl in Hm. lia.
  - simpl. destruct (hex_value c1), (hex_value c2); try done.
    f_equal. eapply IH; [|done|]; [simpl; lia|].
    destruct Heven as [m Hm]. simpl in Hm. exists (m - 1)%nat. lia.
Qed.

(** X10: a character appended to a signature of even length is dropped by the
    hexadecimal decoding: the longer envelope is accepted exactly when the
    original is. *)
Theorem verifyRequest_ignores_odd_trailing_character
    (now : Z) (request : SignedRequest) (apiSecret : string) (maxAge : Z)
    (c : ascii) :
  Nat.Even (String.length (signature request)) →
  verifyRequest now
    (with_signature (signature request +:+ String c EmptyString) request)
    apiSecret maxAge
  = verifyRequest now request apiSecret maxAge.
Proof.
  intros Heven.
  unfold verifyRequest, with_signature, Buffer_from_hex. simpl.
  rewrite list_ascii_of_append. simpl.
  rewrite hex_decode_odd_tail; [done|].
  by rewrite length_list_ascii_of_string.
Qed.

(** ** Bearer tokens and client addresses *)

Lemma substring_all (s : string) : substring 0 (String.length s) s = s.
Proof. induction s as [|c s IH]; [done|]. simpl. by rewrite IH. Qed.

(** X11: [extractBearerToken] returns a token exactly for the headers that are
    the word [Bearer], one space and the token; the scheme is matched with
    its capital letter. *)
Theorem extractBearerToken_spec (authHeader : option string) (token : string) :
  extractBearerToken authHeader = Some token
  ↔ authHeader = Some ("Bearer " +:+ token).
Proof.
  unfold extractBearerToken, startsWith. split.
  - destruct authHeader as [h|]; [|done].
    case_bool_decide as Hprefix; [|done]. intros [= <-]. f_equal.
    do 7 (destruct h as [|? h]; [done|]).
    simpl in Hprefix. injection Hprefix as -> -> -> -> -> -> -> _.
    simpl. by rewrite Nat.sub_0_r, substring_all.
  - intros ->. simpl. change ("" +:+ token) with token.
    replace (substring 0 0 token) with "" by by destruct token.
    rewrite bool_decide_eq_true_2 by done.
    by rewrite Nat.sub_0_r, substring_all.
Qed.

(** The client address is never the empty string: a missing or blank
    [x-forwarded-for] falls back to [x-real-ip], and a missing or empty one
    to [unknown]. *)
Theorem getClientIp_is_never_empty (headers : Headers) : getClientIp headers ≠ "".
Proof.
  unfold getClientIp, or_undefined, or_else, truthy.
  destruct (headers "x-forwarded-for") as [xff|]; simpl.
  - case_bool_decide as Hblank; simpl.
    + destruct (headers "x-real-ip") as [ip|]; [|done]. by case_bool_decide.
    + done.
  - destruct (headers "x-real-ip") as [ip|]; [|done]. by case_bool_decide.
Qed.

(** ** License keys: what a key depends on *)

Lemma hex_value_high (b : byte) :
  hex_value (upper_char (hex_char (Byte.to_N b / 16))) = Some (Byte.to_N b / 16)%N.
Proof. by destruct b. Qed.

Lemma hex_value_low (b : byte) :
  hex_value (upper_char (hex_char (Byte.to_N b mod 16))) = Some (Byte.to_N b mod 16)%N.
Proof. by destruct b. Qed.

Lemma byte_of_hex_digits (b b' : byte) :
  upper_char (hex_char (Byte.to_N b / 16)) = upper_char (hex_char (Byte.to_N b' / 16)) →
  upper_char (hex_char (Byte.to_N b mod 16)) = upper_char (hex_char (Byte.to_N b' mod 16)) →
  b = b'.
Proof.
  intros Hhigh%(f_equal hex_value) Hlow%(f_equal hex_value).
  rewrite !hex_value_high in Hhigh. rewrite !hex_value_low in Hlow.
  injection Hhigh as Hhigh. injection Hlow as Hlow.
  assert (Byte.to_N b = Byte.to_N b') as Hn.
  { rewrite (N.div_mod (Byte.to_N b) 16), (N.div_mod (Byte.to_N b') 16) by done.
    by rewrite Hhigh, Hlow. }
  apply (inj Some). by rewrite <- !Byte.of_to_N, Hn.
Qed.

(** X12: of the twelve random bytes only the first eight reach the key, and
    they can be read back from it: two draws give the same key exactly when
    their first eight bytes agree. *)
Theorem license_key_is_fixed_by_first_eight_bytes (bytes bytes' : list byte) :
  length bytes = 12%nat →
  length bytes' = 12%nat →
  generateLicenseKey bytes = generateLicenseKey bytes' ↔ take 8 bytes = take 8 bytes'.
Proof.
  intros Hlen Hlen'.
  do 12 (destruct bytes as [|? bytes]; [discriminate Hlen|]).
  destruct bytes; [|discriminate Hlen].
  do 12 (destruct bytes' as [|? bytes']; [discriminate Hlen'|]).
  destruct bytes'; [|discriminate Hlen'].
  unfold generateLicenseKey, toString_hex, byte_to_hex.
  cbv -[hex_char upper_char N.div N.modulo Byte.to_N].
  split.
  - intros Hkey. injection Hkey as ?? ?? ?? ?? ?? ?? ?? ??.
    repeat f_equal; by apply byte_of_hex_digits.
  - intros Htake. by injection Htake as -> -> -> -> -> -> -> ->.
Qed.

Lemma regex_test_matches (pattern : list atom) (key : string) :
  regex_test pattern key = true →
  Forall2 (λ a c, atom_matches a c = true) pattern (list_ascii_of_string key).
Proof.
  revert key. induction pattern as [|a pattern IH]; intros [|c key]; simpl; try done.
  intros [Ha Hrest]%andb_prop. constructor; [done|by apply IH].
Qed.

Lemma toUpperCase_fixed (pattern : list atom) (key : string) :
  Forall (λ a, ∀ c, atom_matches a c = true → upper_char c = c) pattern →
  Forall2 (λ a c, atom_matches a c = true) pattern (list_ascii_of_string key) →
  toUpperCase key = key.
Proof.
  revert key. induction pattern as [|a pattern IH]; intros [|c key] Hstable Hmatch;
    try done; [by inversion Hmatch..|].
  simpl in *. apply Forall_cons in Hstable as [Ha Hstable].
  apply Forall2_cons in Hmatch as [Hc Hmatch].
  by rewrite (Ha c Hc), (IH key).
Qed.

Lemma upper_or_digit_fixed (c : ascii) :
  atom_matches UpperOrDigit c = true → upper_char c = c.
Proof. by destruct c as [[] [] [] [] [] [] [] []]. Qed.

(** X13: a key that passes [isValidLicenseKeyFormat] has 22 characters, starts
    with [SH-] and holds no lower-case letter. *)
Theorem valid_license_key_shape (key : string) :
  isValidLicenseKeyFormat key = true →
  String.length key = 22%nat
  ∧ substring 0 3 key = "SH-"
  ∧ toUpperCase key = key.
Proof.
  intros Hmatch%regex_test_matches.
  split_and!.
  - rewrite <- length_list_ascii_of_string.
    by rewrite <- (Forall2_length _ _ _ Hmatch).
  - unfold license_key_pattern, literal in Hmatch. simpl in Hmatch.
    do 3 (destruct key as [|? key]; simpl in Hmatch; [by inversion Hmatch|];
          apply Forall2_cons in Hmatch as [->%bool_decide_eq_true_1 Hmatch]).
    simpl. by destruct key.
  - eapply toUpperCase_fixed; [|exact Hmatch].
    unfold license_key_pattern, literal. simpl.
    repeat constructor;
      (intros c Hc; first [by apply upper_or_digit_fixed
                          |by apply bool_decide_eq_true_1 in Hc as ->]).
Qed.

(** ** Logger *)

Lemma lookup_redact (fields : gmap string LogValue) (key : string) :
  match redact (LogObject fields) with
  | LogObject fields' =>
      fields' !! key
      = (λ value, if bool_decide (key ∈ redactFields) then REDACTED
                  else redact value) <$> fields !! key
  | LogLeaf _ => False
  end.
Proof. simpl. rewrite map_lookup_imap. by destruct (fields !! key). Qed.

(** X14: whatever is logged, no field with one of the sensitive names survives
    at any depth: what [redact] returns holds the marker there. *)
Theorem redact_hides_sensitive_fields
    (v : LogValue) (path : list string) (key : string) (x : LogValue) :
  key ∈ redactFields →
  lookup_path (path ++ [key]) (redact v) = Some x →
  x = REDACTED.
Proof.
  intros Hkey. revert v.
  induction path as [|k path IH]; intros [p|fields]; try done.
  - pose proof (lookup_redact fields key) as Hlookup.
    simpl in *. rewrite Hlookup, bool_decide_eq_true_2 by done.
    destruct (fields !! key); simpl; [by intros [= <-]|done].
  - pose proof (lookup_redact fields k) as Hlookup.
    simpl in *. rewrite Hlookup.
    destruct (fields !! k) as [v|]; simpl; [|done].
    case_bool_decide; [by destruct path|apply IH].
Qed.

(** X15: along a path without sensitive names [redact] changes nothing but what
    lies deeper: the value found there is the redaction of the original one,
    and a value that is not an object is the original. *)
Theorem redact_keeps_other_fields (v : LogValue) (path : list string) :
  Forall (λ key, key ∉ redactFields) path →
  lookup_path path (redact v) = redact <$> lookup_path path v.
Proof.
  revert v. induction path as [|k path IH]; intros v Hpath; [done|].
  apply Forall_cons in Hpath as [Hk Hpath].
  destruct v as [p|fields]; [done|].
  pose proof (lookup_redact fields k) as Hlookup.
  simpl in *. rewrite Hlookup, bool_decide_eq_false_2 by done.
  destruct (fields !! k) as [v|]; simpl; [by apply IH|done].
Qed.

Lemma depth_field (fields : gmap string LogValue) (key : string) (v : LogValue) :
  fields !! key = Some v → (depth v < depth (LogObject fields))%nat.
Proof.
  simpl. revert key v.
  induction fields as [|i x m Hi IH] using map_ind; intros key v Hkey.
  - by rewrite lookup_empty in Hkey.
  - rewrite map_fold_insert_L; [|intros; lia|done].
    destruct (decide (i = key)) as [->|Hne].
    + rewrite lookup_insert_eq in Hkey. injection Hkey as ->. lia.
    + rewrite lookup_insert_ne in Hkey by done. specialize (IH _ _ Hkey). lia.
Qed.

Lemma LogValue_induction (P : LogValue → Prop) :
  (∀ p, P (LogLeaf p)) →
  (∀ fields, map_Forall (λ _, P) fields → P (LogObject fields)) →
  ∀ v, P v.
Proof.
  intros Hleaf Hobject v.
  remember (depth v) as n eqn:Hn. revert v Hn.
  induction n as [n IH] using lt_wf_ind. intros [p|fields] ->; [done|].
  apply Hobject. intros key v Hkey. eapply IH; [|done]. by eapply depth_field.
Qed.

(** X16: redacting twice is redacting once. *)
Theorem redact_is_idempotent (v : LogValue) : redact (redact v) = redact v.
Proof.
  induction v as [p|fields IH] using LogValue_induction; [done|].
  simpl. f_equal. apply map_eq. intros key.
  rewrite !map_lookup_imap.
  destruct (fields !! key) as [v|] eqn:Hv; simpl; [|done].
  case_bool_decide; [done|]. f_equal. by eapply IH.
Qed.

(** ** Device binding: checks, bindings and swaps *)

(** X17: [checkDeviceBinding] only reads: whether it answers or the store fails,
    the world is the one it started in, one store call later. It finds the
    device valid exactly when the license exists and is either not bound yet
    (a first activation) or bound to the fingerprint asked about, and it
    offers a swap exactly when it reports [DEVICE_MISMATCH]. *)
Theorem checkDeviceBinding_only_reads
    (id : string) (fingerprint : DeviceFingerprint) (w : World) :
  match checkDeviceBinding id fingerprint w with
  | Ok r w' =>
      w' = after_store_call w
      ∧ (isFirstActivation r = true
         ↔ ∃ l, tbl_license w !! id = Some l
                ∧ truthy (browserFingerprint l) = false)
      ∧ (isValid r = true
         ↔ ∃ l, tbl_license w !! id = Some l
                ∧ (truthy (browserFingerprint l) = false
                   ∨ browserFingerprint l = Some (df_browserFingerprint fingerprint)))
      ∧ (canSwap r = true ↔ errorCode r = Some DEVICE_MISMATCH)
      ∧ (isValid r = true → errorCode r = None)
  | Throw w' => w' = after_store_call w ∧ head (faults w) = Some true
  end.
Proof.
  unfold checkDeviceBinding, license_findUnique_id, prisma, after_store_call,
    mbind, Async_bind, mret, Async_ret.
  destruct (faults w) as [|[] fs]; simpl; [|done|];
    (destruct (tbl_license w !! id) as [l|]; simpl;
     [|split_and!; try done; split; try done; by intros (? & ? & ?)];
     destruct (truthy (browserFingerprint l)) eqn:Hbound; simpl;
     [case_bool_decide as Hsame; simpl|];
     split_and!; try done; try (by destruct (_ <? _));
     (split;
      [first [done
             |intros _; exists l; split; [done|]; first [done|by left|by right]]
      |first [done
             |intros (l0 & [= <-] & H); first [congruence|destruct H; congruence]]])).
Qed.

(** X18: [bindDevice] never throws. When it answers [true], exactly the row of
    the license has changed: it is bound to the fingerprint, [ACTIVE], one
    activation further and stamped with the time of the call, with its key,
    quota, ban and expiry as before. When it answers [false] (no such
    license, or the store failed) nothing was written. *)
Theorem bindDevice_reports_its_effect
    (id : string) (fingerprint : DeviceFingerprint) (name ip : option string)
    (w : World) :
  ∃ ok w',
    bindDevice id fingerprint name ip w = Ok ok w'
    ∧ if ok then
        ∃ l l', tbl_license w !! id = Some l
                ∧ w' = set_tbl_license (<[id := l']> (tbl_license w)) (after_store_call w)
                ∧ browserFingerprint l' = Some (df_browserFingerprint fingerprint)
                ∧ status l' = ACTIVE
                ∧ activationCount l' = activationCount l + 1
                ∧ lastValidatedAt l' = Some (clock w)
                ∧ deviceName l' = Some (or_else name "Unknown Device")
                ∧ key l' = key l ∧ maxActivations l' = maxActivations l
                ∧ isBanned l' = isBanned l ∧ expiresAt l' = expiresAt l
      else w' = after_store_call w.
Proof.
  unfold bindDevice, license_update, try_catch, prisma, after_store_call, Date_now,
    mbind, Async_bind, mret, Async_ret.
  destruct (faults w) as [|[] fs]; simpl.
  - destruct (tbl_license w !! id) as [l|] eqn:Hl; eexists _, _; (split; [done|]);
      [|done].
    simpl. eexists l, _. split_and!; done.
  - by eexists _, _.
  - destruct (tbl_license w !! id) as [l|] eqn:Hl; eexists _, _; (split; [done|]);
      [|done].
    simpl. eexists l, _. split_and!; done.
Qed.

Lemma or_else_truthy (o : option string) (fallback : string) :
  fallback ≠ "" → or_undefined (Some (or_else o fallback)) = Some (or_else o fallback).
Proof.
  intros Hfallback.
  assert (or_else o fallback ≠ "") as Hfilled.
  { unfold or_else. destruct o as [s|]; [case_bool_decide|]; done. }
  unfold or_undefined, truthy. by rewrite bool_decide_eq_false_2.
Qed.

(** X19: binding and checking agree: over a store that answers, after
    [bindDevice] has bound a fingerprint that is not empty, the binding
    check accepts that fingerprint (not as a first activation) and names the
    device, and it refuses every other fingerprint, with [DEVICE_MISMATCH]
    while activations are left and [MAX_ACTIVATIONS_REACHED] when not. *)
Theorem bound_device_passes_the_binding_check
    (id : string) (fingerprint : DeviceFingerprint) (name ip : option string)
    (w : World) (l : License) :
  faults w = [] →
  tbl_license w !! id = Some l →
  df_browserFingerprint fingerprint ≠ "" →
  ∃ w1,
    bindDevice id fingerprint name ip w = Ok true w1
    ∧ checkDeviceBinding id fingerprint w1
      = Ok {| isValid := true; isFirstActivation := false; canSwap := false;
              swapsRemaining := maxActivations l - (activationCount l + 1);
              boundDevice := Some (or_else name "Unknown Device");
              errorCode := None |} w1
    ∧ ∀ other,
        df_browserFingerprint other ≠ df_browserFingerprint fingerprint →
        ∃ r, checkDeviceBinding id other w1 = Ok r w1
             ∧ isValid r = false ∧ isFirstActivation r = false
             ∧ errorCode r
               = Some (if activationCount l + 1 <? maxActivations l
                       then DEVICE_MISMATCH else MAX_ACTIVATIONS_REACHED).
Proof.
  intros Hfaults Hl Hfp.
  unfold bindDevice, checkDeviceBinding, license_update, license_findUnique_id,
    try_catch, prisma, Date_now, mbind, Async_bind, mret, Async_ret.
  rewrite Hfaults, Hl. simpl. eexists. split; [done|]. simpl.
  rewrite Hfaults, lookup_insert_eq. simpl.
  rewrite (bool_decide_eq_false_2 (_ = "")) by done. simpl.
  split.
  - rewrite bool_decide_eq_true_2 by done.
    by rewrite or_else_truthy.
  - intros other Hother. eexists. split.
    + rewrite bool_decide_eq_false_2 by congruence.
      by rewrite or_else_truthy.
    + done.
Qed.

(** X20: what [requestDeviceSwap] reports is what it did. A refusal names its
    reason and writes nothing. A success appends the log row of the swap,
    whose place it returns, with the fingerprint that was replaced, and
    re-binds the license, counting one activation; it is only granted to a
    bound license with an activation left. If the store fails on the way,
    no license has changed. *)
Theorem requestDeviceSwap_reports_its_effect
    (id : string) (newFingerprint : DeviceFingerprint) (ip : string)
    (reason : option string) (w : World) :
  match requestDeviceSwap id newFingerprint ip reason w with
  | Ok r w' =>
      if swap_success r then
        ∃ l l',
          tbl_license w !! id = Some l
          ∧ truthy (browserFingerprint l) = true
          ∧ activationCount l < maxActivations l
          ∧ swapLogId r = Some (length (tbl_deviceSwapLog w))
          ∧ tbl_deviceSwapLog w'
            = (tbl_deviceSwapLog w
                 ++ [{| sl_licenseId := id;
                        sl_oldBrowserFingerprint := default "" (browserFingerprint l);
                        sl_newBrowserFingerprint := df_browserFingerprint newFingerprint;
                        sl_ipAddress := ip; sl_reason := reason;
                        sl_approved := true |}])%list
          ∧ tbl_license w' = <[id := l']> (tbl_license w)
          ∧ browserFingerprint l' = Some (df_browserFingerprint newFingerprint)
          ∧ activationCount l' = activationCount l + 1
          ∧ maxActivations l' = maxActivations l
          ∧ status l' = status l
      else
        tbl_license w' = tbl_license w
        ∧ tbl_deviceSwapLog w' = tbl_deviceSwapLog w
        ∧ swap_error r
          = Some match tbl_license w !! id with
                 | None => "License not found"
                 | Some l =>
                     if truthy (browserFingerprint l)
                     then "Maximum device swaps reached"
                     else "No device bound to this license"
                 end
  | Throw w' => tbl_license w' = tbl_license w
  end.
Proof.
  apply wp_outcome. unfold requestDeviceSwap, license_findUnique_id.
  apply wp_bind, wp_prisma. intros fs Hfs. split; [done|]. simpl.
  destruct (tbl_license w !! id) as [l|] eqn:Hl; [|by apply wp_ret].
  destruct (truthy (browserFingerprint l)) eqn:Hbound; simpl; [|by apply wp_ret].
  destruct (Z.geb_spec (activationCount l) (maxActivations l)); [by apply wp_ret|].
  unfold deviceSwapLog_create, license_update.
  apply wp_bind, wp_prisma. intros fs1 Hfs1. split; [done|]. simpl.
  apply wp_bind, wp_Date_now, wp_bind, wp_prisma. intros fs2 Hfs2.
  split; [done|]. simpl. rewrite Hl.
  apply wp_ret. simpl. eexists l, _. split_and!; done.
Qed.

(** X21: swapping and checking agree: over a store that answers, a swap for a
    bound license with an activation left succeeds, and afterwards the
    binding check accepts the new fingerprint (if it is not empty) with one
    swap less remaining, and no longer the old one. *)
Theorem swapped_device_passes_the_binding_check
    (id : string) (newFingerprint : DeviceFingerprint) (ip : string)
    (reason : option string) (w : World) (l : License) (old : string) :
  faults w = [] →
  tbl_license w !! id = Some l →
  browserFingerprint l = Some old →
  old ≠ "" →
  activationCount l < maxActivations l →
  df_browserFingerprint newFingerprint ≠ "" →
  ∃ w1,
    requestDeviceSwap id newFingerprint ip reason w
    = Ok {| swap_success := true; swapLogId := Some (length (tbl_deviceSwapLog w));
            swap_error := None |} w1
    ∧ (∃ r, checkDeviceBinding id newFingerprint w1 = Ok r w1
            ∧ isValid r = true ∧ isFirstActivation r = false
            ∧ swapsRemaining r = maxActivations l - activationCount l - 1)
    ∧ (old ≠ df_browserFingerprint newFingerprint →
       ∃ r, checkDeviceBinding id
              {| df_browserFingerprint := old; df_hardwareFingerprint := None |} w1
            = Ok r w1
            ∧ isValid r = false).
Proof.
  intros Hfaults Hl Hold Hne Hroom Hnew.
  unfold requestDeviceSwap, checkDeviceBinding, license_findUnique_id,
    deviceSwapLog_create, license_update, prisma, Date_now, mbind, Async_bind,
    mret, Async_ret.
  rewrite Hfaults, Hl, Hold. simpl.
  rewrite (bool_decide_eq_false_2 (old = "")) by done. simpl.
  replace (activationCount l >=? maxActivations l) with false by lia.
  rewrite Hfaults. simpl. rewrite Hl. simpl. rewrite Hfaults.
  eexists. split; [done|]. simpl.
  rewrite Hfaults, lookup_insert_eq. simpl.
  rewrite (bool_decide_eq_false_2 (_ = "")) by done. simpl.
  split.
  - eexists. split; [by rewrite bool_decide_eq_true_2|].
    split_and!; [done|done|simpl; lia].
  - intros Hother. eexists. split; [by rewrite bool_decide_eq_false_2 by congruence|].
    done.
Qed.

(** ** Access tokens *)

Lemma jwtVerify_expired (claims : gmap string ClaimValue) (lifetime : Z)
    (secret : string) (now : Z) (w : World) :
  let jwt := signed_token secret claims now lifetime in
  parse_compact (compact jwt) = Some jwt →
  JWT_SECRET w = secret →
  claims !! "nbf" = None →
  now / 1000 + lifetime ≤ clock w / 1000 →
  jwtVerify (compact jwt) JWT_ISSUER JWT_AUDIENCE w = Throw w.
Proof.
  intros jwt Hparse Hsecret Hnbf Hexp.
  unfold jwtVerify, Date_now, getenv, mbind, Async_bind. simpl.
  rewrite Hparse, Hsecret. simpl.
  rewrite (bool_decide_eq_true_2 (_ = HS256 _ _ _)) by done. simpl.
  rewrite !(lookup_insert_ne _ "exp" "iss"), !(lookup_insert_ne _ "aud" "iss") by done.
  rewrite lookup_insert_eq.
  rewrite (bool_decide_eq_true_2 (Some _ = Some _)) by done. simpl.
  rewrite !(lookup_insert_ne _ "exp" "aud") by done.
  rewrite lookup_insert_eq.
  rewrite (bool_decide_eq_true_2 (Some _ = Some _)) by done. simpl.
  rewrite (lookup_insert_ne _ "exp" "iat"), (lookup_insert_ne _ "aud" "iat"),
    (lookup_insert_ne _ "iss" "iat") by done.
  rewrite lookup_insert_eq.
  rewrite (lookup_insert_ne _ "exp" "nbf"), (lookup_insert_ne _ "aud" "nbf"),
    (lookup_insert_ne _ "iss" "nbf"), (lookup_insert_ne _ "iat" "nbf") by done.
  rewrite Hnbf, lookup_insert_eq.
  replace (now / 1000 + lifetime <=? clock w / 1000) with true by lia.
  reflexivity.
Qed.

(** X22: the access token [signAccessToken] issues is accepted by [verifyJWT],
    which returns the identity it was issued for, at every time before the
    3600 seconds of its life are over, and is turned down ([null]) from then
    on. *)
Theorem access_token_verifies_until_it_expires
    (p : JWTPayload) (w : World) (later : Z) :
  let jwt := signed_token (JWT_SECRET w) (payload_claims p) (clock w) 3600 in
  parse_compact (compact jwt) = Some jwt →
  signAccessToken p w = Ok (compact jwt) w
  ∧ verifyJWT (compact jwt) (set_clock later w)
    = Ok (if bool_decide (later / 1000 < clock w / 1000 + 3600)
          then Some {| licenseId := licenseId p; userId_ := userId_ p;
                       email := email p; iat := Some (clock w / 1000);
                       exp := Some (clock w / 1000 + 3600) |}
          else None)
         (set_clock later w).
Proof.
  intros jwt Hparse. split; [reflexivity|].
  unfold verifyJWT, try_catch, mbind, Async_bind. subst jwt.
  case_bool_decide as Hlive.
  - rewrite jwtVerify_signed; try done; [|by apply payload_claims_lookup].
    unfold mret, Async_ret.
    rewrite !signed_token_claim_string by done.
    rewrite payload_claims_licenseId, payload_claims_userId, payload_claims_email.
    by rewrite signed_token_iat, signed_token_exp.
  - rewrite jwtVerify_expired; try done; [by apply payload_claims_lookup|simpl; lia].
Qed.

(** ** Refusals *)

Lemma rate_limit_frame_bounds (identifier prefix : string) (config : RateLimitConfig)
    (w : World) :
  0 ≤ windowMs config →
  wp (checkRateLimit identifier config prefix)
     (λ r w', frame w w' ∧ same_tables w w'
              ∧ clock w ≤ reset r ∧ (success r = false → remaining r = 0))
     (λ _, False) w.
Proof.
  intros Hwindow.
  eapply wp_mono; [apply checkRateLimit_counts| |done].
  intros r w' (-> & _ & _ & Hf & Hs). split_and!; [done|done| |].
  - by apply window_entry_live.
  - simpl. intros Hdenied%Z.leb_gt. lia.
Qed.

Lemma ip_rate_limit_bounds (ip : string) (w : World) :
  wp (checkIpRateLimit ip)
     (λ r w', frame w w' ∧ same_tables w w'
              ∧ clock w ≤ reset r ∧ (success r = false → remaining r = 0))
     (λ _, False) w.
Proof. exact (rate_limit_frame_bounds ip "ip" RATE_LIMITS_IP w ltac:(done)). Qed.

Lemma deviceSwap_rate_limit_bounds (licenseKey : string) (w : World) :
  wp (checkDeviceSwapRateLimit licenseKey)
     (λ r w', frame w w' ∧ same_tables w w'
              ∧ clock w ≤ reset r ∧ (success r = false → remaining r = 0))
     (λ _, False) w.
Proof.
  exact (rate_limit_frame_bounds licenseKey "swap" RATE_LIMITS_DEVICE_SWAP w
           ltac:(done)).
Qed.

Lemma ceil_seconds_nonneg (ms : Z) : 0 ≤ ms → 0 ≤ ceil_seconds ms.
Proof.
  intros Hms. unfold ceil_seconds.
  assert (- ms / 1000 ≤ 0); [|lia].
  apply Z.div_le_upper_bound; lia.
Qed.

(** A leaf of a route: the answer [r] in a world whose tables are those of
    the start. *)
Ltac refusal_leaf :=
  apply wp_ret; split;
  [intros _; split_and!; intros; simpl; congruence
  |intros ? ? ? ? ?; discriminate].

(** A leaf that is not a refusal. *)
Ltac other_leaf :=
  apply wp_ret; split; [by intros ?|intros ? ? ? ? ?; discriminate].

(** A 403 answer after the validation has been logged. *)
Ltac logged_leaf :=
  apply wp_bind; (eapply wp_mono; [apply logValidation_frame| |done]);
  (let Hl := fresh in let Hs := fresh in
   intros [] ? (_ & Hl & Hs); simpl in Hl, Hs); apply wp_ret; split;
  [intros _; split_and!; [congruence|congruence|intros Hne; by destruct Hne]
  |intros ? ? ? ? ?; discriminate].

Lemma validate_refusals (req : Request Body) (w : World) :
  wp (validate_POST req)
     (λ r w', refusal_keeps w r w' ∧ retry_after_sound r) (λ _, False) w.
Proof.
  unfold validate_POST. apply wp_try_catch.
  eapply wp_mono with
    (Q := λ r w', refusal_keeps w r w' ∧ retry_after_sound r) (E := λ _, True);
    [|done|by intros; other_leaf].
  apply wp_bind.
  eapply wp_mono; [apply ip_rate_limit_bounds| |done].
  intros ipLimit w1 ([Hclock1 _ _ _ _] & [Hl1 Hv1 Hs1 _] & Hreset & Hdenied).
  destruct (success ipLimit) eqn:Hok; simpl.
  2: { apply wp_bind, wp_Date_now, wp_ret. split.
       - intros _. split_and!; intros; congruence.
       - intros ? ? ? ? [= <- <- <- <-]. split_and!; [|done|by apply Hdenied].
         apply ceil_seconds_nonneg. lia. }
  unfold req_json.
  destruct (json req) as [body|]; [|by apply wp_bind, wp_throw].
  apply wp_bind, wp_ret.
  destruct (parseSignedRequest body) as [request|]; [|refusal_leaf].
  apply wp_bind, wp_getenv.
  destruct (negb (truthy (API_SECRET w1))); [other_leaf|].
  apply wp_bind, wp_Date_now.
  destruct (negb (verifyRequest _ _ _ _)); [refusal_leaf|].
  destruct (payload request) as [|p]; [by apply wp_throw|].
  destruct (truthy (p !! "licenseKey")); simpl; [|refusal_leaf].
  destruct (truthy (p !! "browserFingerprint")); simpl; [|refusal_leaf].
  destruct (truthy (p !! "extensionVersion")); simpl; [|refusal_leaf].
  apply wp_bind.
  eapply wp_mono; [rate_limit_frame| |done].
  intros licenseLimit w2 [_ [Hl2 Hv2 Hs2 _]].
  rewrite Hl1 in Hl2. rewrite Hv1 in Hv2. rewrite Hs1 in Hs2.
  destruct (success licenseLimit); simpl; [|refusal_leaf].
  apply wp_bind, wp_prisma. intros fs Hfs. split; [done|]. simpl.
  destruct (find_by_key (tbl_license w2) _) as [[i l]|].
  2: { apply wp_bind, wp_try_catch, wp_ret. refusal_leaf. }
  destruct (isBanned l); [logged_leaf|].
  apply wp_bind, wp_Date_now.
  destruct (bool_decide _ || expired_at _ _); [logged_leaf|].
  apply wp_bind.
  eapply wp_mono with
    (Q := λ _ w3, tbl_license w3 = tbl_license w
                  ∧ tbl_deviceSwapLog w3 = tbl_deviceSwapLog w)
    (E := λ _, True); [| |done].
  { unfold checkDeviceBinding, license_findUnique_id.
    apply wp_bind, wp_prisma. intros fs3 Hfs3. split; [done|]. simpl.
    destruct (tbl_license w2 !! i) as [l0|]; [|by apply wp_ret].
    destruct (negb _); [by apply wp_ret|].
    case_bool_decide; by apply wp_ret. }
  intros deviceCheck w3 [Hl3 Hs3].
  apply wp_bind.
  eapply wp_mono with
    (Q := λ early w4, match early with
                      | Some r => refusal_keeps w r w4 ∧ retry_after_sound r
                      | None => True
                      end)
    (E := λ _, True); [| |done].
  - destruct (isFirstActivation deviceCheck).
    + apply wp_bind.
      eapply wp_mono; [apply bindDevice_spec| |done].
      intros [] w4 _; simpl.
      * apply wp_bind.
        eapply wp_mono; [apply logValidation_frame| |done].
        intros [] w5 _. by apply wp_ret.
      * apply wp_ret. split; [by intros ?|intros ? ? ? ? ?; discriminate].
    + destruct (negb (isValid deviceCheck)); [logged_leaf|].
      apply wp_bind, wp_Date_now, wp_bind.
      eapply wp_mono; [apply license_update_spec| |done].
      intros [] w4 _. apply wp_bind.
      eapply wp_mono; [apply logValidation_frame| |done].
      intros [] w5 _. by apply wp_ret.
  - intros [response|] w4 Hearly; [by apply wp_ret|].
    apply wp_bind. unfold signAccessToken. eapply wp_of_eq; [apply SignJWT_run|].
    unfold webConfig_findFirst.
    apply wp_bind, wp_prisma. intros fs4 Hfs4. split; [done|]. simpl.
    other_leaf.
Qed.


Lemma same_tables_set_faults (w0 w : World) (fs : list bool) :
  same_tables w0 w → same_tables w0 (set_faults fs w).
Proof. by intros []. Qed.

(** A leaf of a route in a world whose tables are those of the start. *)
Ltac same_leaf :=
  apply wp_ret; split;
  [intros _; first [done|by apply same_tables_set_faults]
  |intros ? ? ? ? ?; discriminate].

Lemma activate_refusals (req : Request Body) (w : World) :
  wp (activate_POST req)
     (λ r w', (is_refusal r = true → same_tables w w') ∧ retry_after_sound r)
     (λ _, False) w.
Proof.
  unfold activate_POST. apply wp_try_catch.
  eapply wp_mono with
    (Q := λ r w', (is_refusal r = true → same_tables w w') ∧ retry_after_sound r)
    (E := λ _, True);
    [|done|by intros; other_leaf].
  apply wp_bind.
  eapply wp_mono; [rate_limit_frame| |done].
  intros rateLimit w1 [_ Hs1].
  destruct (success rateLimit); simpl; [|same_leaf].
  unfold req_json.
  destruct (json req) as [body|]; [|by apply wp_bind, wp_throw].
  apply wp_bind, wp_ret.
  destruct (parseSignedRequest body) as [request|]; [|same_leaf].
  apply wp_bind, wp_getenv, wp_bind, wp_Date_now.
  destruct (negb _ || negb _); [same_leaf|].
  destruct (ActivatePayloadSchema_safeParse (payload request)) as [parsed|];
    [|same_leaf].
  simpl.
  apply wp_bind, wp_prisma. intros fs Hfs. split; [done|]. simpl.
  destruct (find_by_key (tbl_license w1) _) as [[i l]|]; [|same_leaf].
  destruct (isBanned l); [same_leaf|].
  case_bool_decide.
  { destruct (truthy _ && negb _); [same_leaf|].
    apply wp_bind. unfold signAccessToken. eapply wp_of_eq; [apply SignJWT_run|].
    other_leaf. }
  case_bool_decide; simpl; [|same_leaf].
  destruct (activationCount l >=? maxActivations l); [same_leaf|].
  apply wp_bind.
  eapply wp_mono; [apply bindDevice_spec| |done].
  intros [] w2 _; simpl; [|other_leaf].
  unfold validationLog_create.
  apply wp_bind, wp_prisma. intros fs2 Hfs2. split; [done|]. simpl.
  apply wp_bind. unfold signAccessToken. eapply wp_of_eq; [apply SignJWT_run|].
  apply wp_bind, wp_Date_now. other_leaf.
Qed.

Lemma requestDeviceSwap_refusal (id : string) (newFingerprint : DeviceFingerprint)
    (ip : string) (reason : option string) (w0 w : World) :
  same_tables w0 w →
  wp (requestDeviceSwap id newFingerprint ip reason)
     (λ r w', swap_success r = false → same_tables w0 w') (λ _, True) w.
Proof.
  intros Hsame. unfold requestDeviceSwap, license_findUnique_id.
  apply wp_bind, wp_prisma. intros fs Hfs. split; [done|]. simpl.
  destruct (tbl_license w !! id) as [l|];
    [|by apply wp_ret; intros _; apply same_tables_set_faults].
  destruct (negb _); [by apply wp_ret; intros _; apply same_tables_set_faults|].
  destruct (_ >=? _); [by apply wp_ret; intros _; apply same_tables_set_faults|].
  unfold deviceSwapLog_create, license_update.
  apply wp_bind, wp_prisma. intros fs1 Hfs1. split; [done|]. simpl.
  apply wp_bind, wp_Date_now, wp_bind, wp_prisma. intros fs2 Hfs2.
  split; [done|]. simpl.
  destruct (tbl_license w !! id); [|done]. by apply wp_ret.
Qed.

Lemma deviceSwap_refusals (req : Request Body) (w : World) :
  wp (deviceSwap_POST req)
     (λ r w', (is_refusal r = true → same_tables w w') ∧ retry_after_sound r)
     (λ _, False) w.
Proof.
  unfold deviceSwap_POST. apply wp_try_catch.
  eapply wp_mono with
    (Q := λ r w', (is_refusal r = true → same_tables w w') ∧ retry_after_sound r)
    (E := λ _, True);
    [|done|by intros; other_leaf].
  pose proof (same_tables_refl w) as Hs0.
  unfold req_json.
  destruct (json req) as [body|]; [|by apply wp_bind, wp_throw].
  apply wp_bind, wp_ret.
  destruct (parseSignedRequest body) as [request|]; [|same_leaf].
  apply wp_bind, wp_getenv, wp_bind, wp_Date_now.
  destruct (negb _ || negb _); [same_leaf|].
  destruct (payload request) as [|p]; [by apply wp_throw|].
  destruct (truthy (p !! "licenseKey")); simpl; [|same_leaf].
  destruct (truthy (p !! "newBrowserFingerprint")); simpl; [|same_leaf].
  apply wp_bind.
  eapply wp_mono; [apply deviceSwap_rate_limit_bounds| |done].
  intros rateLimit w1 ([Hclock1 _ _ _ _] & Hs1 & Hreset & Hdenied).
  destruct (success rateLimit) eqn:Hok; simpl.
  2: { apply wp_bind, wp_Date_now, wp_ret. split; [done|].
       intros ? ? ? ? [= <- <- <- <-]. split_and!; [|done|by apply Hdenied].
       apply ceil_seconds_nonneg. lia. }
  apply wp_bind, wp_prisma. intros fs Hfs. split; [done|]. simpl.
  destruct (find_by_key (tbl_license w1) _) as [[i l]|]; [|same_leaf].
  destruct (isBanned l || negb _); [same_leaf|].
  apply wp_bind.
  eapply wp_mono;
    [apply (requestDeviceSwap_refusal _ _ _ _ w); by apply same_tables_set_faults
    | |done].
  intros result w2 Hswap. simpl in Hswap.
  destruct (swap_success result); simpl; [other_leaf|].
  apply wp_ret. split; [by intros _; apply Hswap|intros ? ? ? ? ?; discriminate].
Qed.

(** X23: a request that the activation, validation or device-swap route refuses
    with a 4xx answer has changed no license and logged no swap, whatever
    the store did on the way. (The extension activation route is different:
    it writes the status [EXPIRED] before it refuses an expired license.) *)
Theorem refused_requests_change_no_license
    (o : Operation) (w w' : World) (r : Response) :
  (∀ req, o ≠ ExtensionActivate req) →
  run_operation o w = Ok r w' →
  is_refusal r = true →
  tbl_license w' = tbl_license w
  ∧ tbl_deviceSwapLog w' = tbl_deviceSwapLog w.
Proof.
  intros Hroute Hrun Hrefused.
  destruct o as [req|req|req|req]; simpl in Hrun.
  - destruct (wp_run _ _ _ _ _ _ (activate_refusals req w) Hrun) as [Hkeeps _].
    by destruct (Hkeeps Hrefused).
  - destruct (wp_run _ _ _ _ _ _ (validate_refusals req w) Hrun) as [Hkeeps _].
    by destruct (Hkeeps Hrefused) as (? & ? & _).
  - destruct (wp_run _ _ _ _ _ _ (deviceSwap_refusals req w) Hrun) as [Hkeeps _].
    by destruct (Hkeeps Hrefused).
  - by destruct (Hroute req).
Qed.


(** X25: the delay a rate-limited client is told to wait, by the validation and
    by the device-swap route, is never negative, and comes with a result of
    the limiter that says the request was refused and nothing remains. *)
Theorem retry_after_is_never_negative
    (req : Request Body) (w w' : World) (code : option string) (message : string)
    (seconds : Z) (result : RateLimitResult) :
  validate_POST req w = Ok (Failure 429 code message (RetryAfter seconds result)) w'
  ∨ deviceSwap_POST req w
    = Ok (Failure 429 code message (RetryAfter seconds result)) w' →
  0 ≤ seconds ∧ success result = false ∧ remaining result = 0.
Proof.
  intros [Hrun|Hrun].
  - destruct (wp_run _ _ _ _ _ _ (validate_refusals req w) Hrun) as [_ Hretry].
    by eapply Hretry.
  - destruct (wp_run _ _ _ _ _ _ (deviceSwap_refusals req w) Hrun) as [_ Hretry].
    by eapply Hretry.
Qed.

(** ** Successful validations and activations *)

(** X26: behind its gates, the validation route accepts a request from the
    device the license is bound to: it answers with a fresh access token and
    the license as it was read, stamps the row with the time and address of
    the request, changing nothing else of it (no activation is counted), and
    logs one [SUCCESS] row. *)
Theorem validation_from_bound_device (req : Request Body) (w w2 : World)
    (p : gmap string string) (i : string) (l : License) :
  passes_validate_gates req w w2 p i l →
  status l ≠ EXPIRED →
  expired_at (clock w) (expiresAt l) = false →
  browserFingerprint l = p !! "browserFingerprint" →
  i ≠ "" →
  ∃ w',
    validate_POST req w
    = Ok (Success
            (Validated (access_token_for w i l) i (status l) (expiresAt l)
               (deviceName l)
               (or_else (wc_version <$>
                           latest_by wc_createdAt
                             (filter (λ c, wc_isActive c = true) (tbl_webConfig w)))
                        "1.0.0")
               (user_name l) (user_email l))) w'
    ∧ tbl_license w'
      = <[i := set_lastValidated (Some (clock w)) (Some (getClientIp (headers req))) l]>
          (tbl_license w)
    ∧ tbl_validationLog w'
      = (tbl_validationLog w
           ++ [{| vl_licenseId := i;
                  vl_browserFingerprint := default "" (p !! "browserFingerprint");
                  vl_hardwareFingerprint := p !! "hardwareFingerprint";
                  vl_ipAddress := getClientIp (headers req);
                  vl_userAgent := "Chrome Extension";
                  vl_result := "SUCCESS";
                  vl_failureReason := None;
                  vl_extensionVersion := default "" (p !! "extensionVersion") |}])%list.
Proof.
  intros Hgates Hstatus Hfresh Hbound Hid.
  cut (wp (validate_POST req)
         (λ r w',
            r = Success
                  (Validated (access_token_for w i l) i (status l) (expiresAt l)
                     (deviceName l)
                     (or_else (wc_version <$>
                                 latest_by wc_createdAt
                                   (filter (λ c, wc_isActive c = true)
                                      (tbl_webConfig w)))
                              "1.0.0")
                     (user_name l) (user_email l))
            ∧ tbl_license w'
              = <[i := set_lastValidated (Some (clock w))
                         (Some (getClientIp (headers req))) l]> (tbl_license w)
            ∧ tbl_validationLog w'
              = (tbl_validationLog w
                   ++ [{| vl_licenseId := i;
                          vl_browserFingerprint := default "" (p !! "browserFingerprint");
                          vl_hardwareFingerprint := p !! "hardwareFingerprint";
                          vl_ipAddress := getClientIp (headers req);
                          vl_userAgent := "Chrome Extension";
                          vl_result := "SUCCESS";
                          vl_failureReason := None;
                          vl_extensionVersion :=
                            default "" (p !! "extensionVersion") |}])%list)
         (λ _, False) w).
  { intros Hwp. apply wp_returns in Hwp as (r & w' & Hrun & -> & Hrest).
    by exists w'. }
  validate_through_gates Hgates.
  rewrite bool_decide_eq_false_2 by done. rewrite Hfresh. simpl.
  unfold checkDeviceBinding, license_findUnique_id.
  apply wp_bind, wp_bind, wp_prisma_ok; [done|].
  rewrite (same_license _ _ Hs2), (same_license _ _ Hs1), Hrow.
  rewrite Hbound, Hfp. simpl.
  rewrite bool_decide_eq_true_2 by by destruct (p !! "browserFingerprint").
  apply wp_ret. simpl.
  unfold license_update.
  apply wp_bind, wp_bind, wp_Date_now, wp_bind, wp_prisma_ok; [done|].
  rewrite (same_license _ _ Hs2), (same_license _ _ Hs1), Hrow.
  unfold logValidation, validationLog_create.
  apply wp_bind, wp_try_catch.
  rewrite bool_decide_eq_false_2 by done.
  apply wp_prisma_ok; [done|]. simpl. apply wp_ret.
  apply wp_bind. unfold signAccessToken. eapply wp_of_eq; [apply SignJWT_run|].
  unfold webConfig_findFirst.
  apply wp_bind, wp_prisma_ok; [done|]. apply wp_ret. simpl.
  rewrite (frame_clock _ _ Hf2), (frame_clock _ _ Hf1).
  rewrite (frame_jwt _ _ Hf2), (frame_jwt _ _ Hf1).
  rewrite (frame_webConfig _ _ Hf2), (frame_webConfig _ _ Hf1).
  rewrite (same_validationLog _ _ Hs2), (same_validationLog _ _ Hs1).
  done.
Qed.

Lemma or_else_not_empty (o : option string) (fallback : string) :
  fallback ≠ "" → or_else o fallback ≠ "".
Proof.
  intros Hfallback. unfold or_else. destruct o as [s|]; [case_bool_decide|]; done.
Qed.

(** X27: behind its gates, the activation route activates a license that is
    [INACTIVE] and has an activation left, whatever its expiry date: it
    answers with a fresh access token, and the row is then [ACTIVE], bound to
    the fingerprint of the request and one activation further; one
    [SUCCESS] row is logged. *)
Theorem first_activation_binds_the_device (req : Request Body) (w w1 : World)
    (parsed : ActivatePayload) (i : string) (l : License) :
  passes_activate_gates req w w1 parsed i l →
  status l = INACTIVE →
  activationCount l < maxActivations l →
  ∃ w' l',
    activate_POST req w
    = Ok (Success (Activated (access_token_for w i l) (Some 3600) (key l) ACTIVE
                     (expiresAt l) (clock w))) w'
    ∧ tbl_license w' = <[i := l']> (tbl_license w)
    ∧ status l' = ACTIVE
    ∧ browserFingerprint l' = Some (ap_browserFingerprint parsed)
    ∧ activationCount l' = activationCount l + 1
    ∧ maxActivations l' = maxActivations l
    ∧ deviceName l' = Some (or_else (ap_deviceName parsed) "Chrome Extension")
    ∧ tbl_validationLog w'
      = (tbl_validationLog w
           ++ [{| vl_licenseId := i;
                  vl_browserFingerprint := ap_browserFingerprint parsed;
                  vl_hardwareFingerprint := ap_hardwareFingerprint parsed;
                  vl_ipAddress := getClientIp (headers req);
                  vl_userAgent := or_else (headers req "user-agent") "Chrome Extension";
                  vl_result := "SUCCESS";
                  vl_failureReason := Some "First activation";
                  vl_extensionVersion := "1.0.0" |}])%list.
Proof.
  intros (body & request & r1 & Hip & Hok & Hjson & Hparse & Hsecret & Hverify
          & Hschema & Hfaults & Hfind & Hbanned) Hstatus Hroom.
  destruct (rate_limit_run_frame _ _ _ _ _ _ Hip) as [Hf1 Hs1].
  pose proof (frame_no_faults _ _ Hf1 Hfaults) as Hfaults1.
  pose proof (proj1 (find_by_key_lookup _ _ _ _ Hfind)) as Hrow.
  assert (wp (activate_POST req)
            (λ r w',
               r = Success (Activated (access_token_for w i l) (Some 3600) (key l)
                              ACTIVE (expiresAt l) (clock w))
               ∧ ∃ l', tbl_license w' = <[i := l']> (tbl_license w)
                       ∧ status l' = ACTIVE
                       ∧ browserFingerprint l' = Some (ap_browserFingerprint parsed)
                       ∧ activationCount l' = activationCount l + 1
                       ∧ maxActivations l' = maxActivations l
                       ∧ deviceName l'
                         = Some (or_else (ap_deviceName parsed) "Chrome Extension")
                       ∧ tbl_validationLog w'
                         = (tbl_validationLog w
                              ++ [{| vl_licenseId := i;
                                     vl_browserFingerprint := ap_browserFingerprint parsed;
                                     vl_hardwareFingerprint := ap_hardwareFingerprint parsed;
                                     vl_ipAddress := getClientIp (headers req);
                                     vl_userAgent :=
                                       or_else (headers req "user-agent") "Chrome Extension";
                                     vl_result := "SUCCESS";
                                     vl_failureReason := Some "First activation";
                                     vl_extensionVersion := "1.0.0" |}])%list)
            (λ _, False) w) as Hwp.
  { unfold activate_POST. apply wp_try_catch, wp_bind.
    eapply wp_of_eq; [exact Hip|]. rewrite Hok. simpl.
    unfold req_json. rewrite Hjson. apply wp_bind, wp_ret. rewrite Hparse.
    apply wp_bind, wp_getenv, wp_bind, wp_Date_now.
    rewrite (frame_api _ _ Hf1), (frame_clock _ _ Hf1), Hsecret, Hverify. simpl.
    rewrite Hschema.
    apply wp_bind, wp_prisma_ok; [done|].
    rewrite (same_license _ _ Hs1), Hfind, Hbanned, Hstatus. simpl.
    replace (activationCount l >=? maxActivations l) with false by lia.
    unfold bindDevice, license_update.
    apply wp_bind, wp_try_catch, wp_bind, wp_Date_now, wp_bind.
    apply wp_prisma_ok; [done|].
    rewrite (same_license _ _ Hs1), Hrow. apply wp_ret. simpl.
    unfold validationLog_create.
    apply wp_bind, wp_prisma_ok; [done|]. simpl.
    apply wp_bind. unfold signAccessToken. eapply wp_of_eq; [apply SignJWT_run|].
    apply wp_bind, wp_Date_now, wp_ret. simpl.
    rewrite (frame_clock _ _ Hf1), (frame_jwt _ _ Hf1). split; [done|].
    eexists. split; [reflexivity|]. simpl.
    rewrite (same_validationLog _ _ Hs1).
    split_and!; try done.
    by rewrite bool_decide_eq_false_2 by by apply or_else_not_empty. }
  apply wp_returns in Hwp as (r & w' & Hrun & -> & l' & Hrest).
  by exists w', l'.
Qed.

(** The activation route does test the quota before it binds: behind its
    gates, an [INACTIVE] license whose activations are used up is refused
    with 403 [MAX_ACTIVATIONS], and no license changes. *)
Lemma activate_refuses_exhausted_quota (req : Request Body) (w w1 : World)
    (parsed : ActivatePayload) (i : string) (l : License) :
  passes_activate_gates req w w1 parsed i l →
  status l = INACTIVE →
  maxActivations l ≤ activationCount l →
  ∃ w', activate_POST req w
        = Ok (Failure 403 (Some "MAX_ACTIVATIONS") "Maximum activations reached"
                NoDetails) w'
        ∧ tbl_license w' = tbl_license w.
Proof.
  intros (body & request & r1 & Hip & Hok & Hjson & Hparse & Hsecret & Hverify
          & Hschema & Hfaults & Hfind & Hbanned) Hstatus Hused.
  destruct (rate_limit_run_frame _ _ _ _ _ _ Hip) as [Hf1 Hs1].
  pose proof (frame_no_faults _ _ Hf1 Hfaults) as Hfaults1.
  assert (wp (activate_POST req)
            (λ r w', r = Failure 403 (Some "MAX_ACTIVATIONS")
                           "Maximum activations reached" NoDetails
                     ∧ tbl_license w' = tbl_license w)
            (λ _, False) w) as Hwp.
  { unfold activate_POST. apply wp_try_catch, wp_bind.
    eapply wp_of_eq; [exact Hip|]. rewrite Hok. simpl.
    unfold req_json. rewrite Hjson. apply wp_bind, wp_ret. rewrite Hparse.
    apply wp_bind, wp_getenv, wp_bind, wp_Date_now.
    rewrite (frame_api _ _ Hf1), (frame_clock _ _ Hf1), Hsecret, Hverify. simpl.
    rewrite Hschema.
    apply wp_bind, wp_prisma_ok; [done|].
    rewrite (same_license _ _ Hs1), Hfind, Hbanned, Hstatus. simpl.
    replace (activationCount l >=? maxActivations l) with true by lia.
    apply wp_ret. split; [done|apply Hs1]. }
  apply wp_returns in Hwp as (r & w' & Hrun & -> & Htbl). by exists w'.
Qed.

(** ** The device limit of the extension activation route *)

Lemma device_limit_tables (w w' : World) :
  tbl_license w' = tbl_license w →
  tbl_validationLog w' = tbl_validationLog w →
  within_device_limit w → within_device_limit w'.
Proof.
  intros Hl Hv Hinv i l. rewrite Hl, Hv. apply Hinv.
Qed.

Lemma device_limit_update (w w' : World) (i : string) (l : License)
    (data : License → License) :
  tbl_license w !! i = Some l →
  planType (data l) = planType l →
  tbl_license w' = <[i := data l]> (tbl_license w) →
  tbl_validationLog w' = tbl_validationLog w →
  within_device_limit w → within_device_limit w'.
Proof.
  intros Hrow Hplan Hl Hv Hinv j l'. rewrite Hl, Hv.
  destruct (decide (j = i)) as [->|Hne].
  - rewrite lookup_insert_eq. intros [= <-]. rewrite Hplan. by apply Hinv.
  - rewrite lookup_insert_ne by done. apply Hinv.
Qed.

Lemma devices_of_other (i j : string) (log : list ValidationLog) (row : ValidationLog) :
  vl_licenseId row ≠ j →
  devices_of j (log ++ [row]) = devices_of j log.
Proof.
  intros Hne. unfold devices_of. rewrite filter_app.
  rewrite (filter_cons_False _ row) by done.
  by rewrite filter_nil, app_nil_r.
Qed.

Lemma devices_of_known (log : list ValidationLog) (row : ValidationLog) :
  vl_browserFingerprint row ∈ devices_of (vl_licenseId row) log →
  length (devices_of (vl_licenseId row) (log ++ [row]))
  = length (devices_of (vl_licenseId row) log).
Proof.
  intros Hin. unfold devices_of in *. rewrite filter_app.
  rewrite (filter_cons_True _ row) by done.
  rewrite filter_nil, fmap_app. simpl.
  apply Permutation_length, NoDup_Permutation; [apply NoDup_remove_dups..|].
  intros x. rewrite !elem_of_remove_dups, elem_of_app, list_elem_of_singleton.
  rewrite elem_of_remove_dups in Hin.
  split; [intros [?| ->]; done|by left].
Qed.

Lemma devices_of_new (log : list ValidationLog) (row : ValidationLog) :
  vl_browserFingerprint row ∉ devices_of (vl_licenseId row) log →
  length (devices_of (vl_licenseId row) (log ++ [row]))
  = S (length (devices_of (vl_licenseId row) log)).
Proof.
  intros Hin. unfold devices_of in *. rewrite filter_app.
  rewrite (filter_cons_True _ row) by done.
  rewrite filter_nil, fmap_app. simpl.
  change (S (length ?l)) with (length (vl_browserFingerprint row :: l)).
  apply Permutation_length, NoDup_Permutation.
  - apply NoDup_remove_dups.
  - apply NoDup_cons. split; [done|apply NoDup_remove_dups].
  - intros x. rewrite elem_of_cons, !elem_of_remove_dups, elem_of_app,
      list_elem_of_singleton.
    split; intros [?|?]; [by right|by left|by right|by left].
Qed.

Lemma device_limit_log (w w' : World) (l : License) (row : ValidationLog) :
  tbl_license w !! vl_licenseId row = Some l →
  (vl_browserFingerprint row ∈ devices_of (vl_licenseId row) (tbl_validationLog w)
   ∨ Z.of_nat (length (devices_of (vl_licenseId row) (tbl_validationLog w)))
     < maxDevices (planType l)) →
  tbl_license w' = tbl_license w →
  tbl_validationLog w' = (tbl_validationLog w ++ [row])%list →
  within_device_limit w → within_device_limit w'.
Proof.
  intros Hrow Hroom Hl Hv Hinv j l'. rewrite Hl, Hv. intros Hj.
  destruct (decide (vl_licenseId row = j)) as [<-|Hne].
  - assert (l' = l) as -> by congruence.
    destruct (decide (vl_browserFingerprint row
                        ∈ devices_of (vl_licenseId row) (tbl_validationLog w)))
      as [Hin|Hnew].
    + rewrite devices_of_known by done. by apply Hinv.
    + rewrite devices_of_new by done. destruct Hroom as [?|Hlt]; [done|lia].
  - rewrite (devices_of_other (vl_licenseId row)) by done. by apply Hinv.
Qed.

(** X28: the extension activation route keeps the device limit: when every
    license has logged at most as many distinct fingerprints as its plan
    allows (three for [LIFETIME], two for [ANNUAL], one otherwise), this is
    still so after the request, whatever the request, the answer and the
    faults of the store. *)
Theorem extension_activation_keeps_device_limit (req : Request Json) (w : World) :
  within_device_limit w →
  within_device_limit (world_of (extensionActivate_POST req w)).
Proof.
  intros Hinv. apply wp_world_of.
  unfold extensionActivate_POST. apply wp_try_catch.
  eapply wp_mono with (Q := λ _ w', within_device_limit w')
                      (E := within_device_limit);
    [|done|by intros w' H; apply wp_ret].
  apply wp_bind.
  eapply wp_mono; [rate_limit_frame| |done].
  intros rateLimit w1 [_ Hs1].
  assert (within_device_limit w1) as Hinv1.
  { by apply (device_limit_tables w); [apply Hs1..|]. }
  clear Hinv Hs1.
  destruct (success rateLimit); simpl; [|by apply wp_ret].
  unfold req_json.
  destruct (json req) as [body|]; [|by apply wp_bind, wp_throw].
  apply wp_bind, wp_ret.
  destruct (ActivateSchema_safeParse body) as [parsed|]; [|by apply wp_ret].
  simpl. unfold license_findUnique_key.
  apply wp_bind, wp_prisma. intros fs Hfs. split; [done|]. simpl.
  destruct (find_by_key (tbl_license w1) (ap_licenseKey parsed)) as [[i l]|] eqn:Hfind;
    [|by apply wp_ret].
  apply find_by_key_lookup in Hfind as [Hrow _].
  destruct (isBanned l); [by apply wp_ret|].
  case_bool_decide; [by apply wp_ret|].
  apply wp_bind, wp_Date_now. simpl.
  destruct (expired_at (clock w1) (expiresAt l)).
  { unfold license_update.
    apply wp_bind, wp_prisma. intros fs2 Hfs2. split; [done|]. simpl.
    rewrite Hrow. apply wp_ret.
    by eapply (device_limit_update w1 _ i l (set_status EXPIRED)). }
  unfold validationLog_groupBy_fingerprint.
  apply wp_bind, wp_prisma. intros fs2 Hfs2. split; [done|]. simpl.
  fold (devices_of i (tbl_validationLog w1)).
  fold (maxDevices (planType l)).
  destruct (negb _ && _) eqn:Hlimit; [by apply wp_ret|].
  assert (ap_browserFingerprint parsed ∈ devices_of i (tbl_validationLog w1)
          ∨ Z.of_nat (length (devices_of i (tbl_validationLog w1)))
            < maxDevices (planType l)) as Hroom.
  { apply andb_false_iff in Hlimit as [Hknown|Hlt].
    - left. by apply negb_false_iff, bool_decide_eq_true_1 in Hknown.
    - right. lia. }
  clear Hlimit.
  apply wp_bind.
  apply wp_mono with
    (Q := λ _ w', ∃ l', tbl_license w' !! i = Some l' ∧ planType l' = planType l
                        ∧ tbl_validationLog w' = tbl_validationLog w1
                        ∧ within_device_limit w')
    (E := within_device_limit).
  { case_bool_decide.
    - unfold license_update.
      apply wp_prisma. intros fs3 Hfs3. split; [done|]. simpl. rewrite Hrow.
      eexists. split; [by simpl; rewrite lookup_insert_eq|].
      split; [done|]. split; [done|].
      by eapply (device_limit_update w1 _ i l
                   (λ l, set_fingerprints _ _ (set_status ACTIVE l))).
    - apply wp_ret. by exists l. }
  2: done.
  intros [] w3 (l' & Hrow3 & Hplan & Hlog3 & Hinv3).
  unfold validationLog_create.
  apply wp_bind, wp_prisma. intros fs4 Hfs4.
  split; [by apply (device_limit_tables w3)|]. simpl.
  apply wp_bind. unfold signAccessToken. eapply wp_of_eq; [apply SignJWT_run|].
  apply wp_bind. unfold signRefreshToken. eapply wp_of_eq; [apply SignJWT_run|].
  apply wp_ret.
  eapply (device_limit_log w3 _ l'); [| |reflexivity|reflexivity|done].
  - exact Hrow3.
  - simpl. by rewrite Hlog3, Hplan.
Qed.

(** ** Configuration delivery *)

Lemma latest_by_spec (f : WebConfig → Z) (l : list WebConfig) (c : WebConfig) :
  latest_by f l = Some c → c ∈ l ∧ ∀ c', c' ∈ l → f c' ≤ f c.
Proof.
  unfold latest_by. revert c. induction l as [|a l IH]; intros c; simpl; [done|].
  destruct (foldr _ None l) as [b|] eqn:Hb.
  - destruct (IH b eq_refl) as [Hin Hmax].
    destruct (Z.ltb_spec (f b) (f a)); intros [= <-].
    + split; [left|]. intros c' [->|Hc']%elem_of_cons; [lia|].
      specialize (Hmax _ Hc'). lia.
    + split; [by right|]. intros c' [->|Hc']%elem_of_cons; [lia|by apply Hmax].
  - intros [= <-]. split; [left|].
    destruct l as [|a' l]; [|simpl in Hb; by repeat case_match].
    intros c' [->|Hc']%elem_of_cons; [lia|by apply elem_of_nil in Hc'].
Qed.

Ltac config_leaf :=
  apply wp_ret;
  lazymatch goal with
  | H : same_tables _ _ |- _ => destruct H; simpl; split_and!; congruence
  end.

Lemma config_outcome (req : Request unit) (w : World) :
  wp (config_GET req)
     (λ r w',
        (tbl_license w' = tbl_license w
         ∧ tbl_validationLog w' = tbl_validationLog w
         ∧ tbl_deviceSwapLog w' = tbl_deviceSwapLog w)
        ∧ match r with
          | Success d =>
              ∃ c i l,
                d = ConfigDelivered c
                ∧ bearer_license req = Some i
                ∧ tbl_license w !! i = Some l
                ∧ isBanned l = false ∧ status l = ACTIVE
                ∧ newest_active c w
                ∧ headers req "if-none-match"
                  ≠ Some (String (ascii_of_N 34) EmptyString +:+ wc_checksum c
                          +:+ String (ascii_of_N 34) EmptyString)
                ∧ tbl_configDeliveryLog w'
                  = (tbl_configDeliveryLog w
                       ++ [{| cd_licenseId := i;
                              cd_configVersion := wc_version c;
                              cd_extensionVersion :=
                                or_else (headers req "x-extension-version")
                                        "unknown" |}])%list
          | _ => tbl_configDeliveryLog w' = tbl_configDeliveryLog w
          end)
     (λ _, False) w.
Proof.
  pose proof (same_tables_refl w) as Hs.
  unfold config_GET. apply wp_try_catch.
  eapply wp_mono with (E := λ w', same_tables w w');
    [|by intros r w' H; exact H|by intros w' Hs'; config_leaf].
  destruct (extractBearerToken (headers req "authorization")) as [token|] eqn:Htoken;
    [|config_leaf].
  case_bool_decide; [config_leaf|].
  apply wp_bind. eapply wp_mono; [apply verifyJWT_spec| |done].
  intros decoded w1 [-> Hdec].
  destruct decoded as [decoded|]; [|config_leaf].
  destruct (Hdec _ eq_refl) as (jwt & Hparse & Hlic).
  destruct (licenseId decoded) as [i|] eqn:Hid; simpl; [|config_leaf].
  destruct (negb (negb (bool_decide (i = "")))); [config_leaf|].
  clear Hs.
  apply wp_bind. eapply wp_mono; [rate_limit_frame| |done].
  intros limit w1 [Hf1 Hs1].
  destruct (success limit); simpl; [|config_leaf].
  unfold license_findUnique_id.
  apply wp_bind, wp_prisma. intros fs Hfs.
  split; [by apply same_tables_set_faults|]. simpl.
  rewrite (same_license _ _ Hs1).
  destruct (tbl_license w !! i) as [l|] eqn:Hrow; [|config_leaf].
  destruct (isBanned l) eqn:Hbanned; [config_leaf|]. simpl.
  case_bool_decide as Hactive; simpl; [|config_leaf].
  unfold webConfig_findFirst.
  apply wp_bind, wp_prisma. intros fs2 Hfs2.
  split; [by do 2 apply same_tables_set_faults|]. simpl.
  rewrite (frame_webConfig _ _ Hf1).
  destruct (latest_by _ _) as [c|] eqn:Hlatest; [|config_leaf].
  case_bool_decide as Hetag; [config_leaf|].
  unfold configDeliveryLog_create.
  apply wp_bind, wp_prisma. intros fs3 Hfs3.
  split; [by do 3 apply same_tables_set_faults|]. simpl.
  apply wp_ret. destruct Hs1. split; [done|].
  exists c, i, l. split_and!; try done.
  - unfold bearer_license. rewrite Htoken. simpl. rewrite Hparse. simpl. congruence.
  - apply latest_by_spec in Hlatest as [Hin Hmax].
    apply list_elem_of_filter in Hin as [Hon Hin]. split_and!; [done..|].
    intros c' Hin' Hon'. apply Hmax. by apply list_elem_of_filter.
  - simpl. congruence.
Qed.

(** X29: the configuration endpoint delivers a configuration only to a license
    that exists, is not banned and is [ACTIVE], named by the [licenseId]
    claim of the bearer token; what it delivers is an active configuration
    with the latest publication date, whose quoted checksum is not the
    [If-None-Match] header of the request; and it logs exactly that
    delivery. *)
Theorem config_is_delivered_to_active_licenses_only
    (req : Request unit) (w w' : World) (d : Data) :
  config_GET req w = Ok (Success d) w' →
  ∃ c i l,
    d = ConfigDelivered c
    ∧ bearer_license req = Some i
    ∧ tbl_license w !! i = Some l
    ∧ isBanned l = false ∧ status l = ACTIVE
    ∧ newest_active c w
    ∧ headers req "if-none-match"
      ≠ Some (String (ascii_of_N 34) EmptyString +:+ wc_checksum c
              +:+ String (ascii_of_N 34) EmptyString)
    ∧ tbl_configDeliveryLog w'
      = (tbl_configDeliveryLog w
           ++ [{| cd_licenseId := i;
                  cd_configVersion := wc_version c;
                  cd_extensionVersion :=
                    or_else (headers req "x-extension-version") "unknown" |}])%list.
Proof.
  intros Hrun.
  exact (proj2 (wp_run _ _ _ _ _ _ (config_outcome req w) Hrun)).
Qed.

(** X30: the configuration endpoint always answers, and writes nothing but its
    delivery log: licenses, validation log and swap log are as before, and
    so is the delivery log whenever the answer is not a delivery (an error
    or 304). *)
Theorem config_GET_writes_only_its_delivery_log (req : Request unit) (w : World) :
  ∃ r w',
    config_GET req w = Ok r w'
    ∧ tbl_license w' = tbl_license w
    ∧ tbl_validationLog w' = tbl_validationLog w
    ∧ tbl_deviceSwapLog w' = tbl_deviceSwapLog w
    ∧ (is_success r = false → tbl_configDeliveryLog w' = tbl_configDeliveryLog w).
Proof.
  destruct (wp_returns _ _ _ (config_outcome req w)) as (r & w' & Hrun & Hsame & Hlog).
  exists r, w'. split_and!; [done|apply Hsame..|].
  by destruct r.
Qed.

End Backend.

(** * Concrete runs *)


Lemma sign_verify_witness :
  verifyRequest demo_hmac demo_stringify 1000
    (signRequest demo_hmac demo_stringify 1000 JsNull "api-secret")
    "api-secret" 60000 = true
  ∧ verifyRequest demo_hmac demo_stringify 1000
      {| payload := JsNull; timestamp := 2000; signature := "c0ffee" |}
      "api-secret" 60000 = false.
Proof.
  destruct (sign_verify_roundtrip_and_replay_window demo_hmac demo_stringify
              1000 JsNull "api-secret" 60000) as [Hfresh Hstale].
  split.
  - apply Hfresh. lia.
  - apply Hstale. left. simpl. lia.
Defined.

Lemma fixed_window_witness :
  1 ≤ limit RATE_LIMITS_LOGIN ∧ fixed_window RATE_LIMITS_LOGIN.
Proof.
  split; [simpl; lia|].
  apply fixed_window_for_positive_limit. simpl. lia.
Defined.

Lemma banned_license_witness :
  rejects (validate_POST demo_hmac demo_stringify demo_HS256 demo_compact
             (signed_call demo_hmac demo_stringify 1000
                (validate_payload "device-A-0001")))
          (sample_world sample_banned_license 1000).
Proof.
  destruct (banned_license_is_rejected demo_hmac demo_stringify demo_HS256
              demo_compact demo_parse
              (sample_world sample_banned_license 1000) "lic-1"
              sample_banned_license eq_refl) as [Hsigned _].
  destruct (Hsigned (signed_call demo_hmac demo_stringify 1000
                       (validate_payload "device-A-0001")) sample_key)
    as [Hvalidate _]; [reflexivity|reflexivity|].
  exact Hvalidate.
Defined.

Lemma reactivation_witness :
  ∃ token w1,
    activate_POST demo_hmac demo_stringify demo_HS256 demo_compact
      (signed_call demo_hmac demo_stringify 1000 (activate_payload "device-A-0001"))
      (sample_world (sample_license ACTIVE (Some "device-A-0001") 1 2 None) 1000)
    = Ok (Success (Activated token None sample_key ACTIVE None 0)) w1
    ∧ tbl_license w1
      = tbl_license
          (sample_world (sample_license ACTIVE (Some "device-A-0001") 1 2 None) 1000).
Proof.
  eexists _, _.
  eapply (reactivation_from_bound_device demo_hmac demo_stringify demo_HS256
            demo_compact _ _ _ _ _ _ _ "lic-1"
            (sample_license ACTIVE (Some "device-A-0001") 1 2 None)).
  - vm_compute. reflexivity.
  - reflexivity.
  - reflexivity.
  - reflexivity.
  - reflexivity.
  - vm_compute. reflexivity.
  - vm_compute. reflexivity.
  - reflexivity.
  - vm_compute. reflexivity.
  - reflexivity.
  - reflexivity.
  - reflexivity.
Defined.

Lemma quota_kept_witness :
  all_licenses within_quota
    (run demo_hmac demo_stringify demo_HS256 demo_compact
       [ {| operation := Validate (signed_call demo_hmac demo_stringify 1000
                                     (validate_payload "device-A-0001"));
            at_time := 1000; store_faults := [] |};
         {| operation := Validate (signed_call demo_hmac demo_stringify 2000
                                     (validate_payload "device-B-0002"));
            at_time := 2000; store_faults := [true] |} ]
       (sample_world (sample_license INACTIVE None 0 1 None) 0)).
Proof.
  apply quota_kept_from_issuance.
  intros i l Hl. simpl in Hl.
  apply lookup_singleton_Some in Hl as [_ <-].
  split; [unfold within_quota|intros _]; simpl; lia.
Defined.

(** Not every operation keeps the quota: one validation request takes a
    license from within its quota to beyond it. *)
Lemma quota_claim_refuted :
  ¬ quota_kept_by_every_operation demo_hmac demo_stringify demo_HS256 demo_compact.
Proof. apply quota_not_kept_by_every_operation. Qed.

Lemma validate_ignores_quota_witness :
  ∃ r w' l',
    validate_POST demo_hmac demo_stringify demo_HS256 demo_compact
      (signed_call demo_hmac demo_stringify 1000 (validate_payload "device-A-0001"))
      (sample_world (sample_license INACTIVE None 1 1 None) 1000)
    = Ok r w'
    ∧ is_success r = true
    ∧ tbl_license w' !! "lic-1" = Some l'
    ∧ activationCount l' = 2
    ∧ maxActivations l' = 1.
Proof.
  destruct (sample_passes_validate_gates demo_hmac demo_stringify
              (sample_license INACTIVE None 1 1 None) 1000
              "device-A-0001") as [w2 Hgates]; [reflexivity|reflexivity|discriminate|].
  destruct (validate_first_activation_ignores_quota demo_hmac demo_stringify
              demo_HS256 demo_compact _ _ w2 _ _ _ Hgates)
    as (r & w' & l' & Hrun & Hok & Htbl & Hcount & Hmax & _);
    [discriminate|reflexivity|reflexivity|simpl; lia|].
  exists r, w', l'. split; [exact Hrun|]. split; [exact Hok|].
  split; [rewrite Htbl; apply lookup_insert_eq|].
  split; [exact Hcount|exact Hmax].
Defined.

Lemma validate_mismatch_witness :
  ∃ w',
    validate_POST demo_hmac demo_stringify demo_HS256 demo_compact
      (signed_call demo_hmac demo_stringify 1000 (validate_payload "device-B-0002"))
      (sample_world (sample_license ACTIVE (Some "device-A-0001") 1 1 None) 1000)
    = Ok (Failure 403 (Some "DEVICE_MISMATCH")
            "This license is bound to another device"
            (MismatchDetails "Unknown Device" false 0)) w'
    ∧ tbl_license w'
      = tbl_license
          (sample_world (sample_license ACTIVE (Some "device-A-0001") 1 1 None) 1000).
Proof.
  destruct (sample_passes_validate_gates demo_hmac demo_stringify
              (sample_license ACTIVE (Some "device-A-0001") 1 1 None) 1000
              "device-B-0002") as [w2 Hgates]; [reflexivity|reflexivity|discriminate|].
  exact (validate_mismatch_response demo_hmac demo_stringify demo_HS256 demo_compact
           _ _ w2 _ _ _ Hgates eq_refl eq_refl eq_refl ltac:(discriminate)).
Defined.

Lemma validate_expiry_witness :
  ∃ w',
    validate_POST demo_hmac demo_stringify demo_HS256 demo_compact
      (signed_call demo_hmac demo_stringify 1000 (validate_payload "device-A-0001"))
      (sample_world (sample_license ACTIVE (Some "device-A-0001") 1 2 (Some 500)) 1000)
    = Ok (Failure 403 (Some "LICENSE_EXPIRED") "Your license has expired"
            (ExpiresAt (Some 500))) w'
    ∧ tbl_license w' !! "lic-1"
      = Some (sample_license ACTIVE (Some "device-A-0001") 1 2 (Some 500)).
Proof.
  destruct (sample_passes_validate_gates demo_hmac demo_stringify
              (sample_license ACTIVE (Some "device-A-0001") 1 2 (Some 500)) 1000
              "device-A-0001") as [w2 Hgates]; [reflexivity|reflexivity|discriminate|].
  exact (validate_does_not_persist_expiry demo_hmac demo_stringify demo_HS256
           demo_compact _ _ w2 _ _ _ Hgates eq_refl).
Defined.

Lemma refresh_token_witness :
  verifyJWT demo_HS256 demo_parse
    (demo_compact demo_refresh_token)
    (set_clock 5000 (sample_world (sample_license ACTIVE None 0 1 None) 1000))
  = Ok (Some {| licenseId := Some "lic-1"; userId_ := Some "user-1"; email := None;
                iat := Some 1; exp := Some (1 + 7 * 86400) |})
       (set_clock 5000 (sample_world (sample_license ACTIVE None 0 1 None) 1000)).
Proof.
  destruct (refresh_token_passes_verifyJWT demo_HS256 demo_compact demo_parse
              {| licenseId := Some "lic-1"; userId_ := Some "user-1"; email := None;
                 iat := None; exp := None |}
              (sample_world (sample_license ACTIVE None 0 1 None) 1000) 5000)
    as (_ & _ & Haccepted).
  apply Haccepted; vm_compute; reflexivity.
Defined.

(** At the input of [validate_mismatch_witness] the binding check itself
    reports the exhausted quota. *)
Lemma checkDeviceBinding_reports_exhausted_quota :
  ∃ r w',
    checkDeviceBinding "lic-1"
      {| df_browserFingerprint := "device-B-0002"; df_hardwareFingerprint := None |}
      (sample_world (sample_license ACTIVE (Some "device-A-0001") 1 1 None) 1000)
    = Ok r w'
    ∧ isValid r = false
    ∧ errorCode r = Some MAX_ACTIVATIONS_REACHED.
Proof. eexists _, _. vm_compute. split_and!; reflexivity. Qed.

(** ** Runs of the rate limiter and of the keep-alive job *)


Lemma store_outage_witness :
  ∃ w', checkRateLimit "alice" RATE_LIMITS_LOGIN "login"
          (set_faults [true] cold_start_world)
        = Ok {| success := true; r_limit := 5; remaining := 4; reset := 901000 |} w'
        ∧ rateLimitCache w' !! "login:alice" = Some {| count := 1; resetAt := 901000 |}.
Proof.
  apply (store_outage_at_cold_start_opens_new_window "alice" "login"
           RATE_LIMITS_LOGIN (set_faults [true] cold_start_world) []).
  - reflexivity.
  - reflexivity.
Defined.

Lemma rate_limit_result_bounds_witness :
  ∃ r w', checkRateLimit "unknown" RATE_LIMITS_IP "ip" exhausted_world = Ok r w'
          ∧ clock exhausted_world ≤ reset r
          ∧ 0 ≤ remaining r
          ∧ (success r = false → remaining r = 0).
Proof.
  apply rate_limit_result_bounds. simpl. lia.
Defined.

Lemma cache_sweep_witness :
  ∃ r w1 w2,
    checkRateLimit "unknown" RATE_LIMITS_IP "ip" (set_clock 6000 exhausted_world)
    = Ok r w1
    ∧ checkRateLimit "unknown" RATE_LIMITS_IP "ip"
        (set_clock 6000 (world_of (cleanup (set_clock 5500 exhausted_world))))
      = Ok r w2.
Proof.
  apply (cache_sweep_is_invisible "unknown" "ip" RATE_LIMITS_IP
           (set_clock 5500 exhausted_world) 6000).
  simpl. lia.
Defined.

Lemma rate_limits_are_per_key_witness :
  ∃ r wa wb,
    checkRateLimit "alice" RATE_LIMITS_LOGIN "login"
      (set_faults [] (set_clock 2000 cold_start_world)) = Ok r wa
    ∧ checkRateLimit "alice" RATE_LIMITS_LOGIN "login"
        (set_faults []
           (set_clock 2000
              (world_of (checkRateLimit "bob" RATE_LIMITS_LOGIN "login"
                           cold_start_world))))
      = Ok r wb.
Proof.
  apply (rate_limits_are_per_key "bob" "login" RATE_LIMITS_LOGIN
           "alice" "login" RATE_LIMITS_LOGIN cold_start_world [] 2000).
  discriminate.
Defined.

Lemma keepAlive_is_invisible_witness :
  ∃ r wa wb,
    checkRateLimit "alice" RATE_LIMITS_LOGIN "login"
      (set_faults [] (set_clock 6000 cold_start_world)) = Ok r wa
    ∧ checkRateLimit "alice" RATE_LIMITS_LOGIN "login"
        (set_faults []
           (set_clock 6000
              (world_of (keepAlive_GET (Some "cron-secret")
                           (authorized_call "Bearer cron-secret")
                           (set_clock 5500 cold_start_world)))))
      = Ok r wb.
Proof.
  apply (keepAlive_is_invisible_to_rate_limit (Some "cron-secret")
           (authorized_call "Bearer cron-secret") "alice" "login" RATE_LIMITS_LOGIN
           (set_clock 5500 cold_start_world) [] 6000).
  simpl. lia.
Defined.

Lemma keepAlive_sweeps_witness :
  ∃ w', keepAlive_GET (Some "cron-secret") (authorized_call "Bearer cron-secret")
          (set_clock 5500 cold_start_world)
        = Ok (CronDone 5500 1 1) w'
        ∧ tbl_rateLimit w' !! "login:alice" = None.
Proof.
  destruct (keepAlive_sweeps_expired_rows (Some "cron-secret")
              (authorized_call "Bearer cron-secret")
              (set_clock 5500 cold_start_world) eq_refl eq_refl)
    as (w' & Hrun & Hrows & _).
  exists w'. split; [exact Hrun|].
  destruct (tbl_rateLimit w' !! "login:alice") as [e|] eqn:Hrow; [|reflexivity].
  apply Hrows in Hrow as [Hold Hlive].
  vm_compute in Hold. injection Hold as <-.
  exfalso. apply Hlive. reflexivity.
Defined.

(** ** Signed requests *)

Lemma signed_request_window_witness :
  parseSignedRequest
    (body_of_request (signRequest demo_hmac demo_stringify 1000 JsNull "api-secret"))
  = Some (signRequest demo_hmac demo_stringify 1000 JsNull "api-secret")
  ∧ verifyRequest demo_hmac demo_stringify 61000
      (signRequest demo_hmac demo_stringify 1000 JsNull "api-secret")
      "api-secret" 60000 = true.
Proof.
  apply signed_request_is_accepted_throughout_window. lia.
Defined.

Lemma odd_trailing_character_witness :
  verifyRequest demo_hmac demo_stringify 1000
    (with_signature ("c0ffee" +:+ "0")
       (signRequest demo_hmac demo_stringify 1000 JsNull "api-secret"))
    "api-secret" 60000
  = verifyRequest demo_hmac demo_stringify 1000
      (signRequest demo_hmac demo_stringify 1000 JsNull "api-secret")
      "api-secret" 60000.
Proof.
  apply (verifyRequest_ignores_odd_trailing_character demo_hmac demo_stringify 1000
           (signRequest demo_hmac demo_stringify 1000 JsNull "api-secret")
           "api-secret" 60000 "0"%char).
  exists 3%nat. reflexivity.
Defined.

(** ** License keys *)

Lemma license_key_first_eight_witness :
  generateLicenseKey [x00; x01; x02; x03; x04; x05; x06; x07; x08; x09; x0a; x0b]%byte
  = generateLicenseKey [x00; x01; x02; x03; x04; x05; x06; x07; xff; xfe; xfd; xfc]%byte.
Proof.
  apply (license_key_is_fixed_by_first_eight_bytes
           [x00; x01; x02; x03; x04; x05; x06; x07; x08; x09; x0a; x0b]%byte
           [x00; x01; x02; x03; x04; x05; x06; x07; xff; xfe; xfd; xfc]%byte);
    reflexivity.
Defined.

Lemma valid_license_key_shape_witness :
  String.length sample_key = 22%nat
  ∧ substring 0 3 sample_key = "SH-"
  ∧ toUpperCase sample_key = sample_key.
Proof.
  apply valid_license_key_shape. reflexivity.
Defined.

(** ** Logger *)

Lemma redact_hides_witness :
  ∃ x, lookup_path ["user"; "password"] (redact sample_log_record) = Some x
       ∧ x = REDACTED.
Proof.
  exists (LogLeaf (JStr "[REDACTED]")). split; [reflexivity|].
  apply (redact_hides_sensitive_fields sample_log_record ["user"] "password").
  - do 2 apply list_elem_of_further. apply list_elem_of_here.
  - reflexivity.
Defined.

Lemma redact_keeps_witness :
  lookup_path ["user"; "name"] (redact sample_log_record)
  = redact <$> lookup_path ["user"; "name"] sample_log_record.
Proof.
  apply redact_keeps_other_fields.
  apply (bool_decide_eq_true_1 _). vm_compute. reflexivity.
Defined.

(** ** Device binding and tokens *)

Lemma bound_device_witness :
  ∃ w1,
    bindDevice "lic-1"
      {| df_browserFingerprint := "device-A-0001"; df_hardwareFingerprint := None |}
      None None (sample_world (sample_license INACTIVE None 0 2 None) 1000)
    = Ok true w1
    ∧ checkDeviceBinding "lic-1"
        {| df_browserFingerprint := "device-A-0001"; df_hardwareFingerprint := None |}
        w1
      = Ok {| isValid := true; isFirstActivation := false; canSwap := false;
              swapsRemaining := 1; boundDevice := Some "Unknown Device";
              errorCode := None |} w1.
Proof.
  destruct (bound_device_passes_the_binding_check "lic-1"
              {| df_browserFingerprint := "device-A-0001";
                 df_hardwareFingerprint := None |}
              None None (sample_world (sample_license INACTIVE None 0 2 None) 1000)
              (sample_license INACTIVE None 0 2 None))
    as (w1 & Hbind & Hcheck & _); [reflexivity|reflexivity|discriminate|].
  exists w1. split; [exact Hbind|exact Hcheck].
Defined.

Lemma swapped_device_witness :
  ∃ w1,
    requestDeviceSwap "lic-1"
      {| df_browserFingerprint := "device-B-0002"; df_hardwareFingerprint := None |}
      "unknown" None
      (sample_world (sample_license ACTIVE (Some "device-A-0001") 1 2 None) 1000)
    = Ok {| swap_success := true; swapLogId := Some 0%nat; swap_error := None |} w1
    ∧ (∃ r, checkDeviceBinding "lic-1"
              {| df_browserFingerprint := "device-B-0002";
                 df_hardwareFingerprint := None |} w1
            = Ok r w1
            ∧ isValid r = true ∧ isFirstActivation r = false
            ∧ swapsRemaining r = 0)
    ∧ (∃ r, checkDeviceBinding "lic-1"
              {| df_browserFingerprint := "device-A-0001";
                 df_hardwareFingerprint := None |} w1
            = Ok r w1
            ∧ isValid r = false).
Proof.
  destruct (swapped_device_passes_the_binding_check "lic-1"
              {| df_browserFingerprint := "device-B-0002";
                 df_hardwareFingerprint := None |}
              "unknown" None
              (sample_world (sample_license ACTIVE (Some "device-A-0001") 1 2 None) 1000)
              (sample_license ACTIVE (Some "device-A-0001") 1 2 None) "device-A-0001")
    as (w1 & Hswap & Hnew & Hold);
    [reflexivity|reflexivity|reflexivity|discriminate|simpl; lia|discriminate|].
  exists w1. split; [exact Hswap|]. split; [exact Hnew|].
  apply Hold. discriminate.
Defined.

Lemma access_token_witness :
  signAccessToken demo_HS256 demo_compact
    {| licenseId := Some "lic-1"; userId_ := Some "user-1"; email := None;
       iat := None; exp := None |}
    (sample_world (sample_license ACTIVE None 0 1 None) 1000)
  = Ok (demo_compact demo_access_token)
       (sample_world (sample_license ACTIVE None 0 1 None) 1000)
  ∧ verifyJWT demo_HS256 demo_parse_access (demo_compact demo_access_token)
      (set_clock 3600000 (sample_world (sample_license ACTIVE None 0 1 None) 1000))
    = Ok (Some {| licenseId := Some "lic-1"; userId_ := Some "user-1"; email := None;
                  iat := Some 1; exp := Some 3601 |})
         (set_clock 3600000 (sample_world (sample_license ACTIVE None 0 1 None) 1000))
  ∧ verifyJWT demo_HS256 demo_parse_access (demo_compact demo_access_token)
      (set_clock 3601000 (sample_world (sample_license ACTIVE None 0 1 None) 1000))
    = Ok None
         (set_clock 3601000 (sample_world (sample_license ACTIVE None 0 1 None) 1000)).
Proof.
  pose proof (access_token_verifies_until_it_expires demo_HS256 demo_compact
                demo_parse_access
                {| licenseId := Some "lic-1"; userId_ := Some "user-1"; email := None;
                   iat := None; exp := None |}
                (sample_world (sample_license ACTIVE None 0 1 None) 1000))
    as Htoken.
  split; [exact (proj1 (Htoken 0 eq_refl))|].
  split; [exact (proj2 (Htoken 3600000 eq_refl))|exact (proj2 (Htoken 3601000 eq_refl))].
Defined.

(** ** Refusals *)

Lemma refused_request_witness :
  tbl_license
    (world_of
       (validate_POST demo_hmac demo_stringify demo_HS256 demo_compact
          (signed_call demo_hmac demo_stringify 1000 (validate_payload "device-B-0002"))
          (sample_world (sample_license ACTIVE (Some "device-A-0001") 1 1 None) 1000)))
  = tbl_license
      (sample_world (sample_license ACTIVE (Some "device-A-0001") 1 1 None) 1000)
  ∧ tbl_deviceSwapLog
      (world_of
         (validate_POST demo_hmac demo_stringify demo_HS256 demo_compact
            (signed_call demo_hmac demo_stringify 1000
               (validate_payload "device-B-0002"))
            (sample_world (sample_license ACTIVE (Some "device-A-0001") 1 1 None)
               1000)))
    = [].
Proof.
  apply (refused_requests_change_no_license demo_hmac demo_stringify demo_HS256
           demo_compact
           (Validate (signed_call demo_hmac demo_stringify 1000
                        (validate_payload "device-B-0002")))
           (sample_world (sample_license ACTIVE (Some "device-A-0001") 1 1 None) 1000)
           _
           (Failure 403 (Some "DEVICE_MISMATCH")
              "This license is bound to another device"
              (MismatchDetails "Unknown Device" false 0))).
  - discriminate.
  - vm_compute. reflexivity.
  - reflexivity.
Defined.


Lemma retry_after_witness :
  ∃ w',
    validate_POST demo_hmac demo_stringify demo_HS256 demo_compact
      (signed_call demo_hmac demo_stringify 1000 (validate_payload "device-A-0001"))
      exhausted_world
    = Ok (Failure 429 (Some "RATE_LIMIT_EXCEEDED")
            "Too many requests. Please try again later."
            (RetryAfter 4 {| success := false; r_limit := 100; remaining := 0;
                             reset := 5000 |})) w'
    ∧ 0 ≤ 4.
Proof.
  assert (validate_POST demo_hmac demo_stringify demo_HS256 demo_compact
            (signed_call demo_hmac demo_stringify 1000
               (validate_payload "device-A-0001"))
            exhausted_world
          = Ok (Failure 429 (Some "RATE_LIMIT_EXCEEDED")
                  "Too many requests. Please try again later."
                  (RetryAfter 4 {| success := false; r_limit := 100; remaining := 0;
                                   reset := 5000 |}))
               (world_of
                  (validate_POST demo_hmac demo_stringify demo_HS256 demo_compact
                     (signed_call demo_hmac demo_stringify 1000
                        (validate_payload "device-A-0001"))
                     exhausted_world))) as Hrun.
  { vm_compute. reflexivity. }
  eexists. split; [exact Hrun|].
  exact (proj1 (retry_after_is_never_negative demo_hmac demo_stringify demo_HS256
                  demo_compact _ _ _ _ _ _ _ (or_introl Hrun))).
Defined.

(** ** Successful requests *)

Lemma validation_from_bound_device_witness :
  ∃ w',
    validate_POST demo_hmac demo_stringify demo_HS256 demo_compact
      (signed_call demo_hmac demo_stringify 1000 (validate_payload "device-A-0001"))
      (sample_world (sample_license ACTIVE (Some "device-A-0001") 1 2 None) 1000)
    = Ok (Success (Validated "header.claims.signature" "lic-1" ACTIVE None None
                     "1.0.0" "User" "user@example.org")) w'
    ∧ tbl_license w' !! "lic-1"
      = Some (set_lastValidated (Some 1000) (Some "unknown")
                (sample_license ACTIVE (Some "device-A-0001") 1 2 None)).
Proof.
  destruct (sample_passes_validate_gates demo_hmac demo_stringify
              (sample_license ACTIVE (Some "device-A-0001") 1 2 None) 1000
              "device-A-0001") as [w2 Hgates]; [reflexivity|reflexivity|discriminate|].
  destruct (validation_from_bound_device demo_hmac demo_stringify demo_HS256
              demo_compact _ _ w2 _ _ _ Hgates)
    as (w' & Hrun & Hlicense & _);
    [discriminate|reflexivity|reflexivity|discriminate|].
  exists w'. split; [exact Hrun|].
  rewrite Hlicense. reflexivity.
Defined.

Lemma first_activation_witness :
  ∃ w' l',
    activate_POST demo_hmac demo_stringify demo_HS256 demo_compact
      (signed_call demo_hmac demo_stringify 1000 (activate_payload "device-A-0001"))
      (sample_world (sample_license INACTIVE None 0 1 (Some 500)) 1000)
    = Ok (Success (Activated "header.claims.signature" (Some 3600) sample_key ACTIVE
                     (Some 500) 1000)) w'
    ∧ tbl_license w' !! "lic-1" = Some l'
    ∧ status l' = ACTIVE
    ∧ browserFingerprint l' = Some "device-A-0001"
    ∧ activationCount l' = 1.
Proof.
  destruct (first_activation_binds_the_device demo_hmac demo_stringify demo_HS256
              demo_compact
              (signed_call demo_hmac demo_stringify 1000
                 (activate_payload "device-A-0001"))
              (sample_world (sample_license INACTIVE None 0 1 (Some 500)) 1000)
              (world_of (checkIpRateLimit "unknown"
                           (sample_world (sample_license INACTIVE None 0 1 (Some 500))
                              1000)))
              {| ap_licenseKey := sample_key; ap_browserFingerprint := "device-A-0001";
                 ap_hardwareFingerprint := None; ap_deviceName := None |}
              "lic-1" (sample_license INACTIVE None 0 1 (Some 500)))
    as (w' & l' & Hrun & Hlicense & Hstatus & Hbound & Hcount & _).
  - eexists _, _, _. split_and!.
    + vm_compute. reflexivity.
    + reflexivity.
    + reflexivity.
    + reflexivity.
    + reflexivity.
    + vm_compute. reflexivity.
    + vm_compute. reflexivity.
    + reflexivity.
    + vm_compute. reflexivity.
    + reflexivity.
  - reflexivity.
  - simpl. lia.
  - exists w', l'. split; [exact Hrun|].
    split; [rewrite Hlicense; apply lookup_insert_eq|].
    split; [exact Hstatus|]. split; [exact Hbound|exact Hcount].
Defined.

Lemma extension_device_limit_witness :
  within_device_limit
    (world_of
       (extensionActivate_POST demo_HS256 demo_compact
          (extension_call "device-A-0001")
          (sample_world (sample_license INACTIVE None 0 1 None) 1000))).
Proof.
  apply extension_activation_keeps_device_limit.
  intros i l Hrow. simpl.
  unfold maxDevices. repeat case_bool_decide; lia.
Defined.

Lemma config_delivery_witness :
  ∃ w',
    config_GET demo_HS256 demo_parse
      (authorized_call "Bearer header.claims.signature") sample_config_world
    = Ok (Success (ConfigDelivered sample_config)) w'
    ∧ bearer_license demo_parse (authorized_call "Bearer header.claims.signature")
      = Some "lic-1"
    ∧ tbl_configDeliveryLog w'
      = [{| cd_licenseId := "lic-1"; cd_configVersion := "2.0.0";
            cd_extensionVersion := "unknown" |}].
Proof.
  assert (config_GET demo_HS256 demo_parse
            (authorized_call "Bearer header.claims.signature") sample_config_world
          = Ok (Success (ConfigDelivered sample_config))
               (world_of (config_GET demo_HS256 demo_parse
                            (authorized_call "Bearer header.claims.signature")
                            sample_config_world))) as Hrun.
  { vm_compute. reflexivity. }
  destruct (config_is_delivered_to_active_licenses_only demo_HS256 demo_parse
              _ _ _ _ Hrun)
    as (c & i & l & Hdelivered & Hbearer & _ & _ & _ & _ & _ & Hlog).
  injection Hdelivered as <-.
  eexists. split; [exact Hrun|]. split; [reflexivity|].
  rewrite Hlog. vm_compute in Hbearer. injection Hbearer as <-. reflexivity.
Defined.
